(** * Heart-rain frame generator (app.py): model and verified properties

    The development follows [app.py]: [load_font], [create_heart] and
    [generate_frames].

    - Python integers are [Z]; [//] is [Z.div].  A Python float is the
      rational it stands for ([Q]), and every float operation of the
      falling hearts (the progress [t], the position [y], the drift and
      the destination column) and of [create_heart] rounds its exact
      result to binary64 with [round64]: nearest value with a 53-bit
      significand, ties to even.  The exponent is not bounded; the
      values of a run stay far from either end of its range.  [int(.)]
      is truncation toward zero.  The products of a canvas side with
      0.03, 0.05, 0.06 and 0.08 and the centring of the caption are
      written with exact rationals: on the sizes Pillow accepts their
      truncations are those of the float products
      ([truncated_products_exact]).
    - A [str] is the list of its code points ([pystr]), so that [len]
      and slicing count characters.
    - The global [random] module is a stream of raw draws read through a
      cursor: [randint(a, b)] reduces the next draw into [a..b] and
      raises [ValueError] on an empty range, [random()] turns it into a
      53-bit fraction.  Properties hold for every stream.
    - A raster is its mode, its size and its pixels.  Of Pillow the model
      writes out what the program depends on: [Image.new] refuses
      negative sizes, [resize] refuses sizes below 1 and from 2^31 on,
      [textsize] with the built-in bitmap font refuses text that is not
      Latin-1, the in-place [alpha_composite] needs two RGBA rasters,
      accepts any destination and clips the overlay to the target,
      [convert("RGB")] drops the alpha band.  Memory is not a limit.
      Resampling, the per-pixel blend, glyph rendering and the pixels
      covered by an ellipse or a polygon are an interface ([Pillow]);
      the files of the host are another ([Host]).
    - The loops of [generate_frames] run in a state and error monad over
      the cursor of the random stream, the dict [heart_cache] and a
      counter of rasterizer calls. *)

From Stdlib Require Import ZArith QArith Qabs Qround Qpower.
From Stdlib Require Import List String Lia Lqa Bool.
From Stdlib Require Import Ascii DecimalString DecimalNat.
From stdpp Require Import base gmap strings.
Import ListNotations.
Local Open Scope Z_scope.

(* ------------------------------------------------------------------ *)
(** ** Python numbers *)

Module Py.

(** [int(q)] on a float: truncation toward zero. *)
Definition int (q : Q) : Z := Z.quot (Qnum q) (Zpos (Qden q)).

(** An integer used in float arithmetic. *)
Definition float (z : Z) : Q := inject_Z z.

(** Exceptions the modelled code can raise. *)
Inductive Exn : Type :=
| ValueError
| ZeroDivisionError
| KeyError
| OSError
| OverflowError
| UnicodeEncodeError.

Inductive Result (A : Type) : Type :=
| Ok (a : A)
| Raise (e : Exn).
Arguments Ok {A} a.
Arguments Raise {A} e.

Definition is_ok {A} (r : Result A) : bool :=
match r with Ok _ => true | Raise _ => false end.

(** [2 ** e] for any integer exponent. *)
Definition pow2 (e : Z) : Q := Qpower 2 e.

(** The exponent of a positive value: [2^e <= q < 2^(e+1)]. *)
Definition ilog2 (q : Q) : Z :=
let k := Z.log2 (Qnum q) - Z.log2 (Zpos (Qden q)) in
if Qle_bool (pow2 k) q then k else k - 1.

(** The nearest integer, ties to the even one. *)
Definition rne (q : Q) : Z :=
let f := Qfloor q in
match Qcompare (q - inject_Z f) (1 # 2) with
| Lt => f
| Gt => f + 1
| Eq => if Z.even f then f else f + 1
end.

(** Rounding of a positive value to a 53-bit significand. *)
Definition round_pos (q : Q) : Q :=
let e := ilog2 q - 52 in
(inject_Z (rne (q * pow2 (- e))) * pow2 e)%Q.

(** The binary64 value a float operation returns for the exact result
    [q]: round to nearest, ties to even. *)
Definition round64 (q : Q) : Q :=
match Qcompare q 0 with
| Eq => 0%Q
| Gt => round_pos q
| Lt => (- round_pos (- q))%Q
end.

(** An integer operand of a float operation is converted first. *)
Definition of_int (z : Z) : Q := round64 (inject_Z z).

(** Float addition, subtraction and multiplication. *)
Definition fadd (a b : Q) : Q := round64 (a + b).
Definition fsub (a b : Q) : Q := round64 (a - b).
Definition fmul (a b : Q) : Q := round64 (a * b).

(** The quotient [a / b] of two integers, [b] not zero. *)
Definition fquot (a b : Z) : Q := round64 (inject_Z a / inject_Z b).

(** [a / b] on integers: true division, [ZeroDivisionError] on [b = 0]. *)
Definition truediv (a b : Z) : Result Q :=
if b =? 0 then Raise ZeroDivisionError
else Ok (fquot a b).

(** A [str]: its code points. *)
Definition pystr : Type := list N.

(** The [str] written with the given Latin-1 characters. *)
Definition py (s : string) : pystr :=
List.map N_of_ascii (list_ascii_of_string s).

(** [range(n)] *)
Definition range (n : Z) : list Z := List.map Z.of_nat (seq 0 (Z.to_nat n)).

End Py.
Import Py.

(* ------------------------------------------------------------------ *)
(** ** Rasters *)

(** One pixel, four 8-bit bands. *)
Record RGBA : Type := mkRGBA { red : Z; green : Z; blue : Z; alpha : Z }.

Definition transparent : RGBA := mkRGBA 0 0 0 0.

Inductive Mode : Type := ModeRGBA | ModeRGB.

Record Image : Type := mkImage {
  im_mode : Mode;
  im_width : Z;
  im_height : Z;
  im_pixel : Z -> Z -> RGBA
}.

Definition in_bounds (im : Image) (x y : Z) : bool :=
  (0 <=? x) && (x <? im_width im) && (0 <=? y) && (y <? im_height im).

(** [im.getpixel((x, y))], [None] outside the raster. *)
Definition getpixel (im : Image) (x y : Z) : option RGBA :=
  if in_bounds im x y then Some (im_pixel im x y) else None.

(** [Image.new(mode, (w, h), fill)] *)
Definition Image_new (m : Mode) (w h : Z) (fill : RGBA) : Image :=
  mkImage m w h (fun _ _ => fill).

(** [im.copy()] *)
Definition Image_copy (im : Image) : Image :=
  mkImage (im_mode im) (im_width im) (im_height im) (im_pixel im).

(** Dropping the alpha band: every pixel of an RGB raster is opaque. *)
Definition drop_alpha (c : RGBA) : RGBA :=
  mkRGBA (red c) (green c) (blue c) 255.

(** [im.convert("RGB")] on an RGBA raster. *)
Definition convert_RGB (im : Image) : Image :=
  mkImage ModeRGB (im_width im) (im_height im)
          (fun x y => drop_alpha (im_pixel im x y)).

(** [im.convert("RGBA")] *)
Definition convert_RGBA (im : Image) : Image :=
  match im_mode im with
  | ModeRGBA => Image_copy im
  | ModeRGB => mkImage ModeRGBA (im_width im) (im_height im)
                       (fun x y => drop_alpha (im_pixel im x y))
  end.

Inductive Font : Type :=
  | TrueType (path : string) (size : Z)
  | DefaultBitmap.

(** What the program relies on from Pillow without fixing its pixels. *)
Class Pillow : Type := {
  (** pixel [(x, y)] of [im] resampled to [w] by [h] with LANCZOS *)
  lanczos : Image -> Z -> Z -> Z -> Z -> RGBA;
  (** source-over blend of one pixel: [blend_over dst src] *)
  blend_over : RGBA -> RGBA -> RGBA;
  (** pixels filled by [draw.ellipse(bbox, fill)] *)
  ellipse_covers : Q * Q * Q * Q -> Z -> Z -> bool;
  (** pixels filled by [draw.polygon(points, fill)] *)
  polygon_covers : list (Q * Q) -> Z -> Z -> bool;
  (** [draw.text] at one pixel: font, text, fill, offset from the draw
      origin and the pixel underneath *)
  text_pixel : Font -> pystr -> RGBA -> Z -> Z -> RGBA -> RGBA;
  (** width and height of a text the font can render *)
  text_extent : pystr -> Font -> Z * Z
}.

(** The files present on the host and whether FreeType opens them. *)
Class Host : Type := {
  isfile : string -> bool;
  truetype_opens : string -> Z -> bool
}.

(* ------------------------------------------------------------------ *)
(** ** load_font *)

Section LoadFont.
Context {host : Host}.

(** [ImageFont.truetype(path, size=size)] *)
Definition ImageFont_truetype (path : string) (size : Z) : Result Font :=
  if truetype_opens path size then Ok (TrueType path size)
  else Raise OSError.

(** [ImageFont.load_default()] *)
Definition ImageFont_load_default : Result Font := Ok DefaultBitmap.

Definition font_paths : list string :=
  [ "/usr/share/fonts/truetype/dejavu/DejaVuSans-Bold.ttf";
    "/usr/share/fonts/truetype/dejavu/DejaVuSans.ttf";
    "/usr/share/fonts/truetype/freefont/FreeSansBold.ttf" ]%string.

(** The [for path in font_paths] loop with its [try]/[except]. *)
Fixpoint try_paths (paths : list string) (size : Z) : Result Font :=
  match paths with
  | [] => ImageFont_load_default
  | path :: rest =>
      if isfile path then
        match ImageFont_truetype path size with
        | Ok f => Ok f
        | Raise _ => try_paths rest size
        end
      else try_paths rest size
  end.

Definition load_font (size : Z) : Result Font := try_paths font_paths size.

(** A candidate resolves when the file exists and FreeType opens it. *)
Definition resolves (size : Z) (path : string) : bool :=
  isfile path && truetype_opens path size.

End LoadFont.

(* ------------------------------------------------------------------ *)
(** ** Drawing primitives *)

Section Drawing.
Context {pil : Pillow}.

(** [Image.new] refuses negative sizes. *)
Definition Image_new_checked (m : Mode) (w h : Z) (fill : RGBA)
  : Result Image :=
  if (w <? 0) || (h <? 0) then Raise ValueError
  else Ok (Image_new m w h fill).

(** [im.resize((w, h), Image.LANCZOS)]; sizes below 1 are refused, and
    so are sizes that do not fit a C [int]. *)
Definition Image_resize (im : Image) (w h : Z) : Result Image :=
  if (w <? 1) || (h <? 1) then Raise ValueError
  else if (2 ^ 31 <=? w) || (2 ^ 31 <=? h) then Raise OverflowError
  else Ok (mkImage (im_mode im) w h (lanczos im w h)).

(** The built-in bitmap font encodes its text as Latin-1. *)
Definition latin1 (text : pystr) : bool :=
  forallb (fun c => (c <? 256)%N) text.

(** Whether a font takes a text. *)
Definition encodes (font : Font) (text : pystr) : bool :=
  match font with
  | DefaultBitmap => latin1 text
  | TrueType _ _ => true
  end.

(** [draw.textsize(text, font=font)] *)
Definition ImageDraw_textsize (text : pystr) (font : Font)
  : Result (Z * Z) :=
  if encodes font text then Ok (text_extent text font)
  else Raise UnicodeEncodeError.

(** [draw.ellipse(bbox, fill=color)]: covered pixels take the fill. *)
Definition draw_ellipse (im : Image) (bbox : Q * Q * Q * Q) (fill : RGBA)
  : Image :=
  mkImage (im_mode im) (im_width im) (im_height im)
    (fun x y => if in_bounds im x y && ellipse_covers bbox x y
                then fill else im_pixel im x y).

(** [draw.polygon(points, fill=color)] *)
Definition draw_polygon (im : Image) (pts : list (Q * Q)) (fill : RGBA)
  : Image :=
  mkImage (im_mode im) (im_width im) (im_height im)
    (fun x y => if in_bounds im x y && polygon_covers pts x y
                then fill else im_pixel im x y).

(** [draw.text(xy, text, font=font, fill=fill)] of a text the font
    takes: in [generate_frames] every text drawn has been measured with
    the same font before. *)
Definition draw_text (im : Image) (xy : Z * Z) (text : pystr)
           (font : Font) (fill : RGBA) : Image :=
  mkImage (im_mode im) (im_width im) (im_height im)
    (fun x y => if in_bounds im x y
                then text_pixel font text fill (x - fst xy) (y - snd xy)
                                (im_pixel im x y)
                else im_pixel im x y).

(** [self.alpha_composite(im, dest=dest)]: both rasters must be RGBA;
    the overlay is blended where it lies over [self], the part of it
    outside [self] is dropped, and [self] keeps its size. *)
Definition alpha_composite (self im : Image) (dest : Z * Z)
  : Result Image :=
  match im_mode self, im_mode im with
  | ModeRGBA, ModeRGBA =>
      Ok (mkImage ModeRGBA (im_width self) (im_height self)
            (fun x y =>
               if in_bounds self x y
                  && in_bounds im (x - fst dest) (y - snd dest)
               then blend_over (im_pixel self x y)
                      (im_pixel im (x - fst dest) (y - snd dest))
               else im_pixel self x y))
  | _, _ => Raise ValueError
  end.

(* ---------------------------------------------------------------- *)
(** ** create_heart *)

Definition heart_color : RGBA := mkRGBA 255 105 180 200.

Definition heart_radius (size : Z) : Z := size / 2.
(** [radius * 0.65] and [radius * 0.35] *)
Definition circle_radius (size : Z) : Q :=
  fmul (of_int (heart_radius size)) (round64 (65 # 100)).
Definition circle_offset (size : Z) : Q :=
  fmul (of_int (heart_radius size)) (round64 (35 # 100)).

(** [2 * circle_radius] *)
Definition circle_diameter (size : Z) : Q :=
  fmul (of_int 2) (circle_radius size).

Definition left_circle (size : Z) : Q * Q * Q * Q :=
  let radius := heart_radius size in
  (fadd (fsub (of_int radius) (circle_diameter size)) (circle_offset size),
   fsub (of_int radius) (circle_diameter size),
   fadd (of_int radius) (circle_offset size),
   float radius).

Definition right_circle (size : Z) : Q * Q * Q * Q :=
  let radius := heart_radius size in
  (fsub (of_int radius) (circle_offset size),
   fsub (of_int radius) (circle_diameter size),
   fsub (fadd (of_int radius) (circle_diameter size)) (circle_offset size),
   float radius).

Definition bottom_triangle (size : Z) : list (Q * Q) :=
  let radius := heart_radius size in
  [ (fadd (fsub (of_int radius) (circle_diameter size)) (circle_offset size),
     fsub (of_int radius) (circle_radius size));
    (fsub (fadd (of_int radius) (circle_diameter size)) (circle_offset size),
     fsub (of_int radius) (circle_radius size));
    (float radius, float size) ].

Definition create_heart (size : Z) (color : RGBA) : Result Image :=
  match Image_new_checked ModeRGBA size size transparent with
  | Raise e => Raise e
  | Ok heart =>
      let heart := draw_ellipse heart (left_circle size) color in
      let heart := draw_ellipse heart (right_circle size) color in
      let heart := draw_polygon heart (bottom_triangle size) color in
      Ok heart
  end.

End Drawing.

(* ------------------------------------------------------------------ *)
(** ** State threaded through one run *)

(** A cached sprite: the raster and the identity of the object holding
    it (the index of the rasterizer call that allocated it). *)
Record Sprite : Type := mkSprite { sprite_obj : nat; sprite_img : Image }.

(** A heart: the dict [{"start": .., "x": .., "size": ..}]. *)
Record Heart : Type := mkHeart { h_start : Z; h_x : Z; h_size : Z }.

Record RunState : Type := mkState {
  rng_cursor : nat;              (** draws taken from [random] so far *)
  heart_cache : gmap Z Sprite;   (** the dict [heart_cache] *)
  raster_calls : nat             (** calls of [create_heart] so far *)
}.

Definition M (A : Type) : Type := RunState -> Result (A * RunState).

Definition ret {A} (a : A) : M A := fun st => Ok (a, st).

Definition bind {A B} (c : M A) (k : A -> M B) : M B :=
  fun st => match c st with
            | Ok (a, st') => k a st'
            | Raise e => Raise e
            end.

Definition lift {A} (r : Result A) : M A :=
  fun st => match r with Ok a => Ok (a, st) | Raise e => Raise e end.

Notation "'let*' x ':=' c 'in' k" := (bind c (fun x => k))
  (at level 10, x name, c at level 200, k at level 200).

(** [for x in xs: acc = body(acc, x)] *)
Fixpoint for_each {A B} (body : B -> A -> M B) (xs : list A) (acc : B)
  : M B :=
  match xs with
  | [] => ret acc
  | x :: rest => let* acc' := body acc x in for_each body rest acc'
  end.

(** [for x in xs: out.append(body(x))] *)
Fixpoint collect {A B} (body : A -> M B) (xs : list A) : M (list B) :=
  match xs with
  | [] => ret []
  | x :: rest =>
      let* b := body x in
      let* bs := collect body rest in
      ret (b :: bs)
  end.

Section Generator.
Context {pil : Pillow} {host : Host}.

(** The raw draws of the [random] module, one per call. *)
Variable entropy : nat -> Z.

Definition next_draw : M Z :=
  fun st => Ok (entropy (rng_cursor st),
                mkState (S (rng_cursor st)) (heart_cache st)
                        (raster_calls st)).

(** [random.randint(a, b)]: an integer of [a..b], [ValueError] on an
    empty range. *)
Definition randint (a b : Z) : M Z :=
  if b <? a then lift (Raise ValueError)
  else let* d := next_draw in ret (a + d mod (b - a + 1)).

(** [random.random()]: a 53-bit fraction of [0, 1). *)
Definition fraction (d : Z) : Q := Qmake (d mod 2 ^ 53) (2 ^ 53).

Definition random : M Q :=
  let* d := next_draw in ret (fraction d).

Definition heart_count : nat := 15.

(** The [for _ in range(heart_count)] loop filling [hearts]. *)
Fixpoint gen_hearts (n : nat) (total_frames width : Z) : M (list Heart) :=
  match n with
  | O => ret []
  | S n' =>
      let* start_frame := randint 0 (total_frames / 2) in
      let* x_pos := randint 0 width in
      let* size := randint (int (float width * (3 # 100)))
                           (int (float width * (8 # 100))) in
      let* rest := gen_hearts n' total_frames width in
      ret (mkHeart start_frame x_pos size :: rest)
  end.

(** The rasterizer as the run calls it: each call is counted and
    allocates a new raster object. *)
Definition create_heart_call (size : Z) : M Sprite :=
  fun st =>
    match create_heart size heart_color with
    | Raise e => Raise e
    | Ok img =>
        Ok (mkSprite (raster_calls st) img,
            mkState (rng_cursor st) (heart_cache st)
                    (S (raster_calls st)))
    end.

(** [heart_cache[size] = sp] *)
Definition cache_store (size : Z) (sp : Sprite) : M unit :=
  fun st => Ok (tt, mkState (rng_cursor st)
                            (<[size := sp]> (heart_cache st))
                            (raster_calls st)).

(** [heart_cache[size]] *)
Definition cache_load (size : Z) : M Sprite :=
  fun st => match heart_cache st !! size with
            | Some sp => Ok (sp, st)
            | None => Raise KeyError
            end.

(** [size in heart_cache] *)
Definition cache_has (size : Z) : M bool :=
  fun st => Ok (bool_decide (is_Some (heart_cache st !! size)), st).

(** Lines 168-170: retrieve or create the heart image. *)
Definition get_heart (size : Z) : M Sprite :=
  let* present := cache_has size in
  let* _ := (if present then ret tt
             else let* sp := create_heart_call size in
                  cache_store size sp) in
  cache_load size.

(** [y = -h["size"] + t * (height + h["size"] * 2)] *)
Definition fall_y (height : Z) (h : Heart) (t : Q) : Q :=
  fadd (of_int (- h_size h)) (fmul t (of_int (height + h_size h * 2))).

(** Lines 162-163: the fall progress [t] and the vertical position. *)
Definition heart_y (total_frames height frame_idx : Z) (h : Heart)
  : Result Q :=
  match truediv (frame_idx - h_start h) (total_frames - h_start h) with
  | Raise e => Raise e
  | Ok t => Ok (fall_y height h t)
  end.

(** Where a heart is at a frame: [None] when it is skipped by one of
    the two [continue]s, its [y] otherwise. *)
Definition heart_position (total_frames height frame_idx : Z) (h : Heart)
  : Result (option Q) :=
  let rel := frame_idx - h_start h in
  if rel <? 0 then Ok None
  else match heart_y total_frames height frame_idx h with
       | Raise e => Raise e
       | Ok y =>
           if negb (Qle_bool y (float height)) then Ok None
           else Ok (Some y)
       end.

(** [drift = int((random.random() - 0.5) * size * 0.2)] *)
Definition drift_of (size : Z) (u : Q) : Z :=
  int (fmul (fmul (fsub u (1 # 2)) (of_int size)) (round64 (2 # 10))).

(** [dest_x = int(h["x"] - size / 2 + drift)] *)
Definition dest_x_of (h : Heart) (drift : Z) : Z :=
  int (fadd (fsub (of_int (h_x h)) (fquot (h_size h) 2)) (of_int drift)).

(** Body of [for h in hearts] (lines 158-176). *)
Definition draw_heart (total_frames height frame_idx : Z)
           (frame : Image) (h : Heart) : M Image :=
  let* pos := lift (heart_position total_frames height frame_idx h) in
  match pos with
  | None => ret frame
  | Some y =>
      let size := h_size h in
      let* heart_img := get_heart size in
      let* u := random in
      let drift := drift_of size u in
      let dest_x := dest_x_of h drift in
      let dest_y := int y in
      lift (alpha_composite frame (sprite_img heart_img) (dest_x, dest_y))
  end.

Definition shadow_offset : Z := 2.
Definition shadow_fill : RGBA := mkRGBA 0 0 0 160.
Definition main_fill : RGBA := mkRGBA 255 255 255 255.

(** [msg_x = int((width - text_w) / 2)] *)
Definition msg_x_of (width text_w : Z) : Z :=
  int (float (width - text_w) / 2)%Q.

(** [int(side * c)] for a decimal literal [c], with the float product
    the program computes. *)
Definition scaled_side (side : Z) (c : Q) : Z :=
  int (fmul (of_int side) (round64 c)).

(** [int((width - text_w) / 2)], with the float quotient the program
    computes. *)
Definition centred (width text_w : Z) : Z := int (fquot (width - text_w) 2).

(** Lines 150-155: shadow, then the text itself. *)
Definition draw_caption (frame : Image) (message : pystr) (font : Font)
           (width text_w msg_y : Z) : Image :=
  let msg_x := msg_x_of width text_w in
  let frame := draw_text frame (msg_x + shadow_offset, msg_y + shadow_offset)
                         message font shadow_fill in
  draw_text frame (msg_x, msg_y) message font main_fill.

(** Body of [for frame_idx in range(total_frames)]. *)
Definition render_frame (bg : Image) (message : pystr) (font : Font)
           (hearts : list Heart) (width height total_frames text_w msg_y : Z)
           (frame_idx : Z) : M Image :=
  let frame := Image_copy bg in
  let frame := draw_caption frame message font width text_w msg_y in
  let* frame := for_each (draw_heart total_frames height frame_idx)
                         hearts frame in
  ret (convert_RGB frame).

(** [heart_cache = {}] *)
Definition cache_clear : M unit :=
  fun st => Ok (tt, mkState (rng_cursor st) ∅ (raster_calls st)).

Definition generate_frames (base_image : Image) (message : pystr)
           (width height fps duration : Z) : M (list Image) :=
  let* bg := lift (Image_resize (convert_RGBA base_image) width height) in
  let total_frames := fps * duration in
  let* hearts := gen_hearts heart_count total_frames width in
  let* _ := cache_clear in
  let font_size := int (float height * (6 # 100)) in
  let* font := lift (load_font font_size) in
  let* extent := lift (ImageDraw_textsize message font) in
  let '(text_w, text_h) := extent in
  let msg_y := int (float height * (5 # 100)) in
  collect (render_frame bg message font hearts width height total_frames
                        text_w msg_y)
          (range total_frames).

(** The state after one draw. *)
Definition advance (st : RunState) : RunState :=
  mkState (S (rng_cursor st)) (heart_cache st) (raster_calls st).

(** The ranges the three [randint] calls draw a heart from. *)
Definition heart_ok (total_frames width : Z) (h : Heart) : Prop :=
  0 <= h_start h <= total_frames / 2
  /\ 0 <= h_x h <= width
  /\ int (float width * (3 # 100)) <= h_size h
     <= int (float width * (8 # 100)).

(** A heart the frame loop can meet on a canvas Pillow accepts: its
    size and its column are below 2^31 and it starts before the last
    frame. *)
Definition drawable (total_frames : Z) (h : Heart) : Prop :=
  0 <= h_size h < 2 ^ 31 /\ 0 <= h_x h <= 2 ^ 31
  /\ h_start h < total_frames.

(** Every cached sprite is the heart of the size it is filed under. *)
Definition cache_ok (st : RunState) : Prop :=
  forall (size : Z) (sp : Sprite),
    heart_cache st !! size = Some sp ->
    create_heart size heart_color = Ok (sprite_img sp).

(** Entries of the cache of [st] are still there, unchanged, in [st']. *)
Definition cache_kept (st st' : RunState) : Prop :=
  forall (size : Z) (sp : Sprite),
    heart_cache st !! size = Some sp -> heart_cache st' !! size = Some sp.

(** An output frame: opaque RGB of the requested size. *)
Definition opaque_frame (width height : Z) (fr : Image) : Prop :=
  im_mode fr = ModeRGB /\ im_width fr = width /\ im_height fr = height
  /\ forall x y, alpha (im_pixel fr x y) = 255.

(** Every drift computed from draw number [from] on is zero. *)
Definition no_drift (from : nat) (hearts : list Heart) : Prop :=
  forall (n : nat) (h : Heart),
    (from <= n)%nat -> In h hearts ->
    drift_of (h_size h) (fraction (entropy n)) = 0.

(** The frames alone, whatever state the run ends in. *)
Definition frames_of (r : Result (list Image * RunState))
  : Result (list Image) :=
  match r with Ok (frames, _) => Ok frames | Raise e => Raise e end.

End Generator.

(* ------------------------------------------------------------------ *)
(** ** The renderer without drift

    The frame as a function of the background, the caption layout and the
    hearts alone: no random source and no cache, each sprite rasterized
    where it is needed and composited with drift 0. *)

Section DriftFree.
Context {pil : Pillow}.

Definition still_heart (total_frames height frame_idx : Z)
           (frame : Result Image) (h : Heart) : Result Image :=
  match frame with
  | Raise e => Raise e
  | Ok frame =>
      match heart_position total_frames height frame_idx h with
      | Raise e => Raise e
      | Ok None => Ok frame
      | Ok (Some y) =>
          match create_heart (h_size h) heart_color with
          | Raise e => Raise e
          | Ok img => alpha_composite frame img (dest_x_of h 0, int y)
          end
      end
  end.

Definition still_frame (bg : Image) (message : pystr) (font : Font)
           (hearts : list Heart) (width height total_frames text_w msg_y : Z)
           (frame_idx : Z) : Result Image :=
  match fold_left (still_heart total_frames height frame_idx) hearts
          (Ok (draw_caption (Image_copy bg) message font width text_w msg_y))
  with
  | Raise e => Raise e
  | Ok frame => Ok (convert_RGB frame)
  end.

Fixpoint all_ok {A} (rs : list (Result A)) : Result (list A) :=
  match rs with
  | [] => Ok []
  | Raise e :: _ => Raise e
  | Ok a :: rest =>
      match all_ok rest with
      | Raise e => Raise e
      | Ok l => Ok (a :: l)
      end
  end.

Definition still_frames (bg : Image) (message : pystr) (font : Font)
           (hearts : list Heart) (width height total_frames text_w msg_y : Z)
  : Result (list Image) :=
  all_ok (List.map (still_frame bg message font hearts width height
                                total_frames text_w msg_y)
                   (range total_frames)).

End DriftFree.

(* ------------------------------------------------------------------ *)
(** ** A reference rendering back end

    Ideal closed shapes sampled at the integer pixel coordinates, the
    textbook source-over blend, nearest-neighbour resampling and a font
    of blank 6 by 11 cells.  It is not Pillow's rasterizer: it serves to
    run the model on concrete inputs. *)

Module Reference.

Definition Qbetween (lo v hi : Q) : bool := Qle_bool lo v && Qle_bool v hi.

(** The closed ellipse inscribed in the box [(x0, y0, x1, y1)]. *)
Definition ellipse (bbox : Q * Q * Q * Q) (px py : Z) : bool :=
  let '(x0, y0, x1, y1) := bbox in
  let x := float px in
  let y := float py in
  let a := (x1 - x0)%Q in
  let b := (y1 - y0)%Q in
  let u := (2 * x - (x0 + x1))%Q in
  let v := (2 * y - (y0 + y1))%Q in
  Qbetween x0 x x1 && Qbetween y0 y y1
  && Qle_bool (u * u * (b * b) + v * v * (a * a)) (a * a * (b * b)).

(** Twice the signed area of the triangle [p q r]. *)
Definition cross (p q r : Q * Q) : Q :=
  ((fst q - fst p) * (snd r - snd p) - (snd q - snd p) * (fst r - fst p))%Q.

(** [v] is at least the least of [a], [b], [c]. *)
Definition above_least (a b c v : Q) : bool :=
  Qle_bool a v || Qle_bool b v || Qle_bool c v.

(** [v] is at most the greatest of [a], [b], [c]. *)
Definition below_greatest (a b c v : Q) : bool :=
  Qle_bool v a || Qle_bool v b || Qle_bool v c.

(** The closed triangle with the three given corners; other vertex
    counts are not drawn by the program. *)
Definition polygon (pts : list (Q * Q)) (px py : Z) : bool :=
  match pts with
  | [a; b; c] =>
      let p := (float px, float py) in
      let d1 := cross a b p in
      let d2 := cross b c p in
      let d3 := cross c a p in
      above_least (fst a) (fst b) (fst c) (fst p)
      && below_greatest (fst a) (fst b) (fst c) (fst p)
      && above_least (snd a) (snd b) (snd c) (snd p)
      && below_greatest (snd a) (snd b) (snd c) (snd p)
      && ((Qle_bool 0 d1 && Qle_bool 0 d2 && Qle_bool 0 d3)
          || (Qle_bool d1 0 && Qle_bool d2 0 && Qle_bool d3 0))
  | _ => false
  end.

(** Source-over on 8-bit bands. *)
Definition over (dst src : RGBA) : RGBA :=
  let sa := alpha src in
  let da := alpha dst * (255 - sa) / 255 in
  let oa := sa + da in
  let band (s d : Z) := if oa =? 0 then 0 else (s * sa + d * da) / oa in
  mkRGBA (band (red src) (red dst)) (band (green src) (green dst))
         (band (blue src) (blue dst)) oa.

Definition nearest (im : Image) (w h x y : Z) : RGBA :=
  im_pixel im (x * im_width im / w) (y * im_height im / h).

#[export] Instance pillow : Pillow := {|
  lanczos := nearest;
  blend_over := over;
  ellipse_covers := ellipse;
  polygon_covers := polygon;
  text_pixel := fun _ _ _ _ _ under => under;
  text_extent := fun text _ => (6 * Z.of_nat (List.length text), 11)
|}.

(** A host with no font file installed. *)
Definition bare_host : Host := {|
  isfile := fun _ => false;
  truetype_opens := fun _ _ => false
|}.

(** A host with every candidate font installed and loadable. *)
Definition full_host : Host := {|
  isfile := fun _ => true;
  truetype_opens := fun _ _ => true
|}.

(** A 100 by 100 red background. *)
Definition red_square : Image :=
  Image_new ModeRGB 100 100 (mkRGBA 255 0 0 255).

Definition fresh : RunState := mkState 0 ∅ 0.

End Reference.

(* ------------------------------------------------------------------ *)
(** ** Observations on a run *)

(** Two rasters that cannot be told apart by [getpixel]. *)
Definition same_pixels (a b : Image) : Prop :=
  im_mode a = im_mode b /\ im_width a = im_width b
  /\ im_height a = im_height b
  /\ forall x y, getpixel a x y = getpixel b x y.

(** The rasterizer count follows the cache: [calls] calls had been made
    when the cache was empty, one more for every size in it since, and
    every size in it is one of [sizes]. *)
Definition cache_tracks (calls : nat) (sizes : list Z) (st : RunState)
  : Prop :=
  raster_calls st = (calls + size (heart_cache st))%nat
  /\ forall k, is_Some (heart_cache st !! k) -> In k sizes.

(** A heart that gets past both [continue]s at a frame. *)
Definition is_active (total_frames height frame_idx : Z) (h : Heart) : bool :=
  match heart_position total_frames height frame_idx h with
  | Ok (Some _) => true
  | _ => false
  end.

(** Number of sprites composited over the given frames. *)
Definition composites (total_frames height : Z) (hearts : list Heart)
           (idxs : list Z) : nat :=
  list_sum
    (List.map (fun f => List.length
                          (List.filter (is_active total_frames height f)
                                       hearts))
              idxs).

(* ------------------------------------------------------------------ *)
(** ** The HTTP endpoint

    [export_video] and the [after_request] hook.  A request is the two
    multi-dicts the handler reads; a response is its status, its body
    and the headers the application sets itself.  Decoding the upload,
    naming the temporary directory and running the encoder are the
    interface [Server]; of [subprocess.run] the handler tells three
    outcomes apart. *)

Record Upload : Type := mkUpload { up_filename : string; up_stream : string }.

Record Request : Type := mkRequest {
  req_files : gmap string Upload;   (** [request.files] *)
  req_form : gmap string pystr      (** [request.form] *)
}.

Inductive Body : Type :=
  | JsonError (error : string)
      (** [jsonify({"error": error})] *)
  | Attachment (path mimetype download_name content : string)
      (** [send_file(path, mimetype=.., as_attachment=True, download_name=..)] *).

Record Response : Type := mkResponse {
  rsp_status : Z;
  rsp_body : Body;
  rsp_headers : gmap string string
}.

(** What [subprocess.run(cmd, check=True, ...)] comes to. *)
Inductive RunOutcome : Type :=
  | NotFound                       (** [FileNotFoundError] *)
  | NonZeroExit                    (** [subprocess.CalledProcessError] *)
  | Completed (output : string)    (** the encoder wrote the output file *).

Class Server : Type := {
  (** [Image.open(stream)] *)
  Image_open : string -> Result Image;
  (** the directory of the n-th [tempfile.TemporaryDirectory()] *)
  mkdtemp : nat -> string;
  (** [subprocess.run] on a command, with the files it finds *)
  subprocess_run : list string -> gmap string Image -> RunOutcome
}.

Record ServerState : Type := mkServer {
  srv_run : RunState;                  (** state of [random] *)
  srv_tmpdirs : nat;                   (** temporary directories made *)
  srv_commands : list (list string)    (** commands run, latest first *)
}.

(** [str(n)] of a natural number. *)
Definition str (n : nat) : string := NilEmpty.string_of_uint (Nat.to_uint n).

Fixpoint zeros (n : nat) : string :=
  match n with
  | O => EmptyString
  | S k => String "0" (zeros k)
  end.

(** [f"{n:04d}"]: decimal, padded with zeros to four characters. *)
Definition format_04d (n : nat) : string :=
  (zeros (4 - String.length (str n)) ++ str n)%string.

(** [f"frame_{idx:04d}.png"] *)
Definition frame_name (idx : nat) : string :=
  ("frame_" ++ format_04d idx ++ ".png")%string.

(** The number a field written by [%04d] stands for: leading zeros
    count for nothing. *)
Definition read_04d (digits : string) : option nat :=
  option_map Nat.of_uint (NilEmpty.uint_of_string digits).

Definition ends_with_sep (path : string) : bool :=
  match String.get (String.length path - 1) path with
  | Some c => Ascii.eqb c "/"
  | None => false
  end.

(** [os.path.join(a, b)] on POSIX. *)
Definition os_path_join (a b : string) : string :=
  if String.prefix "/" b then b
  else if (String.eqb a "" || ends_with_sep a)%bool then (a ++ b)%string
  else (a ++ "/" ++ b)%string.

(** The loop saving [frames] from index [idx] on. *)
Fixpoint save_frames (tmpdir : string) (idx : nat) (frames : list Image)
         (disk : gmap string Image) : gmap string Image :=
  match frames with
  | [] => disk
  | frame :: rest =>
      save_frames tmpdir (S idx) rest
        (<[os_path_join tmpdir (frame_name idx) := frame]> disk)
  end.

(** [(jsonify({"error": error}), status)] *)
Definition json_error (error : string) (status : Z) : Response :=
  mkResponse status (JsonError error) ∅.

(** [message[:200]] when [len(message) > 200]. *)
Definition cap_message (message : pystr) : pystr :=
  if (200 <? List.length message)%nat then firstn 200 message
  else message.

Definition ffmpeg_command (tmpdir output_path : string) : list string :=
  [ "ffmpeg"; "-y";
    "-framerate"; str 15;
    "-i"; os_path_join tmpdir "frame_%04d.png";
    "-c:v"; "libx264";
    "-pix_fmt"; "yuv420p";
    output_path ]%string.

(** [response.headers[...] = ...], three times. *)
Definition add_cors_headers (response : Response) : Response :=
  mkResponse (rsp_status response) (rsp_body response)
    (<["Access-Control-Allow-Headers" := "Content-Type"]>
       (<["Access-Control-Allow-Methods" := "GET,POST,OPTIONS"]>
          (<["Access-Control-Allow-Origin" := "*"]>
             (rsp_headers response))))%string.

Section Endpoint.
Context {pil : Pillow} {host : Host} {srv : Server}.
Variable entropy : nat -> Z.

Definition export_video (req : Request) (st : ServerState)
  : Result (Response * ServerState) :=
  match req_files req !! "image"%string with
  | None => Ok (json_error "Missing image file" 400, st)
  | Some file =>
      if String.eqb (up_filename file) "" then
        Ok (json_error "Empty filename" 400, st)
      else
        let message := default [] (req_form req !! "message"%string) in
        let message := cap_message message in
        match Image_open (up_stream file) with
        | Raise _ => Ok (json_error "Invalid image file" 400, st)
        | Ok opened =>
            let base_image := convert_RGBA opened in
            let tmpdir := mkdtemp (srv_tmpdirs st) in
            match generate_frames entropy base_image message 720 720 15 5
                                  (srv_run st) with
            | Raise e => Raise e
            | Ok (frames, run') =>
                let disk := save_frames tmpdir 0 frames ∅ in
                let output_path := os_path_join tmpdir "output.mp4" in
                let cmd := ffmpeg_command tmpdir output_path in
                let st' := mkServer run' (S (srv_tmpdirs st))
                                    (cmd :: srv_commands st) in
                match subprocess_run cmd disk with
                | NotFound =>
                    Ok (json_error "ffmpeg is not installed on the server"
                                   500, st')
                | NonZeroExit =>
                    Ok (json_error "Failed to encode video" 500, st')
                | Completed video =>
                    Ok (mkResponse 200
                          (Attachment output_path "video/mp4"
                                      "kitten_video.mp4" video) ∅, st')
                end
            end
        end
  end.

End Endpoint.

(** A server for running the endpoint on concrete requests: every
    non-empty upload decodes to the red square and the encoder
    succeeds. *)
Definition reference_server : Server := {|
  Image_open := fun stream =>
    if String.eqb stream "" then Raise OSError else Ok Reference.red_square;
  mkdtemp := fun n => ("/tmp/tmp" ++ str n)%string;
  subprocess_run := fun _ _ => Completed "mp4"
|}.

Definition kitten_request : Request :=
  mkRequest {[ "image"%string := mkUpload "cat.png" "PNG" ]}
            {[ "message"%string := py "Hi" ]}.

Definition idle_server : ServerState := mkServer Reference.fresh 0 [].

(* ================================================================== *)
(** * Properties *)

(** ** Binary64 rounding *)

Local Open Scope Q_scope.

Lemma pow2_pos e : 0 < pow2 e.
Proof. apply Qpower_0_lt. reflexivity. Qed.

Lemma pow2_add a b : pow2 (a + b) == pow2 a * pow2 b.
Proof. apply Qpower_plus. discriminate. Qed.

Lemma pow2_inject e : (0 <= e)%Z -> pow2 e == inject_Z (2 ^ e).
Proof. intros H. unfold pow2. rewrite Zpower_Qpower by exact H. reflexivity. Qed.

Lemma pow2_le a b : (a <= b)%Z -> pow2 a <= pow2 b.
Proof. intros H. apply Qpower_le_compat_l; [exact H | discriminate]. Qed.

Lemma pow2_lt a b : (a < b)%Z -> pow2 a < pow2 b.
Proof. intros H. apply Qpower_lt_compat_l; [exact H | reflexivity]. Qed.

Lemma pow2_lt_inv a b : pow2 a < pow2 b -> (a < b)%Z.
Proof. intros H. apply (Qpower_lt_compat_l_inv 2); [exact H | reflexivity]. Qed.

Lemma pow2_cancel e : pow2 e * pow2 (- e) == 1.
Proof. rewrite <- pow2_add. replace (e + - e)%Z with 0%Z by lia. reflexivity. Qed.

Lemma ilog2_spec q : 0 < q -> pow2 (ilog2 q) <= q /\ q < pow2 (ilog2 q + 1).
Proof.
  intros Hq. destruct q as [a d]. unfold ilog2. cbn [Qnum Qden].
  assert (Ha : (0 < a)%Z) by (unfold Qlt in Hq; simpl in Hq; lia).
  set (la := Z.log2 a). set (ld := Z.log2 (Z.pos d)).
  destruct (Z.log2_spec a Ha) as [A1 A2]. fold la in A1, A2.
  destruct (Z.log2_spec (Z.pos d) eq_refl) as [D1 D2]. fold ld in D1, D2.
  assert (La : (0 <= la)%Z) by apply Z.log2_nonneg.
  assert (Ld : (0 <= ld)%Z) by apply Z.log2_nonneg.
  assert (QA1 : pow2 la <= inject_Z a).
  { rewrite pow2_inject by exact La. rewrite <- Zle_Qle. exact A1. }
  assert (QA2 : inject_Z a < pow2 (la + 1)).
  { rewrite pow2_inject by lia. rewrite <- Zlt_Qlt. replace (la + 1)%Z with (Z.succ la) by lia. exact A2. }
  assert (QD1 : pow2 ld <= inject_Z (Z.pos d)).
  { rewrite pow2_inject by exact Ld. rewrite <- Zle_Qle. exact D1. }
  assert (QD2 : inject_Z (Z.pos d) < pow2 (ld + 1)).
  { rewrite pow2_inject by lia. rewrite <- Zlt_Qlt. replace (ld + 1)%Z with (Z.succ ld) by lia. exact D2. }
  assert (E : a # d == inject_Z a / inject_Z (Z.pos d)) by apply Qmake_Qdiv.
  assert (Dpos : 0 < inject_Z (Z.pos d)) by reflexivity.
  assert (upper : a # d < pow2 (la - ld + 1)).
  { rewrite E. apply Qlt_shift_div_r; [exact Dpos|].
    apply Qlt_le_trans with (pow2 (la + 1)); [exact QA2|].
    replace (la + 1)%Z with ((la - ld + 1) + ld)%Z by lia. rewrite pow2_add.
    apply Qmult_le_l; [apply pow2_pos | exact QD1]. }
  assert (lower : pow2 (la - ld - 1) <= a # d).
  { rewrite E. apply Qle_shift_div_l; [exact Dpos|].
    apply Qle_trans with (pow2 la); [|exact QA1].
    replace la with ((la - ld - 1) + (ld + 1))%Z at 2 by lia. rewrite pow2_add.
    apply Qmult_le_l; [apply pow2_pos | apply Qlt_le_weak; exact QD2]. }
  destruct (Qle_bool (pow2 (la - ld)) (a # d)) eqn:C.
  - apply Qle_bool_iff in C. split; [exact C | exact upper].
  - split; [exact lower|].
    replace (la - ld - 1 + 1)%Z with (la - ld)%Z by lia.
    apply Qnot_le_lt. intros K. apply Qle_bool_iff in K. congruence.
Qed.

Lemma ilog2_unique q L : pow2 L <= q -> q < pow2 (L + 1) -> ilog2 q = L.
Proof.
  intros H1 H2.
  assert (Hq : 0 < q) by (apply Qlt_le_trans with (pow2 L); [apply pow2_pos | exact H1]).
  destruct (ilog2_spec q Hq) as [S1 S2].
  assert (K1 : (ilog2 q < L + 1)%Z).
  { apply pow2_lt_inv. apply Qle_lt_trans with q; assumption. }
  assert (K2 : (L < ilog2 q + 1)%Z).
  { apply pow2_lt_inv. apply Qle_lt_trans with q; assumption. }
  lia.
Qed.

Lemma ilog2_proper q q' : q == q' -> 0 < q -> ilog2 q = ilog2 q'.
Proof.
  intros E Hq. destruct (ilog2_spec q Hq) as [S1 S2].
  symmetry. apply ilog2_unique; rewrite <- E; assumption.
Qed.

Lemma ilog2_mono q q' : 0 < q -> q <= q' -> (ilog2 q <= ilog2 q')%Z.
Proof.
  intros Hq Hle.
  assert (Hq' : 0 < q') by (apply Qlt_le_trans with q; assumption).
  destruct (ilog2_spec q Hq) as [S1 S2]. destruct (ilog2_spec q' Hq') as [T1 T2].
  assert (K : (ilog2 q < ilog2 q' + 1)%Z).
  { apply pow2_lt_inv. apply Qle_lt_trans with q; [exact S1|].
    apply Qle_lt_trans with q'; assumption. }
  lia.
Qed.

Lemma rne_proper q q' : q == q' -> rne q = rne q'.
Proof.
  intros E. unfold rne. rewrite (Qfloor_comp _ _ E).
  assert (C : (q - inject_Z (Qfloor q') ?= 1 # 2) = (q' - inject_Z (Qfloor q') ?= 1 # 2)).
  { apply Qcompare_comp; [rewrite E; reflexivity | reflexivity]. }
  rewrite C. reflexivity.
Qed.

Lemma rne_spec q : inject_Z (rne q) - (1 # 2) <= q /\ q <= inject_Z (rne q) + (1 # 2).
Proof.
  unfold rne. pose proof (Qfloor_le q) as F1. pose proof (Qlt_floor q) as F2.
  set (f := Qfloor q) in *. rewrite inject_Z_plus in F2. change (inject_Z 1) with 1 in F2.
  assert (G : forall z, inject_Z (z + 1) == inject_Z z + 1) by (intros; rewrite inject_Z_plus; reflexivity).
  destruct (q - inject_Z f ?= 1 # 2) eqn:C.
  - apply Qeq_alt in C. destruct (Z.even f); [|rewrite G]; split; lra.
  - apply Qlt_alt in C. split; lra.
  - apply Qgt_alt in C. rewrite G. split; lra.
Qed.

Lemma rne_inject z : rne (inject_Z z) = z.
Proof.
  unfold rne. rewrite Qfloor_Z.
  assert (C : (inject_Z z - inject_Z z ?= 1 # 2) = Lt).
  { apply (proj1 (Qlt_alt _ _)). lra. }
  rewrite C. reflexivity.
Qed.

Lemma rne_mono q q' : q <= q' -> (rne q <= rne q')%Z.
Proof.
  intros H. destruct (Qle_lt_or_eq _ _ H) as [Hlt | Heq].
  - destruct (rne_spec q) as [A1 A2]. destruct (rne_spec q') as [B1 B2].
    destruct (Z_le_gt_dec (rne q) (rne q')) as [K|K]; [exact K|exfalso].
    assert (K' : (rne q' + 1 <= rne q)%Z) by lia.
    rewrite Zle_Qle in K'. rewrite inject_Z_plus in K'. change (inject_Z 1) with 1 in K'. lra.
  - rewrite (rne_proper _ _ Heq). lia.
Qed.

Lemma round_pos_proper q q' : q == q' -> 0 < q -> round_pos q == round_pos q'.
Proof.
  intros E Hq. unfold round_pos. rewrite <- (ilog2_proper q q' E Hq).
  assert (R : rne (q * pow2 (- (ilog2 q - 52))) = rne (q' * pow2 (- (ilog2 q - 52)))).
  { apply rne_proper. apply Qmult_comp; [exact E | reflexivity]. }
  rewrite R. reflexivity.
Qed.

(** The scaled significand of a positive value lies in [2^52, 2^53). *)
Lemma scaled_range q : 0 < q ->
  inject_Z (2 ^ 52) <= q * pow2 (- (ilog2 q - 52)) /\
  q * pow2 (- (ilog2 q - 52)) < inject_Z (2 ^ 53).
Proof.
  intros Hq. destruct (ilog2_spec q Hq) as [S1 S2].
  set (L := ilog2 q) in *.
  assert (P : 0 < pow2 (- (L - 52))) by apply pow2_pos.
  assert (E1 : inject_Z (2 ^ 52) == pow2 L * pow2 (- (L - 52))).
  { rewrite <- pow2_add. replace (L + - (L - 52))%Z with 52%Z by lia. reflexivity. }
  assert (E2 : inject_Z (2 ^ 53) == pow2 (L + 1) * pow2 (- (L - 52))).
  { rewrite <- pow2_add. replace (L + 1 + - (L - 52))%Z with 53%Z by lia. reflexivity. }
  split.
  - rewrite E1. apply Qmult_le_compat_r; [exact S1 | apply Qlt_le_weak; exact P].
  - rewrite E2. apply Qmult_lt_compat_r; [exact P | exact S2].
Qed.

Lemma round_pos_range q : 0 < q ->
  pow2 (ilog2 q) <= round_pos q /\ round_pos q <= pow2 (ilog2 q + 1).
Proof.
  intros Hq. destruct (scaled_range q Hq) as [S1 S2]. unfold round_pos.
  set (L := ilog2 q) in *. set (x := q * pow2 (- (L - 52))) in *.
  assert (M1 : (2 ^ 52 <= rne x)%Z).
  { rewrite <- (rne_inject (2 ^ 52)). apply rne_mono. exact S1. }
  assert (M2 : (rne x <= 2 ^ 53)%Z).
  { rewrite <- (rne_inject (2 ^ 53)). apply rne_mono. apply Qlt_le_weak. exact S2. }
  assert (E1 : pow2 L == inject_Z (2 ^ 52) * pow2 (L - 52)).
  { change (inject_Z (2 ^ 52)) with (pow2 52). rewrite <- pow2_add.
    replace (52 + (L - 52))%Z with L by lia. reflexivity. }
  assert (E2 : pow2 (L + 1) == inject_Z (2 ^ 53) * pow2 (L - 52)).
  { change (inject_Z (2 ^ 53)) with (pow2 53). rewrite <- pow2_add.
    replace (53 + (L - 52))%Z with (L + 1)%Z by lia. reflexivity. }
  assert (P : 0 <= pow2 (L - 52)) by (apply Qlt_le_weak, pow2_pos).
  split.
  - rewrite E1. apply Qmult_le_compat_r; [rewrite <- Zle_Qle; exact M1 | exact P].
  - rewrite E2. apply Qmult_le_compat_r; [rewrite <- Zle_Qle; exact M2 | exact P].
Qed.

Lemma round_pos_pos q : 0 < q -> 0 < round_pos q.
Proof.
  intros Hq. apply Qlt_le_trans with (pow2 (ilog2 q)); [apply pow2_pos|].
  apply round_pos_range. exact Hq.
Qed.

Lemma round_pos_mono q q' : 0 < q -> q <= q' -> round_pos q <= round_pos q'.
Proof.
  intros Hq Hle.
  assert (Hq' : 0 < q') by (apply Qlt_le_trans with q; assumption).
  pose proof (ilog2_mono q q' Hq Hle) as LL.
  destruct (Z.eq_dec (ilog2 q) (ilog2 q')) as [Heq | Hne].
  - unfold round_pos. rewrite <- Heq.
    apply Qmult_le_compat_r; [|apply Qlt_le_weak, pow2_pos].
    rewrite <- Zle_Qle. apply rne_mono.
    apply Qmult_le_compat_r; [exact Hle | apply Qlt_le_weak, pow2_pos].
  - apply Qle_trans with (pow2 (ilog2 q + 1)); [apply round_pos_range; exact Hq|].
    apply Qle_trans with (pow2 (ilog2 q')); [apply pow2_le; lia|].
    apply round_pos_range. exact Hq'.
Qed.

Lemma round64_pos q : 0 < q -> round64 q = round_pos q.
Proof. intros H. unfold round64. rewrite (proj1 (Qgt_alt _ _) H). reflexivity. Qed.

Lemma round64_neg q : q < 0 -> round64 q = - round_pos (- q).
Proof. intros H. unfold round64. rewrite (proj1 (Qlt_alt _ _) H). reflexivity. Qed.

Lemma round64_zero q : q == 0 -> round64 q = 0.
Proof. intros H. unfold round64. rewrite (proj1 (Qeq_alt _ _) H). reflexivity. Qed.

Lemma round64_proper q q' : q == q' -> round64 q == round64 q'.
Proof.
  intros E. destruct (Q_dec q 0) as [[Hlt | Hgt] | Heq].
  - rewrite (round64_neg q Hlt). rewrite (round64_neg q') by (rewrite <- E; exact Hlt).
    apply Qopp_comp. apply round_pos_proper; [rewrite E; reflexivity | lra].
  - rewrite (round64_pos q Hgt). rewrite (round64_pos q') by (rewrite <- E; exact Hgt).
    apply round_pos_proper; assumption.
  - rewrite (round64_zero q Heq). rewrite (round64_zero q') by (rewrite <- E; exact Heq).
    reflexivity.
Qed.

#[export] Instance round64_comp : Proper (Qeq ==> Qeq) round64.
Proof. intros q q' E. apply round64_proper. exact E. Qed.

Lemma round64_opp q : round64 (- q) == - round64 q.
Proof.
  destruct (Q_dec q 0) as [[Hlt | Hgt] | Heq].
  - rewrite (round64_neg q Hlt). rewrite (round64_pos (- q)) by lra. lra.
  - rewrite (round64_pos q Hgt). rewrite (round64_neg (- q)) by lra.
    apply Qopp_comp. apply round_pos_proper; [ring | lra].
  - rewrite (round64_zero q Heq). rewrite (round64_zero (- q)) by lra. reflexivity.
Qed.

Lemma round64_sign_pos q : 0 < q -> 0 < round64 q.
Proof. intros H. rewrite (round64_pos q H). apply round_pos_pos. exact H. Qed.

Lemma round64_sign_neg q : q < 0 -> round64 q < 0.
Proof.
  intros H. rewrite (round64_neg q H).
  assert (K : 0 < round_pos (- q)) by (apply round_pos_pos; lra). lra.
Qed.

Lemma round64_mono q q' : q <= q' -> round64 q <= round64 q'.
Proof.
  intros H. destruct (Q_dec q 0) as [[Hlt | Hgt] | Heq].
  - destruct (Q_dec q' 0) as [[Hlt' | Hgt'] | Heq'].
    + rewrite (round64_neg q Hlt), (round64_neg q' Hlt').
      assert (K : round_pos (- q') <= round_pos (- q)) by (apply round_pos_mono; lra). lra.
    + pose proof (round64_sign_neg q Hlt). pose proof (round64_sign_pos q' Hgt'). lra.
    + pose proof (round64_sign_neg q Hlt). rewrite (round64_zero q' Heq'). lra.
  - rewrite (round64_pos q Hgt). rewrite (round64_pos q') by lra.
    apply round_pos_mono; assumption.
  - rewrite (round64_zero q Heq). destruct (Q_dec q' 0) as [[Hlt' | Hgt'] | Heq'].
    + lra.
    + pose proof (round64_sign_pos q' Hgt'). lra.
    + rewrite (round64_zero q' Heq'). lra.
Qed.

(** Values with a significand below 2^53 are represented exactly. *)
Lemma round_pos_exact m k : (0 < m < 2 ^ 53)%Z ->
  round_pos (inject_Z m * pow2 k) == inject_Z m * pow2 k.
Proof.
  intros Hm. set (q := inject_Z m * pow2 k).
  assert (Hq : 0 < q).
  { unfold q. apply Qmult_lt_0_compat; [rewrite Zlt_Qlt in Hm; apply Hm | apply pow2_pos]. 
    }
  destruct (scaled_range q Hq) as [S1 S2]. unfold round_pos.
  set (e := (ilog2 q - 52)%Z) in *.
  assert (X : q * pow2 (- e) == inject_Z m * pow2 (k - e)).
  { unfold q. rewrite <- Qmult_assoc, <- pow2_add. reflexivity. }
  assert (Kge : (0 <= k - e)%Z).
  { destruct (Z_le_gt_dec 0 (k - e)) as [G|G]; [exact G|exfalso].
    assert (P : pow2 (k - e) <= pow2 (-1)) by (apply pow2_le; lia).
    change (pow2 (-1)) with (1 # 2) in P.
    rewrite X in S1.
    assert (M : inject_Z m < inject_Z (2 ^ 53)) by (rewrite <- Zlt_Qlt; lia).
    assert (M0 : 0 < inject_Z m) by (rewrite Zlt_Qlt in Hm; apply Hm).
    assert (B : inject_Z m * pow2 (k - e) <= inject_Z m * (1 # 2)).
    { apply Qmult_le_l; assumption. }
    change (inject_Z (2 ^ 53)) with (2 * inject_Z (2 ^ 52)) in M. lra. }
  assert (Y : q * pow2 (- e) == inject_Z (m * 2 ^ (k - e))).
  { rewrite X, inject_Z_mult, pow2_inject by exact Kge. reflexivity. }
  rewrite (rne_proper _ _ Y), rne_inject, inject_Z_mult, <- pow2_inject by exact Kge.
  rewrite <- Qmult_assoc, <- pow2_add. replace (k - e + e)%Z with k by lia. reflexivity.
Qed.

Lemma round64_exact m k : (Z.abs m < 2 ^ 53)%Z ->
  round64 (inject_Z m * pow2 k) == inject_Z m * pow2 k.
Proof.
  intros Hm. destruct (Z.lt_trichotomy m 0) as [Hneg | [Hz | Hpos]].
  - assert (E : inject_Z m * pow2 k == - (inject_Z (- m) * pow2 k)).
    { rewrite inject_Z_opp. ring. }
    rewrite E, round64_opp.
    assert (P : 0 < inject_Z (- m) * pow2 k).
    { apply Qmult_lt_0_compat; [change 0 with (inject_Z 0); rewrite <- Zlt_Qlt; lia | apply pow2_pos]. }
    rewrite (round64_pos _ P). rewrite round_pos_exact by lia. reflexivity.
  - subst m. rewrite round64_zero by ring. ring.
  - assert (P : 0 < inject_Z m * pow2 k).
    { apply Qmult_lt_0_compat; [change 0 with (inject_Z 0); rewrite <- Zlt_Qlt; lia | apply pow2_pos]. }
    rewrite (round64_pos _ P). apply round_pos_exact. lia.
Qed.

Lemma round64_int z : (Z.abs z < 2 ^ 53)%Z -> round64 (inject_Z z) == inject_Z z.
Proof.
  intros H. pose proof (round64_exact z 0 H) as E.
  change (pow2 0) with 1 in E. rewrite Qmult_1_r in E. exact E.
Qed.

(** Relative error of rounding: at most 2^-53. *)
Lemma round_pos_error q : 0 < q ->
  Qabs (round_pos q - q) <= q * pow2 (-53).
Proof.
  intros Hq. destruct (scaled_range q Hq) as [S1 S2]. unfold round_pos.
  set (e := (ilog2 q - 52)%Z) in *. set (x := q * pow2 (- e)) in *.
  destruct (rne_spec x) as [R1 R2].
  assert (Pe : 0 < pow2 e) by apply pow2_pos.
  assert (Q1 : q == x * pow2 e).
  { unfold x. rewrite <- Qmult_assoc. rewrite (Qmult_comm (pow2 (- e))), pow2_cancel. ring. }
  assert (D : inject_Z (rne x) * pow2 e - q == (inject_Z (rne x) - x) * pow2 e).
  { rewrite Q1 at 1. ring. }
  rewrite D, Qabs_Qmult, (Qabs_pos (pow2 e)) by lra.
  assert (A : Qabs (inject_Z (rne x) - x) <= 1 # 2).
  { apply Qabs_case; intros; lra. }
  assert (B : (1 # 2) <= x * pow2 (-53)).
  { change (pow2 (-53)) with (1 # 9007199254740992).
    change (inject_Z (2 ^ 52)) with (4503599627370496 # 1) in S1. lra. }
  apply Qle_trans with ((1 # 2) * pow2 e).
  - apply Qmult_le_compat_r; lra.
  - rewrite Q1 at 1. 
    setoid_replace (x * pow2 e * pow2 (-53)) with (x * pow2 (-53) * pow2 e)
      using relation Qeq by ring.
    apply Qmult_le_compat_r; lra.
Qed.

Lemma round64_error q : Qabs (round64 q - q) <= Qabs q * pow2 (-53).
Proof.
  destruct (Q_dec q 0) as [[Hlt | Hgt] | Heq].
  - rewrite (round64_neg q Hlt).
    assert (P : 0 < - q) by lra. pose proof (round_pos_error (- q) P) as E.
    rewrite (Qabs_neg q) by lra.
    setoid_replace (- round_pos (- q) - q) with (- (round_pos (- q) - - q))
      using relation Qeq by ring.
    rewrite Qabs_opp. exact E.
  - rewrite (round64_pos q Hgt), (Qabs_pos q) by lra. apply round_pos_error. exact Hgt.
  - rewrite (round64_zero q Heq). rewrite Heq. 
    change (Qabs (0 - 0)) with 0. change (Qabs 0) with 0. lra.
Qed.

Local Close Scope Q_scope.

(** ** Truncation *)

Lemma int_float (n : Z) : int (float n) = n.
Proof. unfold int, float; simpl. apply Z.quot_1_r. Qed.

Lemma int_Qeq (q : Q) (n : Z) : (q == float n)%Q -> int q = n.
Proof.
  unfold Qeq, int, float; simpl. intros E.
  rewrite Z.mul_1_r in E. rewrite E. apply Z.quot_mul. lia.
Qed.

(** [int] lands strictly within one unit of its argument. *)
Lemma int_within_one (q : Q) :
  (float (int q) - 1 < q)%Q /\ (q < float (int q) + 1)%Q.
Proof.
  destruct q as [n d]. unfold int, float, Qlt, Qminus, Qplus, Qopp, inject_Z.
  simpl.
  pose proof (Z.quot_rem' n (Zpos d)) as E.
  assert (B : Z.abs (Z.rem n (Zpos d)) < Zpos d).
  { pose proof (Z.rem_bound_abs n (Zpos d)). lia. }
  split; nia.
Qed.

(** On a non-negative argument [int] is the floor. *)
Lemma int_floor (q : Q) :
  (0 <= q)%Q -> 0 <= int q /\ (float (int q) <= q)%Q.
Proof.
  destruct q as [n d]. unfold int, float, Qle, inject_Z. simpl.
  intros Hn. rewrite Z.mul_1_r in Hn.
  pose proof (Z.quot_rem' n (Zpos d)) as E.
  assert (B : 0 <= Z.rem n (Zpos d)) by (apply Z.rem_nonneg; lia).
  assert (P : 0 <= Z.quot n (Zpos d)) by (apply Z.quot_pos; lia).
  split; nia.
Qed.

Lemma int_scale (w a : Z) (b : positive) :
  int (float w * (a # b)) = Z.quot (w * a) (Zpos b).
Proof. reflexivity. Qed.

Lemma int_scale_mono (w a a' : Z) (b : positive) :
  0 <= w -> 0 <= a <= a' ->
  int (float w * (a # b)) <= int (float w * (a' # b)).
Proof.
  intros Hw Ha. rewrite !int_scale.
  rewrite !Z.quot_div_nonneg by nia.
  apply Z.div_le_mono; nia.
Qed.

(** ** Float operations on integers *)

Lemma round64_nonneg (q : Q) : (0 <= q)%Q -> (0 <= round64 q)%Q.
Proof.
  intros H. pose proof (round64_mono 0 q H) as M.
  rewrite (round64_zero 0) in M by reflexivity. exact M.
Qed.

(** Integers below 2^53 in magnitude convert without rounding. *)
Lemma of_int_exact (z : Z) : Z.abs z < 2 ^ 53 -> (of_int z == float z)%Q.
Proof. intros H. unfold of_int, float. apply round64_int. exact H. Qed.

Lemma of_int_mono (a b : Z) : a <= b -> (of_int a <= of_int b)%Q.
Proof.
  intros H. unfold of_int. apply round64_mono. rewrite <- Zle_Qle. exact H.
Qed.

Lemma of_int_nonneg (z : Z) : 0 <= z -> (0 <= of_int z)%Q.
Proof.
  intros H. unfold of_int. apply round64_nonneg.
  change 0%Q with (inject_Z 0). rewrite <- Zle_Qle. exact H.
Qed.

(** Halves of integers below 2^53 in magnitude are floats. *)
Lemma round64_half (z : Z) :
  Z.abs z < 2 ^ 53 -> (round64 (float z / 2) == float z / 2)%Q.
Proof.
  intros H. pose proof (round64_exact z (-1) H) as E.
  change (pow2 (-1)) with (1 # 2)%Q in E.
  assert (X : (float z / 2 == inject_Z z * (1 # 2))%Q).
  { unfold float, Qdiv. change (/ 2)%Q with (1 # 2)%Q. reflexivity. }
  rewrite X. exact E.
Qed.

Lemma fquot_half (z : Z) : Z.abs z < 2 ^ 53 -> (fquot z 2 == float z / 2)%Q.
Proof. intros H. unfold fquot. apply (round64_half z H). Qed.

Lemma fquot_zero (b : Z) : (fquot 0 b == 0)%Q.
Proof.
  unfold fquot. rewrite (round64_zero (inject_Z 0 / inject_Z b)).
  - reflexivity.
  - unfold Qdiv. change (inject_Z 0) with 0%Q. ring.
Qed.

Lemma fquot_same (b : Z) : b <> 0 -> (fquot b b == 1)%Q.
Proof.
  intros H. unfold fquot.
  assert (E : (inject_Z b / inject_Z b == inject_Z 1)%Q).
  { change (inject_Z 1) with 1%Q. field. intros K. apply H.
    unfold Qeq in K. simpl in K. lia. }
  rewrite E. apply round64_int. reflexivity.
Qed.

Lemma quotient_mono (a a' b : Z) :
  0 < b -> a <= a' -> (inject_Z a / inject_Z b <= inject_Z a' / inject_Z b)%Q.
Proof.
  intros Hb Ha. destruct b as [|p|p]; try lia.
  unfold Qle, Qdiv, Qinv, Qmult, inject_Z. simpl. nia.
Qed.

Lemma fquot_mono (a a' b : Z) :
  0 < b -> a <= a' -> (fquot a b <= fquot a' b)%Q.
Proof.
  intros Hb Ha. unfold fquot. apply round64_mono.
  apply quotient_mono; assumption.
Qed.

Lemma fquot_nonneg (a b : Z) : 0 < b -> 0 <= a -> (0 <= fquot a b)%Q.
Proof.
  intros Hb Ha. pose proof (fquot_mono 0 a b Hb Ha) as M.
  rewrite fquot_zero in M. exact M.
Qed.

(** ** The run monad *)

Lemma bind_ok {A B} (c : M A) (k : A -> M B) st b st' :
  bind c k st = Ok (b, st') ->
  exists a st1, c st = Ok (a, st1) /\ k a st1 = Ok (b, st').
Proof.
  unfold bind. destruct (c st) as [[a st1]|e]; [|discriminate].
  intros H. exists a, st1. split; [reflexivity|exact H].
Qed.


Lemma bind_step {A B} (c : M A) (k : A -> M B) st a st1 :
  c st = Ok (a, st1) -> bind c k st = k a st1.
Proof. unfold bind. intros ->. reflexivity. Qed.

(** [collect] pairs every input, in order, with the value its body
    returned. *)
Lemma collect_ok {A B} (body : A -> M B) (xs : list A) :
  forall st bs st',
    collect body xs st = Ok (bs, st') ->
    Forall2 (fun x b => exists s s', body x s = Ok (b, s')) xs bs.
Proof.
  induction xs as [|x xs IH]; simpl; intros st bs st' H.
  - inversion H; subst. constructor.
  - apply bind_ok in H as (b & s1 & Hb & H).
    apply bind_ok in H as (bs' & s2 & Hbs & H).
    inversion H; subst. constructor; eauto.
Qed.

Lemma range_length (n : Z) : 0 <= n -> Z.of_nat (List.length (range n)) = n.
Proof.
  intros Hn. unfold range. rewrite List.length_map, List.length_seq. lia.
Qed.

Lemma range_bounds (n i : Z) : In i (range n) -> 0 <= i < n.
Proof.
  unfold range. rewrite in_map_iff. intros (k & <- & Hk).
  apply in_seq in Hk. lia.
Qed.

Lemma range_nonpos (n : Z) : n <= 0 -> range n = [].
Proof.
  intros Hn. unfold range. replace (Z.to_nat n) with O by lia. reflexivity.
Qed.

(** ** Particle generation *)

Section GeneratorFacts.
Context {pil : Pillow} {host : Host}.
Variable entropy : nat -> Z.

Lemma randint_ok (a b : Z) (st : RunState) :
  a <= b ->
  exists v, randint entropy a b st = Ok (v, advance st) /\ a <= v <= b.
Proof.
  intros Hab. unfold randint.
  destruct (b <? a) eqn:E; [apply Z.ltb_lt in E; lia|].
  eexists. split; [reflexivity|].
  pose proof (Z.mod_pos_bound (entropy (rng_cursor st)) (b - a + 1)).
  lia.
Qed.

Lemma randint_inv (a b : Z) (st : RunState) v st' :
  randint entropy a b st = Ok (v, st') ->
  a <= v <= b /\ st' = advance st.
Proof.
  unfold randint. destruct (b <? a) eqn:E; [discriminate|].
  apply Z.ltb_ge in E. intros H.
  destruct (randint_ok a b st E) as (v' & Hv & Hr).
  unfold randint in Hv. rewrite (proj2 (Z.ltb_ge b a) E) in Hv.
  rewrite Hv in H. inversion H; subst. auto.
Qed.


Lemma gen_hearts_inv (n : nat) (total_frames width : Z) :
  forall st hs st',
    gen_hearts entropy n total_frames width st = Ok (hs, st') ->
    List.length hs = n
    /\ Forall (heart_ok total_frames width) hs
    /\ heart_cache st' = heart_cache st
    /\ raster_calls st' = raster_calls st
    /\ rng_cursor st' = (rng_cursor st + 3 * n)%nat.
Proof.
  induction n as [|n IH]; simpl; intros st hs st' H.
  - inversion H; subst. repeat split; auto with arith.
  - apply bind_ok in H as (s & st1 & H1 & H).
    apply bind_ok in H as (x & st2 & H2 & H).
    apply bind_ok in H as (z & st3 & H3 & H).
    apply bind_ok in H as (rest & st4 & H4 & H).
    inversion H; subst; clear H.
    apply randint_inv in H1 as [B1 ->].
    apply randint_inv in H2 as [B2 ->].
    apply randint_inv in H3 as [B3 ->].
    apply IH in H4 as (L & F & C & R & K).
    simpl in *. repeat split; auto.
    + constructor; [|exact F]. unfold heart_ok; simpl. lia.
    + rewrite K. simpl. lia.
Qed.

Lemma gen_hearts_succeeds (n : nat) (total_frames width : Z) :
  0 <= total_frames -> 0 <= width ->
  forall st, exists hs st',
    gen_hearts entropy n total_frames width st = Ok (hs, st').
Proof.
  intros Ht Hw. induction n as [|n IH]; simpl; intros st.
  - eexists _, _. reflexivity.
  - destruct (randint_ok 0 (total_frames / 2) st) as (s & E1 & _).
    { apply Z.div_pos; lia. }
    destruct (randint_ok 0 width (advance st)) as (x & E2 & _); [lia|].
    destruct (randint_ok (int (float width * (3 # 100)))
                         (int (float width * (8 # 100)))
                         (advance (advance st))) as (z & E3 & _).
    { apply int_scale_mono; lia. }
    destruct (IH (advance (advance (advance st)))) as (hs & st' & E4).
    exists (mkHeart s x z :: hs), st'.
    rewrite (bind_step _ _ _ _ _ E1), (bind_step _ _ _ _ _ E2),
            (bind_step _ _ _ _ _ E3), (bind_step _ _ _ _ _ E4).
    reflexivity.
Qed.


(** A generated heart starts in [0 .. total_frames // 2] only if that
    range is not empty. *)
Lemma heart_ok_total (total_frames width : Z) (h : Heart) :
  heart_ok total_frames width h -> 0 <= total_frames /\ 0 <= width.
Proof.
  intros ((A & B) & C & _).
  split; [|lia].
  destruct (Z_lt_le_dec total_frames 0) as [N|]; [|assumption].
  assert (total_frames / 2 < 0) by (apply Z.div_lt_upper_bound; lia). lia.
Qed.

End GeneratorFacts.

(** ** Sprites and the cache *)

Section SpriteFacts.
Context {pil : Pillow}.

Lemma create_heart_ok (size : Z) (color : RGBA) :
  0 <= size ->
  exists img,
    create_heart size color = Ok img
    /\ im_mode img = ModeRGBA /\ im_width img = size /\ im_height img = size.
Proof.
  intros Hs. unfold create_heart, Image_new_checked.
  replace (size <? 0) with false by (symmetry; apply Z.ltb_ge; lia).
  simpl. eexists. split; [reflexivity|]. simpl. auto.
Qed.

Lemma create_heart_raise (size : Z) (color : RGBA) e :
  create_heart size color = Raise e -> e = ValueError /\ size < 0.
Proof.
  unfold create_heart, Image_new_checked.
  destruct (size <? 0) eqn:E; simpl; [|discriminate].
  intros H. inversion H. apply Z.ltb_lt in E. auto.
Qed.

Lemma alpha_composite_rgba (self im : Image) (dest : Z * Z) :
  im_mode self = ModeRGBA -> im_mode im = ModeRGBA ->
  exists out,
    alpha_composite self im dest = Ok out
    /\ im_mode out = ModeRGBA
    /\ im_width out = im_width self /\ im_height out = im_height self
    /\ forall x y,
         im_pixel out x y =
         if in_bounds self x y
            && in_bounds im (x - fst dest) (y - snd dest)
         then blend_over (im_pixel self x y)
                (im_pixel im (x - fst dest) (y - snd dest))
         else im_pixel self x y.
Proof.
  intros Hs Hi. unfold alpha_composite. rewrite Hs, Hi.
  eexists. split; [reflexivity|]. simpl. auto.
Qed.

(** A request for a cached size returns the stored sprite and leaves
    the whole state, rasterizer count included, as it was. *)
Lemma get_heart_hit (size : Z) (st : RunState) (sp : Sprite) :
  heart_cache st !! size = Some sp -> get_heart size st = Ok (sp, st).
Proof.
  intros E. unfold get_heart, bind, cache_has, cache_load, ret.
  rewrite E. simpl. rewrite E. reflexivity.
Qed.

(** A request for a size not yet cached rasterizes once and stores. *)
Lemma get_heart_miss (size : Z) (st : RunState) (img : Image) :
  heart_cache st !! size = None ->
  create_heart size heart_color = Ok img ->
  get_heart size st =
  Ok (mkSprite (raster_calls st) img,
      mkState (rng_cursor st)
              (<[size := mkSprite (raster_calls st) img]> (heart_cache st))
              (S (raster_calls st))).
Proof.
  intros E C.
  unfold get_heart, bind, cache_has, cache_load, cache_store,
         create_heart_call, ret.
  rewrite E. simpl. rewrite C. simpl.
  rewrite lookup_insert_eq. reflexivity.
Qed.

Lemma get_heart_run (size : Z) (st : RunState) :
  0 <= size -> cache_ok st ->
  exists sp st1,
    get_heart size st = Ok (sp, st1)
    /\ create_heart size heart_color = Ok (sprite_img sp)
    /\ rng_cursor st1 = rng_cursor st
    /\ heart_cache st1 !! size = Some sp
    /\ cache_ok st1 /\ cache_kept st st1.
Proof.
  intros Hs Hc. destruct (heart_cache st !! size) as [sp|] eqn:E.
  - exists sp, st. rewrite (get_heart_hit _ _ _ E).
    repeat split; auto. intros k v Hk. exact Hk.
  - destruct (create_heart_ok size heart_color Hs) as (img & C & _).
    eexists _, _. rewrite (get_heart_miss _ _ _ E C). simpl.
    repeat split; auto.
    + apply lookup_insert_eq.
    + intros k v. simpl. rewrite lookup_insert.
      destruct (decide (size = k)) as [<-|N]; [|apply Hc].
      intros H. inversion H; subst. exact C.
    + intros k v Hk. simpl. rewrite lookup_insert.
      destruct (decide (size = k)) as [<-|N]; [|exact Hk].
      rewrite E in Hk. discriminate.
Qed.

End SpriteFacts.

(** ** The frame loop *)

Section FrameFacts.
Context {pil : Pillow} {host : Host}.
Variable entropy : nat -> Z.

Lemma truediv_ok (a b : Z) :
  b <> 0 -> truediv a b = Ok (fquot a b).
Proof.
  intros Hb. unfold truediv.
  destruct (b =? 0) eqn:E; [apply Z.eqb_eq in E; contradiction|reflexivity].
Qed.

Lemma truediv_raise (a b : Z) e :
  truediv a b = Raise e -> e = ZeroDivisionError /\ b = 0.
Proof.
  unfold truediv. destruct (b =? 0) eqn:E; [|discriminate].
  intros H. inversion H. apply Z.eqb_eq in E. auto.
Qed.

Lemma heart_y_ok (total_frames height f : Z) (h : Heart) :
  total_frames - h_start h <> 0 ->
  heart_y total_frames height f h =
  Ok (fall_y height h (fquot (f - h_start h) (total_frames - h_start h))).
Proof. intros Hd. unfold heart_y. rewrite truediv_ok by assumption. reflexivity. Qed.

(** The position does not decrease with the progress. *)
Lemma fall_y_mono (height : Z) (h : Heart) (t t' : Q) :
  0 <= height + h_size h * 2 -> (t <= t')%Q ->
  (fall_y height h t <= fall_y height h t')%Q.
Proof.
  intros Hh Ht. unfold fall_y, fadd, fmul.
  pose proof (of_int_nonneg _ Hh) as P.
  apply round64_mono.
  assert (M : (round64 (t * of_int (height + h_size h * 2))
               <= round64 (t' * of_int (height + h_size h * 2)))%Q).
  { apply round64_mono. apply Qmult_le_compat_r; assumption. }
  lra.
Qed.

Lemma fall_y_proper (height : Z) (h : Heart) (t t' : Q) :
  (t == t')%Q -> (fall_y height h t == fall_y height h t')%Q.
Proof.
  intros E. unfold fall_y, fadd, fmul. rewrite E. reflexivity.
Qed.

(** With no progress the heart is at [-size], exactly. *)
Lemma fall_y_zero (height : Z) (h : Heart) :
  Z.abs (h_size h) < 2 ^ 53 -> (fall_y height h 0 == float (- h_size h))%Q.
Proof.
  intros Hs. unfold fall_y, fadd, fmul.
  rewrite (round64_zero (0 * of_int (height + h_size h * 2))) by ring.
  rewrite Qplus_0_r. unfold of_int.
  rewrite (round64_int (- h_size h)) by lia.
  apply round64_int. lia.
Qed.

(** With full progress it is at [height + size], exactly. *)
Lemma fall_y_one (height : Z) (h : Heart) :
  0 <= h_size h < 2 ^ 31 -> 0 <= height < 2 ^ 31 ->
  (fall_y height h 1 == float (height + h_size h))%Q.
Proof.
  intros Hs Hh. unfold fall_y, fadd, fmul.
  rewrite (of_int_exact (height + h_size h * 2)) by lia.
  rewrite (of_int_exact (- h_size h)) by lia.
  rewrite Qmult_1_l. unfold float.
  rewrite (round64_int (height + h_size h * 2)) by lia.
  rewrite <- inject_Z_plus.
  replace (- h_size h + (height + h_size h * 2)) with (height + h_size h)
    by lia.
  apply round64_int. lia.
Qed.

(** From the start frame on the heart is at [-size] or below. *)
Lemma fall_y_floor (height : Z) (h : Heart) (rel den : Z) :
  0 <= h_size h < 2 ^ 53 -> 0 <= height -> 0 < den -> 0 <= rel ->
  (float (- h_size h) <= fall_y height h (fquot rel den))%Q.
Proof.
  intros Hs Hh Hd Hr.
  pose proof (fall_y_mono height h 0 (fquot rel den) ltac:(lia)
                (fquot_nonneg rel den Hd Hr)) as M.
  rewrite (fall_y_zero height h) in M by lia. exact M.
Qed.

(** Within its fall window the heart is at [height + size] or above. *)
Lemma fall_y_ceiling (height : Z) (h : Heart) (rel den : Z) :
  0 <= h_size h < 2 ^ 31 -> 0 <= height < 2 ^ 31 -> 0 < den -> rel <= den ->
  (fall_y height h (fquot rel den) <= float (height + h_size h))%Q.
Proof.
  intros Hs Hh Hd Hr.
  pose proof (fall_y_mono height h (fquot rel den) (fquot den den)
                ltac:(lia) (fquot_mono rel den den Hd Hr)) as M.
  rewrite (fall_y_proper height h (fquot den den) 1) in M
    by (apply fquot_same; lia).
  rewrite (fall_y_one height h Hs Hh) in M. exact M.
Qed.

Lemma heart_position_before (total_frames height f : Z) (h : Heart) :
  f < h_start h -> heart_position total_frames height f h = Ok None.
Proof.
  intros Hf. unfold heart_position.
  replace (f - h_start h <? 0) with true
    by (symmetry; apply Z.ltb_lt; lia).
  reflexivity.
Qed.

Lemma heart_position_defined (total_frames height f : Z) (h : Heart) :
  h_start h < total_frames ->
  exists pos, heart_position total_frames height f h = Ok pos.
Proof.
  intros Hs. unfold heart_position.
  destruct (f - h_start h <? 0); [eauto|].
  rewrite heart_y_ok by lia.
  destruct (negb _); eauto.
Qed.

Lemma heart_position_raise (total_frames height f : Z) (h : Heart) e :
  heart_position total_frames height f h = Raise e ->
  e = ZeroDivisionError /\ total_frames = h_start h /\ h_start h <= f.
Proof.
  unfold heart_position, heart_y.
  destruct (f - h_start h <? 0) eqn:R; [discriminate|].
  apply Z.ltb_ge in R.
  destruct (truediv _ _) as [t|e'] eqn:T.
  - destruct (negb _); discriminate.
  - intros H. inversion H; subst.
    apply truediv_raise in T as [-> T]. repeat split; lia.
Qed.

Lemma draw_heart_skip (total_frames height f : Z) frame h st :
  heart_position total_frames height f h = Ok None ->
  draw_heart entropy total_frames height f frame h st = Ok (frame, st).
Proof.
  intros P. unfold draw_heart, bind, lift. rewrite P. reflexivity.
Qed.

Lemma draw_heart_active (total_frames height f : Z) frame h y st :
  im_mode frame = ModeRGBA -> 0 <= h_size h -> cache_ok st ->
  heart_position total_frames height f h = Ok (Some y) ->
  exists sp st1 frame',
    get_heart (h_size h) st = Ok (sp, st1)
    /\ create_heart (h_size h) heart_color = Ok (sprite_img sp)
    /\ alpha_composite frame (sprite_img sp)
         (dest_x_of h (drift_of (h_size h)
                         (fraction (entropy (rng_cursor st)))),
          int y) = Ok frame'
    /\ draw_heart entropy total_frames height f frame h st
       = Ok (frame', advance st1)
    /\ rng_cursor st1 = rng_cursor st
    /\ cache_ok st1 /\ cache_kept st st1.
Proof.
  intros Hm Hs Hc P.
  destruct (get_heart_run (h_size h) st Hs Hc)
    as (sp & st1 & G & C & K & _ & Hc1 & Hk).
  destruct (create_heart_ok (h_size h) heart_color Hs)
    as (img & C' & Mi & _).
  rewrite C in C'. inversion C'; subst img.
  destruct (alpha_composite_rgba frame (sprite_img sp)
              (dest_x_of h (drift_of (h_size h)
                              (fraction (entropy (rng_cursor st)))),
               int y) Hm Mi) as (out & A & _).
  exists sp, st1, out. repeat split; auto.
  unfold draw_heart, bind, lift. rewrite P.
  unfold bind. rewrite G. unfold random, bind, next_draw, ret.
  rewrite K, A. unfold advance. rewrite K. reflexivity.
Qed.

(** One heart of the loop: it never fails on a heart that starts
    before the last frame; the frame stays an RGBA raster of the same
    size; without drift it is the drift-free step. *)
Lemma draw_heart_run (total_frames height f : Z) frame h st :
  im_mode frame = ModeRGBA -> 0 <= h_size h -> h_start h < total_frames ->
  cache_ok st ->
  exists frame' st',
    draw_heart entropy total_frames height f frame h st = Ok (frame', st')
    /\ im_mode frame' = ModeRGBA
    /\ im_width frame' = im_width frame
    /\ im_height frame' = im_height frame
    /\ cache_ok st' /\ cache_kept st st'
    /\ (rng_cursor st <= rng_cursor st')%nat
    /\ (drift_of (h_size h) (fraction (entropy (rng_cursor st))) = 0 ->
        still_heart total_frames height f (Ok frame) h = Ok frame').
Proof.
  intros Hm Hs Hk Hc.
  destruct (heart_position_defined total_frames height f h Hk)
    as ([y|] & P).
  - destruct (draw_heart_active _ _ _ _ _ _ _ Hm Hs Hc P)
      as (sp & st1 & out & G & C & A & D & K & Hc1 & Hk1).
    exists out, (advance st1).
    pose proof (create_heart_ok (h_size h) heart_color Hs)
      as (img & C' & Mi & _).
    rewrite C in C'. inversion C'; subst img.
    destruct (alpha_composite_rgba frame (sprite_img sp)
                (dest_x_of h (drift_of (h_size h)
                                (fraction (entropy (rng_cursor st)))),
                 int y) Hm Mi) as (out' & A' & Mo & Wo & Ho & _).
    rewrite A in A'. inversion A'; subst out'.
    repeat split; auto.
    + simpl. lia.
    + intros Z0. unfold still_heart. rewrite P, C. rewrite <- Z0. exact A.
  - exists frame, st. rewrite (draw_heart_skip _ _ _ _ _ _ P).
    repeat split; auto.
    + intros k v Hv. exact Hv.
    + intros _. unfold still_heart. rewrite P. reflexivity.
Qed.

(** Hearts a frame loop can draw: a sprite size that exists and a
    start before the last frame. *)
Lemma heart_ok_fit (total_frames width : Z) (h : Heart) :
  1 <= total_frames -> heart_ok total_frames width h ->
  0 <= h_size h /\ h_start h < total_frames
  /\ 1 <= total_frames - h_start h.
Proof.
  intros Ht Hh. pose proof (heart_ok_total _ _ _ Hh) as [_ Hw].
  destruct Hh as ((A & B) & C & D & E).
  assert (0 <= int (float width * (3 # 100))).
  { apply int_floor. unfold float, Qle; simpl. lia. }
  assert (total_frames / 2 < total_frames)
    by (apply Z.div_lt_upper_bound; lia).
  lia.
Qed.

End FrameFacts.

Section LoopFacts.
Context {pil : Pillow} {host : Host}.
Variable entropy : nat -> Z.

Lemma cache_kept_trans (a b c : RunState) :
  cache_kept a b -> cache_kept b c -> cache_kept a c.
Proof. intros H1 H2 k v Hk. apply H2, H1, Hk. Qed.

Lemma still_heart_raise (total_frames height f : Z) (hs : list Heart) e :
  fold_left (still_heart total_frames height f) hs (Raise e) = Raise e.
Proof. induction hs as [|h hs IH]; simpl; auto. Qed.

(** The [for h in hearts] loop of one frame. *)
Lemma hearts_loop_run (total_frames height f : Z) (hearts : list Heart) :
  Forall (fun h => 0 <= h_size h /\ h_start h < total_frames) hearts ->
  forall frame st,
    im_mode frame = ModeRGBA -> cache_ok st ->
    exists frame' st',
      for_each (draw_heart entropy total_frames height f) hearts frame st
      = Ok (frame', st')
      /\ im_mode frame' = ModeRGBA
      /\ im_width frame' = im_width frame
      /\ im_height frame' = im_height frame
      /\ cache_ok st' /\ cache_kept st st'
      /\ (rng_cursor st <= rng_cursor st')%nat
      /\ (no_drift entropy (rng_cursor st) hearts ->
          fold_left (still_heart total_frames height f) hearts (Ok frame)
          = Ok frame').
Proof.
  induction 1 as [|h hs [Hs Hk] _ IH]; intros frame st Hm Hc.
  - exists frame, st. simpl. repeat split; auto. intros k v Hv; exact Hv.
  - destruct (draw_heart_run entropy total_frames height f frame h st
                Hm Hs Hk Hc)
      as (fr1 & st1 & D & M1 & W1 & H1 & C1 & K1 & R1 & S1).
    destruct (IH fr1 st1 M1 C1)
      as (fr2 & st2 & D2 & M2 & W2 & H2 & C2 & K2 & R2 & S2).
    exists fr2, st2. cbn [for_each]. rewrite (bind_step _ _ _ _ _ D).
    repeat split; try congruence; auto.
    + eapply cache_kept_trans; eauto.
    + lia.
    + intros N. cbn [fold_left]. rewrite S1.
      * apply S2. intros n h' Hn Hin. apply N; [lia|right; exact Hin].
      * apply N; [lia|left; reflexivity].
Qed.

Lemma draw_caption_shape (frame : Image) message font width text_w msg_y :
  im_mode (draw_caption frame message font width text_w msg_y)
  = im_mode frame
  /\ im_width (draw_caption frame message font width text_w msg_y)
     = im_width frame
  /\ im_height (draw_caption frame message font width text_w msg_y)
     = im_height frame.
Proof. unfold draw_caption, draw_text. simpl. auto. Qed.

(** One frame of the animation. *)
Lemma render_frame_run (bg : Image) message font hearts
      (width height total_frames text_w msg_y f : Z) :
  im_mode bg = ModeRGBA ->
  Forall (fun h => 0 <= h_size h /\ h_start h < total_frames) hearts ->
  forall st, cache_ok st ->
    exists fr st',
      render_frame entropy bg message font hearts width height total_frames
                   text_w msg_y f st = Ok (fr, st')
      /\ opaque_frame (im_width bg) (im_height bg) fr
      /\ cache_ok st' /\ cache_kept st st'
      /\ (rng_cursor st <= rng_cursor st')%nat
      /\ (no_drift entropy (rng_cursor st) hearts ->
          still_frame bg message font hearts width height total_frames
                      text_w msg_y f = Ok fr).
Proof.
  intros Hm Hh st Hc.
  pose proof (draw_caption_shape (Image_copy bg) message font width
                                 text_w msg_y) as (Mc & Wc & Hc').
  destruct (hearts_loop_run total_frames height f hearts Hh
              (draw_caption (Image_copy bg) message font width text_w msg_y)
              st) as (fr & st' & D & M & W & H & C & K & R & S);
    [rewrite Mc; exact Hm|exact Hc|].
  exists (convert_RGB fr), st'. unfold render_frame.
  rewrite (bind_step _ _ _ _ _ D). unfold ret.
  split; [reflexivity|]. split; [|split; [|split; [|split]]]; auto.
  - unfold opaque_frame. simpl. rewrite W, H, Wc, Hc'. auto.
  - intros N. unfold still_frame. rewrite (S N). reflexivity.
Qed.

(** The [for frame_idx in ...] loop over any list of indices. *)
Lemma frames_loop_run (bg : Image) message font hearts
      (width height total_frames text_w msg_y : Z) (idxs : list Z) :
  im_mode bg = ModeRGBA ->
  Forall (fun h => 0 <= h_size h /\ h_start h < total_frames) hearts ->
  forall st, cache_ok st ->
    exists frames st',
      collect (render_frame entropy bg message font hearts width height
                            total_frames text_w msg_y) idxs st
      = Ok (frames, st')
      /\ List.length frames = List.length idxs
      /\ Forall (opaque_frame (im_width bg) (im_height bg)) frames
      /\ cache_kept st st'
      /\ (no_drift entropy (rng_cursor st) hearts ->
          all_ok (List.map (still_frame bg message font hearts width height
                                        total_frames text_w msg_y) idxs)
          = Ok frames).
Proof.
  intros Hm Hh. induction idxs as [|i idxs IH]; intros st Hc.
  - exists [], st. simpl. repeat split; auto. intros k v Hv; exact Hv.
  - destruct (render_frame_run bg message font hearts width height
                total_frames text_w msg_y i Hm Hh st Hc)
      as (fr & st1 & D & O & C1 & K1 & R1 & S1).
    destruct (IH st1 C1) as (frs & st2 & D2 & L2 & O2 & K2 & S2).
    exists (fr :: frs), st2. simpl.
    rewrite (bind_step _ _ _ _ _ D), (bind_step _ _ _ _ _ D2).
    split; [reflexivity|]. split; [|split; [|split]].
    + simpl. congruence.
    + constructor; assumption.
    + eapply cache_kept_trans; eauto.
    + intros N. cbn [List.map all_ok]. rewrite (S1 N). rewrite S2; [reflexivity|].
      intros n h Hn Hin. apply N; [lia|exact Hin].
Qed.

End LoopFacts.

(** ** The whole run *)

Section RunFacts.
Context {pil : Pillow} {host : Host}.
Variable entropy : nat -> Z.

Lemma try_paths_total (paths : list string) (size : Z) :
  exists f, try_paths paths size = Ok f.
Proof.
  induction paths as [|p ps IH]; simpl.
  - exists DefaultBitmap. reflexivity.
  - destruct (isfile p); [|exact IH].
    destruct (ImageFont_truetype p size) as [f|e]; [eauto|exact IH].
Qed.



Lemma convert_RGBA_mode (im : Image) : im_mode (convert_RGBA im) = ModeRGBA.
Proof.
  unfold convert_RGBA. destruct (im_mode im) eqn:E; simpl; auto.
Qed.

Lemma Image_resize_ok (im : Image) (w h : Z) :
  1 <= w < 2 ^ 31 -> 1 <= h < 2 ^ 31 ->
  Image_resize im w h = Ok (mkImage (im_mode im) w h (lanczos im w h)).
Proof.
  intros Hw Hh. unfold Image_resize.
  replace (w <? 1) with false by (symmetry; apply Z.ltb_ge; lia).
  replace (h <? 1) with false by (symmetry; apply Z.ltb_ge; lia).
  replace (2 ^ 31 <=? w) with false by (symmetry; apply Z.leb_gt; lia).
  replace (2 ^ 31 <=? h) with false by (symmetry; apply Z.leb_gt; lia).
  reflexivity.
Qed.

Lemma Image_resize_inv (im : Image) (w h : Z) out :
  Image_resize im w h = Ok out ->
  1 <= w < 2 ^ 31 /\ 1 <= h < 2 ^ 31
  /\ out = mkImage (im_mode im) w h (lanczos im w h).
Proof.
  unfold Image_resize.
  destruct (w <? 1) eqn:A; [discriminate|].
  destruct (h <? 1) eqn:B; [discriminate|].
  destruct (2 ^ 31 <=? w) eqn:C; [discriminate|].
  destruct (2 ^ 31 <=? h) eqn:D; [discriminate|].
  apply Z.ltb_ge in A, B. apply Z.leb_gt in C, D.
  simpl. intros H. inversion H. repeat split; lia.
Qed.


Lemma textsize_ok (text : pystr) (font : Font) extent :
  ImageDraw_textsize text font = Ok extent ->
  encodes font text = true /\ extent = text_extent text font.
Proof.
  unfold ImageDraw_textsize. destruct (encodes font text); [|discriminate].
  intros H. inversion H. auto.
Qed.


(** The state in which the frame loop starts. *)
Lemma cache_ok_cleared (st : RunState) :
  cache_ok (mkState (rng_cursor st) ∅ (raster_calls st)).
Proof. intros k v. simpl. rewrite lookup_empty. discriminate. Qed.

(** Shape of a run whose three calls before the frame loop return, with
    a non-negative frame count. *)
Lemma generate_frames_run (base_image : Image) (message : pystr)
      (width height fps duration : Z) (st : RunState) bg font extent :
  0 <= fps * duration ->
  Image_resize (convert_RGBA base_image) width height = Ok bg ->
  load_font (int (float height * (6 # 100))) = Ok font ->
  ImageDraw_textsize message font = Ok extent ->
  exists hearts st1 frames st',
    gen_hearts entropy heart_count (fps * duration) width st
    = Ok (hearts, st1)
    /\ collect (render_frame entropy bg message font hearts width height
                  (fps * duration) (fst extent)
                  (int (float height * (5 # 100))))
         (range (fps * duration))
         (mkState (rng_cursor st1) ∅ (raster_calls st1))
       = Ok (frames, st')
    /\ generate_frames entropy base_image message width height fps duration
         st = Ok (frames, st')
    /\ Z.of_nat (List.length frames) = fps * duration
    /\ Forall (opaque_frame width height) frames
    /\ (no_drift entropy (rng_cursor st1) hearts ->
        still_frames bg message font hearts width height (fps * duration)
          (fst extent) (int (float height * (5 # 100)))
        = Ok frames).
Proof.
  intros Ht R L T.
  pose proof (Image_resize_inv _ _ _ _ R) as (Hw & Hh & Ebg).
  assert (Mbg : im_mode bg = ModeRGBA)
    by (rewrite Ebg; apply convert_RGBA_mode).
  assert (Wbg : im_width bg = width) by (rewrite Ebg; reflexivity).
  assert (Hbg : im_height bg = height) by (rewrite Ebg; reflexivity).
  destruct (gen_hearts_succeeds entropy heart_count (fps * duration) width
              Ht ltac:(lia) st) as (hearts & st1 & G).
  pose proof (gen_hearts_inv entropy _ _ _ _ _ _ G) as (_ & F & _).
  set (st0 := mkState (rng_cursor st1) ∅ (raster_calls st1)).
  assert (Loop : exists frames st',
             collect (render_frame entropy bg message font hearts width
                        height (fps * duration) (fst extent)
                        (int (float height * (5 # 100))))
                     (range (fps * duration)) st0 = Ok (frames, st')
             /\ List.length frames = List.length (range (fps * duration))
             /\ Forall (opaque_frame width height) frames
             /\ (no_drift entropy (rng_cursor st1) hearts ->
                 still_frames bg message font hearts width height
                   (fps * duration) (fst extent)
                   (int (float height * (5 # 100))) = Ok frames)).
  { destruct (Z.eq_dec (fps * duration) 0) as [Z0|NZ].
    - rewrite Z0. unfold still_frames. rewrite (range_nonpos 0) by lia.
      exists [], st0. simpl. repeat split; auto.
    - destruct (frames_loop_run entropy bg message font hearts width height
                  (fps * duration) (fst extent)
                  (int (float height * (5 # 100)))
                  (range (fps * duration)) Mbg) with (st := st0)
        as (frames & st' & C & Len & O & _ & S).
      + eapply List.Forall_impl; [|exact F]. simpl. intros h Hh'.
        pose proof (heart_ok_fit (fps * duration) width h ltac:(lia) Hh').
        tauto.
      + apply cache_ok_cleared.
      + rewrite Wbg, Hbg in O. exists frames, st'. repeat split; auto. }
  destruct Loop as (frames & st' & C & Len & O & S).
  exists hearts, st1, frames, st'.
  split; [exact G|]. split; [exact C|]. split; [|split; [|split]].
  - unfold generate_frames, bind, lift. rewrite R, G.
    unfold cache_clear. rewrite L, T.
    destruct extent as [tw th]. exact C.
  - rewrite Len. apply range_length, Ht.
  - exact O.
  - exact S.
Qed.

(** A run that returns: the three calls before the frame loop returned
    and the frame count is not negative. *)
Lemma generate_frames_ok_inv (base_image : Image) (message : pystr)
      (width height fps duration : Z) (st : RunState) frames st' :
  generate_frames entropy base_image message width height fps duration st
  = Ok (frames, st') ->
  exists bg font extent,
    Image_resize (convert_RGBA base_image) width height = Ok bg
    /\ load_font (int (float height * (6 # 100))) = Ok font
    /\ ImageDraw_textsize message font = Ok extent
    /\ 0 <= fps * duration
    /\ 1 <= width < 2 ^ 31 /\ 1 <= height < 2 ^ 31.
Proof.
  intros H. unfold generate_frames in H.
  apply bind_ok in H as (bg & s0 & R & H).
  apply bind_ok in H as (hearts & s1 & G & H).
  apply bind_ok in H as (u & s2 & _ & H).
  apply bind_ok in H as (font & s3 & L & H).
  apply bind_ok in H as (extent & s4 & T & _).
  unfold lift in R, L, T.
  destruct (Image_resize _ _ _) as [bg'|] eqn:R'; [|discriminate].
  destruct (load_font _) as [font'|] eqn:L'; [|discriminate].
  destruct (ImageDraw_textsize _ _) as [extent'|] eqn:T'; [|discriminate].
  inversion R; inversion L; inversion T; subst.
  pose proof (Image_resize_inv _ _ _ _ R') as (Hw & Hh & _).
  pose proof (gen_hearts_inv entropy _ _ _ _ _ _ G) as (Len & F & _).
  destruct hearts as [|h hs]; [discriminate Len|].
  inversion F as [|? ? Fh _]; subst.
  apply heart_ok_total in Fh as [Ht _].
  exists bg, font, extent.
  split; [first [reflexivity|assumption]|].
  split; [first [reflexivity|assumption]|].
  split; [first [reflexivity|assumption]|].
  split; [exact Ht|]. split; [exact Hw|exact Hh].
Qed.



End RunFacts.

(** ** What the loops do to the cache *)

Section CacheFacts.
Context {pil : Pillow} {host : Host}.
Variable entropy : nat -> Z.

Lemma get_heart_inv (size : Z) (st : RunState) sp st1 :
  get_heart size st = Ok (sp, st1) ->
  (heart_cache st !! size = Some sp /\ st1 = st)
  \/ (heart_cache st !! size = None
      /\ create_heart size heart_color = Ok (sprite_img sp)
      /\ sprite_obj sp = raster_calls st
      /\ st1 = mkState (rng_cursor st) (<[size := sp]> (heart_cache st))
                       (S (raster_calls st))).
Proof.
  intros G. destruct (heart_cache st !! size) as [sp'|] eqn:E.
  - rewrite (get_heart_hit _ _ _ E) in G. inversion G; subst. auto.
  - right. destruct (create_heart size heart_color) as [img|e] eqn:C.
    + rewrite (get_heart_miss _ _ _ E C) in G. inversion G; subst.
      simpl. auto.
    + unfold get_heart, bind, cache_has, create_heart_call in G.
      rewrite E in G. simpl in G. rewrite C in G. discriminate.
Qed.

Lemma get_heart_kept (size : Z) (st : RunState) sp st1 :
  get_heart size st = Ok (sp, st1) ->
  cache_kept st st1 /\ (raster_calls st <= raster_calls st1)%nat.
Proof.
  intros G. apply get_heart_inv in G as [[_ ->]|(E & _ & _ & ->)].
  - split; [intros k v Hv; exact Hv|lia].
  - split; [|simpl; lia]. intros k v Hv. simpl. rewrite lookup_insert.
    destruct (decide (size = k)) as [<-|N]; [|exact Hv].
    rewrite E in Hv. discriminate.
Qed.

Lemma draw_heart_kept (total_frames height f : Z) frame h st frame' st' :
  draw_heart entropy total_frames height f frame h st = Ok (frame', st') ->
  cache_kept st st'.
Proof.
  unfold draw_heart. intros D.
  apply bind_ok in D as (pos & s0 & P & D).
  unfold lift in P.
  destruct (heart_position _ _ _ _) as [p|]; [|discriminate].
  inversion P; subst; clear P.
  destruct pos as [y|].
  - apply bind_ok in D as (sp & s1 & G & D).
    apply bind_ok in D as (u & s2 & U & D).
    apply get_heart_kept in G as [K _].
    unfold random, bind, next_draw, ret in U. inversion U; subst; clear U.
    unfold lift in D. destruct (alpha_composite _ _ _); [|discriminate].
    inversion D; subst. exact K.
  - inversion D; subst. intros k v Hv; exact Hv.
Qed.

Lemma hearts_loop_kept (total_frames height f : Z) (hearts : list Heart) :
  forall frame st frame' st',
    for_each (draw_heart entropy total_frames height f) hearts frame st
    = Ok (frame', st') ->
    cache_kept st st'.
Proof.
  induction hearts as [|h hs IH]; simpl; intros frame st frame' st' H.
  - inversion H; subst. intros k v Hv; exact Hv.
  - apply bind_ok in H as (fr1 & s1 & D & H).
    eapply cache_kept_trans; [eapply draw_heart_kept; eauto|eauto].
Qed.

Lemma render_frame_kept bg message font hearts
      (width height total_frames text_w msg_y f : Z) st fr st' :
  render_frame entropy bg message font hearts width height total_frames
               text_w msg_y f st = Ok (fr, st') ->
  cache_kept st st'.
Proof.
  unfold render_frame. intros H.
  apply bind_ok in H as (fr1 & s1 & D & H).
  inversion H; subst. eapply hearts_loop_kept; eauto.
Qed.

Lemma frames_loop_kept bg message font hearts
      (width height total_frames text_w msg_y : Z) (idxs : list Z) :
  forall st frames st',
    collect (render_frame entropy bg message font hearts width height
                          total_frames text_w msg_y) idxs st
    = Ok (frames, st') ->
    cache_kept st st'.
Proof.
  induction idxs as [|i idxs IH]; simpl; intros st frames st' H.
  - inversion H; subst. intros k v Hv; exact Hv.
  - apply bind_ok in H as (fr & s1 & D & H).
    apply bind_ok in H as (frs & s2 & C & H).
    inversion H; subst.
    eapply cache_kept_trans; [eapply render_frame_kept; eauto|eauto].
Qed.

End CacheFacts.

(** ** Truncation, continued *)

(** Truncation depends on the value only. *)
Lemma int_proper (q q' : Q) : (q == q')%Q -> int q = int q'.
Proof.
  intros E.
  assert (F : forall r : Q, int r = if 0 <=? Qnum r then Qfloor r
                                  else - Qfloor (- r)).
  { intros [n d]. unfold int, Qfloor, Qopp. cbn [Qnum Qden].
    destruct (0 <=? n) eqn:S.
    - apply Z.leb_le in S. apply Z.quot_div_nonneg; lia.
    - apply Z.leb_gt in S.
      rewrite <- (Z.quot_div_nonneg (- n) (Z.pos d)) by lia.
      rewrite Z.quot_opp_l by lia. lia. }
  rewrite (F q), (F q').
  assert (S : (0 <=? Qnum q) = (0 <=? Qnum q')).
  { unfold Qeq in E. destruct (0 <=? Qnum q) eqn:A, (0 <=? Qnum q') eqn:B;
      try reflexivity.
    - apply Z.leb_le in A. apply Z.leb_gt in B. nia.
    - apply Z.leb_gt in A. apply Z.leb_le in B. nia. }
  rewrite <- S. destruct (0 <=? Qnum q).
  - apply Qfloor_comp. exact E.
  - f_equal. apply Qfloor_comp. rewrite E. reflexivity.
Qed.

(** Truncating a value that lies between two integers stays between
    them. *)
Lemma int_between (a b : Z) (q : Q) :
  (float a <= q)%Q -> (q <= float b)%Q -> a <= int q <= b.
Proof.
  destruct q as [n d]. unfold int, float, Qle, inject_Z. simpl.
  intros Ha Hb.
  pose proof (Z.quot_rem' n (Zpos d)) as E.
  pose proof (Z.rem_bound_abs n (Zpos d) ltac:(lia)) as B.
  destruct (Z_lt_le_dec n 0) as [N|P].
  - pose proof (Z.rem_nonpos n (Zpos d) ltac:(lia) ltac:(lia)). nia.
  - pose proof (Z.rem_nonneg n (Zpos d) ltac:(lia) P). nia.
Qed.

Lemma int_toward_zero (q : Q) :
  ((0 <= q)%Q -> 0 <= int q /\ (float (int q) <= q)%Q)
  /\ ((q <= 0)%Q -> int q <= 0 /\ (q <= float (int q))%Q).
Proof.
  split; [apply int_floor|].
  destruct q as [n d]. unfold int, float, Qle, inject_Z. simpl.
  intros Hn.
  pose proof (Z.quot_rem' n (Zpos d)) as E.
  pose proof (Z.rem_nonpos n (Zpos d) ltac:(lia) ltac:(lia)) as B.
  pose proof (Z.rem_bound_abs n (Zpos d) ltac:(lia)) as A.
  split; nia.
Qed.

(** A value less than one past [m] either way truncates into
    [-m .. m]. *)
Lemma int_open_bounds (m : Z) (q : Q) :
  0 <= m -> (- float m - 1 < q)%Q -> (q < float m + 1)%Q ->
  - m <= int q <= m.
Proof.
  intros Hm L U. destruct (Qlt_le_dec q 0) as [N|P].
  - destruct (proj2 (int_toward_zero q) (Qlt_le_weak _ _ N)) as [I0 I1].
    assert (H : (- float m - 1 < float (int q))%Q) by lra.
    unfold float, Qlt in H. simpl in H. lia.
  - destruct (proj1 (int_toward_zero q) P) as [I0 I1].
    assert (H : (float (int q) < float m + 1)%Q) by lra.
    unfold float, Qlt in H. simpl in H. lia.
Qed.

(** ** The drift *)

Lemma fraction_unit (d : Z) : (0 <= fraction d)%Q /\ (fraction d < 1)%Q.
Proof.
  unfold fraction, Qle, Qlt. simpl.
  pose proof (Z.mod_pos_bound d (2 ^ 53) ltac:(lia)).
  change (Z.pos (2 ^ 53)) with (2 ^ 53). lia.
Qed.

(** The float written [0.2]. *)
Lemma fifth_value :
  (round64 (2 # 10) == 3602879701896397 # 18014398509481984)%Q.
Proof. vm_compute. reflexivity. Qed.

Lemma drift_range (size : Z) (u : Q) :
  0 <= size < 2 ^ 52 -> (0 <= u)%Q -> (u < 1)%Q ->
  - size <= 10 * drift_of size u <= size.
Proof.
  intros Hs H0 H1.
  set (n := size / 10).
  assert (Hn : 10 * n <= size <= 10 * n + 9).
  { unfold n. pose proof (Z.div_mod size 10 ltac:(lia)).
    pose proof (Z.mod_pos_bound size 10 ltac:(lia)). lia. }
  assert (Nb : 0 <= n < 2 ^ 49) by lia.
  assert (S0 : (0 <= float size)%Q) by (unfold float, Qle; simpl; lia).
  assert (Sn : (float size <= 10 * float n + 9)%Q)
    by (unfold float, Qle; simpl; lia).
  assert (Nq : (0 <= float n)%Q /\ (float n <= 562949953421312)%Q)
    by (unfold float, Qle; simpl; lia).
  (* the three products, each rounded *)
  set (a := fsub u (1 # 2)).
  assert (A : (- (1 # 2) <= a)%Q /\ (a <= 1 # 2)%Q).
  { unfold a, fsub. split.
    - pose proof (round64_mono (- (1 # 2)) (u - (1 # 2)) ltac:(lra)) as M.
      pose proof (round64_exact (-1) (-1) ltac:(simpl; lia)) as X.
      change (inject_Z (-1) * pow2 (-1))%Q with (- (1 # 2))%Q in X.
      rewrite X in M. exact M.
    - pose proof (round64_mono (u - (1 # 2)) (1 # 2) ltac:(lra)) as M.
      pose proof (round64_exact 1 (-1) ltac:(simpl; lia)) as X.
      change (inject_Z 1 * pow2 (-1))%Q with (1 # 2)%Q in X.
      rewrite X in M. exact M. }
  pose proof (of_int_exact size ltac:(lia)) as Es.
  set (b := fmul a (of_int size)).
  assert (B : (- (float size / 2) <= b)%Q /\ (b <= float size / 2)%Q).
  { pose proof (round64_half size ltac:(lia)) as X.
    pose proof (round64_half (- size) ltac:(lia)) as X'.
    assert (O : (float (- size) / 2 == - (float size / 2))%Q).
    { unfold float. rewrite inject_Z_opp. unfold Qdiv. ring. }
    rewrite O in X'.
    unfold b, fmul. rewrite Es. split.
    - rewrite <- X'. apply round64_mono.
      unfold Qdiv. change (/ 2)%Q with (1 # 2)%Q. nra.
    - rewrite <- X. apply round64_mono.
      unfold Qdiv. change (/ 2)%Q with (1 # 2)%Q. nra. }
  set (c := fmul b (round64 (2 # 10))).
  set (v := (float (16 * n + 15) * pow2 (-4))%Q).
  assert (V : (v == float n + (15 # 16))%Q).
  { unfold v, float. rewrite inject_Z_plus, inject_Z_mult.
    change (pow2 (-4)) with (1 # 16)%Q. change (inject_Z 16) with 16%Q.
    change (inject_Z 15) with 15%Q. field. }
  assert (C : (- v <= c)%Q /\ (c <= v)%Q).
  { pose proof (round64_exact (16 * n + 15) (-4) ltac:(lia)) as X.
    pose proof (round64_exact (- (16 * n + 15)) (-4) ltac:(lia)) as X'.
    fold (float (16 * n + 15)) in X. fold v in X.
    assert (O : (inject_Z (- (16 * n + 15)) * pow2 (-4) == - v)%Q).
    { unfold v, float. rewrite inject_Z_opp. ring. }
    rewrite O in X'.
    destruct B as [B1 B2]. unfold Qdiv in B1, B2.
    change (/ 2)%Q with (1 # 2)%Q in B1, B2.
    unfold c, fmul. rewrite fifth_value. split.
    - rewrite <- X'. apply round64_mono. rewrite V. lra.
    - rewrite <- X. apply round64_mono. rewrite V. lra. }
  assert (I : - n <= int c <= n).
  { apply int_open_bounds; [lia| |]; destruct C as [C1 C2]; rewrite V in *;
      lra. }
  unfold drift_of. fold a b c. lia.
Qed.

(** The destination column is computed without rounding. *)
Lemma dest_x_exact (h : Heart) (drift : Z) :
  0 <= h_size h < 2 ^ 31 -> 0 <= h_x h <= 2 ^ 31 ->
  - h_size h <= drift <= h_size h ->
  dest_x_of h drift
  = int (float (h_x h) - float (h_size h) / 2 + float drift)%Q.
Proof.
  intros Hs Hx Hd. unfold dest_x_of. apply int_proper.
  unfold fadd, fsub.
  rewrite (of_int_exact (h_x h)) by lia.
  rewrite (of_int_exact drift) by lia.
  rewrite (fquot_half (h_size h)) by lia.
  assert (E1 : (float (h_x h) - float (h_size h) / 2
                == float (2 * h_x h - h_size h) / 2)%Q).
  { unfold float, Z.sub. rewrite inject_Z_plus, inject_Z_opp, inject_Z_mult.
    change (inject_Z 2) with 2%Q. field. }
  rewrite E1. rewrite (round64_half (2 * h_x h - h_size h)) by lia.
  assert (E2 : (float (2 * h_x h - h_size h) / 2 + float drift
                == float (2 * h_x h - h_size h + 2 * drift) / 2)%Q).
  { unfold float. rewrite (inject_Z_plus _ (2 * drift)), inject_Z_mult.
    change (inject_Z 2) with 2%Q. field. }
  rewrite E2. apply round64_half. lia.
Qed.

(* ================================================================== *)
(** * The claims *)




(** C5.  The sprite cache is filled lazily.  The first request for a
    size (one not yet in the cache) calls the rasterizer exactly once,
    stores the sprite it allocated and returns it.  Every later request
    for that size, in any state that still holds what was stored and in
    particular after any further frames have been rendered, returns that
    same sprite (same raster object, hence the same pixels) and leaves
    the state, the count of rasterizer calls included, untouched. *)
Theorem sprite_cache_rasterizes_once {pil : Pillow} {host : Host}
        (entropy : nat -> Z) (size : Z) (st : RunState) :
  0 <= size ->
  heart_cache st !! size = None ->
  exists sp st1,
    get_heart size st = Ok (sp, st1)
    /\ create_heart size heart_color = Ok (sprite_img sp)
    /\ sprite_obj sp = raster_calls st
    /\ raster_calls st1 = S (raster_calls st)
    /\ heart_cache st1 = <[size := sp]> (heart_cache st)
    /\ (forall st2, cache_kept st1 st2 -> get_heart size st2 = Ok (sp, st2))
    /\ (forall bg message font hearts width height total_frames text_w msg_y
               idxs frames st2,
           collect (render_frame entropy bg message font hearts width height
                                 total_frames text_w msg_y) idxs st1
           = Ok (frames, st2) ->
           get_heart size st2 = Ok (sp, st2)).
Proof.
  intros Hs E.
  destruct (create_heart_ok size heart_color Hs) as (img & C & _).
  pose proof (get_heart_miss size st img E C) as G.
  eexists _, _. split; [exact G|]. simpl.
  assert (K : forall st2,
             cache_kept
               (mkState (rng_cursor st)
                  (<[size := mkSprite (raster_calls st) img]> (heart_cache st))
                  (S (raster_calls st))) st2 ->
             get_heart size st2 = Ok (mkSprite (raster_calls st) img, st2)).
  { intros st2 Hk. apply get_heart_hit, Hk. simpl. apply lookup_insert_eq. }
  repeat split; auto.
  intros bg message font hearts width height total_frames text_w msg_y
         idxs frames st2 Hrun.
  apply K. eapply frames_loop_kept; eauto.
Qed.

Lemma sprite_cache_rasterizes_once_witness :
  exists sp st1,
    @get_heart Reference.pillow 21 Reference.fresh = Ok (sp, st1)
    /\ raster_calls st1 = 1%nat
    /\ @get_heart Reference.pillow 21 st1 = Ok (sp, st1).
Proof.
  destruct (@sprite_cache_rasterizes_once Reference.pillow Reference.bare_host
              (fun _ => 0) 21 Reference.fresh)
    as (sp & st1 & G & _ & _ & R & _ & K & _).
  - lia.
  - reflexivity.
  - exists sp, st1. repeat split; auto. apply K. intros k v Hv; exact Hv.
Defined.

(** C7.  For every caption and measured text width the horizontal draw
    origin [msg_x] is within one pixel of [(width - text_w) / 2].  On
    every frame the caption is drawn in two passes over the copied
    background, before any heart: first the shadow, black with alpha 160,
    at the origin moved 2 pixels right and 2 pixels down, then the text
    itself, opaque white, at the origin, on top of the shadow. *)
Theorem caption_centered_over_shadow {pil : Pillow} {host : Host}
        (entropy : nat -> Z) (bg : Image) (message : pystr) (font : Font)
        (hearts : list Heart)
        (width height total_frames text_w msg_y f : Z) :
  let msg_x := msg_x_of width text_w in
  (Qabs (float msg_x - float (width - text_w) / 2) <= 1)%Q
  /\ (forall frame,
         draw_caption frame message font width text_w msg_y
         = draw_text
             (draw_text frame (msg_x + 2, msg_y + 2) message font
                        (mkRGBA 0 0 0 160))
             (msg_x, msg_y) message font (mkRGBA 255 255 255 255))
  /\ (forall frame x y,
         im_pixel (draw_caption frame message font width text_w msg_y) x y
         = if in_bounds frame x y
           then text_pixel font message (mkRGBA 255 255 255 255)
                  (x - msg_x) (y - msg_y)
                  (text_pixel font message (mkRGBA 0 0 0 160)
                     (x - (msg_x + 2)) (y - (msg_y + 2))
                     (im_pixel frame x y))
           else im_pixel frame x y)
  /\ render_frame entropy bg message font hearts width height total_frames
                  text_w msg_y f
     = (let* frame :=
          for_each (draw_heart entropy total_frames height f) hearts
            (draw_caption (Image_copy bg) message font width text_w msg_y) in
        ret (convert_RGB frame)).
Proof.
  intros msg_x. split; [|split; [|split]].
  - apply Qabs_Qle_condition.
    pose proof (int_within_one (float (width - text_w) / 2)) as [A B].
    fold (msg_x_of width text_w) in A, B. fold msg_x in A, B.
    split; lra.
  - intros frame. reflexivity.
  - intros frame x y. unfold draw_caption, draw_text. simpl.
    fold msg_x. unfold in_bounds. simpl.
    destruct (_ && _); reflexivity.
  - reflexivity.
Qed.

(** ** Fall of one heart *)

(** C3.  For a heart with start frame [k] and a frame index [f], all
    arithmetic being the program's (binary64): before [k] the heart is
    not drawn, the loop body leaving frame and state as they are; at
    [f = k] its vertical position is exactly [-size]; from [k] on the
    position [y] is [-size + t * (height + 2 * size)] with
    [t = (f - k) / (total - k)], each operation rounded, which is within
    [2^-53 * (size + 4 * t * (height + 2 * size))] of the exact value of
    that expression and between [-size] and [height + size]; the heart
    is skipped, again with frame and state untouched, exactly when [y]
    exceeds [height]; [y] does not decrease from a frame to a later one
    and at the end of the fall window, [f - k = total - k], it is
    exactly [height + size], below the canvas, where a heart of positive
    size is skipped. *)
Theorem heart_fall_schedule {pil : Pillow} (entropy : nat -> Z)
        (total_frames height f : Z) (frame : Image) (h : Heart)
        (st : RunState) :
  0 <= f < total_frames ->
  0 <= h_size h < 2 ^ 31 -> 0 <= height < 2 ^ 31 ->
  let k := h_start h in
  let size := h_size h in
  let span := float (height + 2 * size) in
  (f < k ->
   heart_position total_frames height f h = Ok None
   /\ draw_heart entropy total_frames height f frame h st = Ok (frame, st))
  /\ (f = k ->
      exists y, heart_y total_frames height f h = Ok y
                /\ (y == float (- size))%Q /\ int y = - size)
  /\ (k <= f ->
      exists t y,
        truediv (f - k) (total_frames - k) = Ok t
        /\ (t == round64 (float (f - k) / float (total_frames - k)))%Q
        /\ heart_y total_frames height f h = Ok y
        /\ (y == round64 (float (- size) + round64 (t * span)))%Q
        /\ (Qabs (y - (float (- size)
                       + float (f - k) / float (total_frames - k) * span))
            <= pow2 (-53)
               * (float size
                  + 4 * (float (f - k) / float (total_frames - k)) * span))%Q
        /\ (float (- size) <= y)%Q /\ (y <= float (height + size))%Q
        /\ ((float height < y)%Q ->
            heart_position total_frames height f h = Ok None
            /\ draw_heart entropy total_frames height f frame h st
               = Ok (frame, st))
        /\ ((y <= float height)%Q ->
            heart_position total_frames height f h = Ok (Some y))
        /\ (forall f' y',
               f <= f' ->
               heart_y total_frames height f' h = Ok y' -> (y <= y')%Q))
  /\ (k < total_frames ->
      exists y, heart_y total_frames height total_frames h = Ok y
                /\ (y == float (height + size))%Q
                /\ (0 < size ->
                    heart_position total_frames height total_frames h
                    = Ok None
                    /\ draw_heart entropy total_frames height total_frames
                         frame h st = Ok (frame, st))).
Proof.
  intros Hf Hs Hh k size span.
  assert (Skip : forall g,
             heart_position total_frames height g h = Ok None ->
             heart_position total_frames height g h = Ok None
             /\ draw_heart entropy total_frames height g frame h st
                = Ok (frame, st)).
  { intros g P. split; [exact P|]. apply draw_heart_skip. exact P. }
  split; [|split; [|split]].
  - intros Hk. apply Skip, heart_position_before. exact Hk.
  - intros ->. fold k.
    rewrite heart_y_ok by (fold k; lia). eexists. split; [reflexivity|].
    fold k. rewrite Z.sub_diag.
    assert (E : (fall_y height h (fquot 0 (total_frames - k))
                 == float (- size))%Q).
    { rewrite (fall_y_proper _ _ _ 0 (fquot_zero _)).
      apply fall_y_zero. lia. }
    split; [exact E|]. apply int_Qeq. exact E.
  - intros Hk. fold k in Hk.
    assert (Hd : total_frames - k <> 0) by lia.
    set (a := (float (f - k) / float (total_frames - k))%Q).
    set (t := fquot (f - k) (total_frames - k)).
    set (y := fall_y height h t).
    assert (Et : (t == round64 a)%Q) by reflexivity.
    assert (Ey : (y == round64 (float (- size) + round64 (t * span)))%Q).
    { unfold y, fall_y, fadd, fmul. fold size.
      rewrite (of_int_exact (- size)) by (unfold size; lia).
      rewrite (of_int_exact (height + size * 2)) by (unfold size; lia).
      unfold span. replace (height + size * 2) with (height + 2 * size)
        by lia.
      reflexivity. }
    assert (P : heart_position total_frames height f h
                = if negb (Qle_bool y (float height)) then Ok None
                  else Ok (Some y)).
    { unfold heart_position. fold k.
      replace (f - k <? 0) with false by (symmetry; apply Z.ltb_ge; lia).
      rewrite heart_y_ok by exact Hd. fold k. reflexivity. }
    exists t, y.
    split; [apply truediv_ok; exact Hd|].
    split; [exact Et|].
    split; [apply heart_y_ok; exact Hd|].
    split; [exact Ey|].
    split.
    { (* distance to the exact value *)
      assert (A0 : (0 <= a)%Q).
      { pose proof (quotient_mono 0 (f - k) (total_frames - k)
                      ltac:(lia) ltac:(lia)) as Q0.
        unfold Qdiv in Q0 at 1. change (inject_Z 0) with 0%Q in Q0.
        rewrite Qmult_0_l in Q0. exact Q0. }
      assert (Sp : (0 <= span)%Q)
        by (unfold span, float, Qle; simpl; unfold size; lia).
      assert (Sz : (float (- size) == - float size)%Q)
        by (unfold float; rewrite inject_Z_opp; reflexivity).
      assert (S0 : (0 <= float size)%Q)
        by (unfold float, Qle; simpl; unfold size; lia).
      pose proof (round64_error a) as E1.
      rewrite (Qabs_pos a A0) in E1. fold (round64 a) in E1.
      set (p := round64 (t * span)) in *.
      pose proof (round64_error (t * span)) as E2. fold p in E2.
      pose proof (round64_error (float (- size) + p)) as E3.
      assert (T0 : (0 <= t)%Q) by (rewrite Et; apply round64_nonneg, A0).
      assert (B0 : (0 <= t * span)%Q) by nra.
      rewrite (Qabs_pos (t * span) B0) in E2.
      assert (P0 : (0 <= p)%Q) by (apply round64_nonneg, B0).
      assert (N3 : (Qabs (float (- size) + p) <= float size + p)%Q).
      { apply Qabs_case; intros; lra. }
      rewrite <- Et in E1. rewrite <- Ey in E3.
      change (pow2 (-53)) with (1 # 9007199254740992)%Q in *.
      apply Qabs_Qle_condition in E1 as [E1a E1b].
      apply Qabs_Qle_condition in E2 as [E2a E2b].
      assert (E3' : (Qabs (y - (float (- size) + p))
                     <= (float size + p) * (1 # 9007199254740992))%Q).
      { eapply Qle_trans; [exact E3|]. apply Qmult_le_compat_r; [exact N3|].
        discriminate. }
      apply Qabs_Qle_condition in E3' as [E3a E3b].
      assert (M1 : (t * span <= a * span
                                + (1 # 9007199254740992) * (a * span))%Q)
        by nra.
      assert (M2 : (a * span - (1 # 9007199254740992) * (a * span)
                    <= t * span)%Q) by nra.
      assert (A1 : (0 <= a * span)%Q) by nra.
      apply Qabs_Qle_condition. split; lra. }
    split; [apply fall_y_floor; lia|].
    split; [apply fall_y_ceiling; lia|].
    split; [|split].
    + intros Hy. apply Skip. rewrite P.
      destruct (Qle_bool _ _) eqn:B; [|reflexivity].
      apply Qle_bool_iff in B. lra.
    + intros Hy. rewrite P.
      apply Qle_bool_iff in Hy. rewrite Hy. reflexivity.
    + intros f' y' Hff E'. rewrite heart_y_ok in E' by exact Hd.
      inversion E'; subst y'. apply fall_y_mono; [lia|].
      apply fquot_mono; fold k; lia.
  - intros Hk.
    assert (Hd : total_frames - k <> 0) by lia.
    rewrite heart_y_ok by exact Hd. fold k.
    eexists. split; [reflexivity|].
    assert (E : (fall_y height h
                   (fquot (total_frames - k) (total_frames - k))
                 == float (height + size))%Q).
    { rewrite (fall_y_proper _ _ _ 1 (fquot_same _ Hd)).
      apply fall_y_one; assumption. }
    split; [exact E|].
    intros Hp. apply Skip. unfold heart_position. fold k.
    replace (total_frames - k <? 0) with false
      by (symmetry; apply Z.ltb_ge; lia).
    rewrite heart_y_ok by exact Hd. fold k.
    destruct (Qle_bool _ _) eqn:B; [|reflexivity].
    apply Qle_bool_iff in B. rewrite E in B.
    unfold float, Qle in B. simpl in B. lia.
Qed.

Lemma heart_fall_schedule_witness :
  exists y,
    heart_y 75 720 14 (mkHeart 5 5 25) = Ok y /\ int y = 73
    /\ (y <= float (720 + 25))%Q.
Proof.
  destruct (@heart_fall_schedule Reference.pillow (fun _ => 0) 75 720 14
              (Image_new ModeRGBA 720 720 transparent) (mkHeart 5 5 25)
              Reference.fresh ltac:(lia) ltac:(simpl; lia) ltac:(lia))
    as (_ & _ & A & _).
  destruct (A ltac:(simpl; lia)) as (t & y & _ & _ & Hy & _ & _ & _ & U & _).
  exists y. split; [exact Hy|]. split; [|exact U].
  assert (C : exists c, heart_y 75 720 14 (mkHeart 5 5 25) = Ok c
                        /\ int c = 73).
  { eexists. split; vm_compute; reflexivity. }
  destruct C as (c & C & I). rewrite C in Hy. inversion Hy; subst y. exact I.
Defined.

(** C8, as stated, fails on the lower bound of the size: on a 720 pixel
    wide canvas the sizes are drawn from [21 .. 57], and 21 is below
    [0.03 * 720 = 21.6]. *)
Lemma heart_size_below_three_percent :
  exists hearts st',
    gen_hearts (fun _ => 0) heart_count 75 720 Reference.fresh
    = Ok (hearts, st')
    /\ Exists (fun h => ~ (float 720 * (3 # 100) <= float (h_size h))%Q)
              hearts.
Proof.
  eexists _, _. split; [vm_compute; reflexivity|].
  apply Exists_cons_hd. simpl. unfold Qle. simpl. lia.
Qed.

(** C8, amended.  Every heart generated for a run satisfies
    [0 <= start <= total_frames / 2], [0 <= x <= width] and
    [int(0.03 * width) <= size <= int(0.08 * width)], so that
    [0.03 * width - 1 < size <= 0.08 * width]; exactly 15 hearts are
    generated (and they are, whenever the frame count and the width are
    not negative).  They are generated once: every frame a run returns
    is rendered from that same list. *)
Theorem hearts_generated_in_range {pil : Pillow} {host : Host}
        (entropy : nat -> Z) (total_frames width : Z) (st : RunState) :
  (forall hearts st1,
      gen_hearts entropy heart_count total_frames width st
      = Ok (hearts, st1) ->
      List.length hearts = 15%nat
      /\ Forall (fun h =>
                   0 <= h_start h <= total_frames / 2
                   /\ (float (h_start h) <= float total_frames / 2)%Q
                   /\ 0 <= h_x h <= width
                   /\ int (float width * (3 # 100)) <= h_size h
                      <= int (float width * (8 # 100))
                   /\ (float width * (3 # 100) - 1 < float (h_size h))%Q
                   /\ (float (h_size h) <= float width * (8 # 100))%Q)
                hearts)
  /\ (0 <= total_frames -> 0 <= width ->
      exists hearts st1,
        gen_hearts entropy heart_count total_frames width st
        = Ok (hearts, st1))
  /\ (forall base_image message height fps duration frames st',
         total_frames = fps * duration ->
         generate_frames entropy base_image message width height fps duration
                         st = Ok (frames, st') ->
         exists hearts st1 bg font text_w msg_y,
           gen_hearts entropy heart_count total_frames width st
           = Ok (hearts, st1)
           /\ Forall2
                (fun idx fr =>
                   exists s s',
                     render_frame entropy bg message font hearts width
                       height total_frames text_w msg_y idx s
                     = Ok (fr, s'))
                (range total_frames) frames).
Proof.
  split; [|split].
  - intros hearts st1 G.
    pose proof (gen_hearts_inv entropy _ _ _ _ _ _ G) as (Len & F & _).
    split; [exact Len|].
    eapply List.Forall_impl; [|exact F]. intros h Hh.
    pose proof (heart_ok_total _ _ _ Hh) as [Ht Hw].
    destruct Hh as ((A & B) & C & D & E).
    assert (Q8 : (0 <= float width * (8 # 100))%Q).
    { unfold float, Qle; simpl. lia. }
    pose proof (int_within_one (float width * (3 # 100))) as [_ L3].
    pose proof (int_floor _ Q8) as [_ L8].
    assert (S3 : (float (int (float width * (3 # 100))) <= float (h_size h))%Q).
    { unfold float. rewrite <- Zle_Qle. exact D. }
    assert (S8 : (float (h_size h) <= float (int (float width * (8 # 100))))%Q).
    { unfold float. rewrite <- Zle_Qle. exact E. }
    assert (St : (float (h_start h) <= float total_frames / 2)%Q).
    { pose proof (Z.mul_div_le total_frames 2 ltac:(lia)).
      unfold float, Qle, Qdiv; simpl. lia. }
    split; [lia|]. split; [exact St|]. split; [lia|]. split; [lia|].
    split; lra.
  - intros Ht Hw. apply gen_hearts_succeeds; assumption.
  - intros base_image message height fps duration frames st' -> H.
    pose proof (generate_frames_ok_inv entropy _ _ _ _ _ _ _ _ _ H)
      as (bg & font & extent & R & L & T & Ht & _).
    destruct (generate_frames_run entropy base_image message width height fps
                duration st bg font extent Ht R L T)
      as (hearts & st1 & frames' & st'' & G & C & E & _).
    rewrite E in H. inversion H; subst frames' st''.
    exists hearts, st1, bg, font, (fst extent),
           (int (float height * (5 # 100))).
    split; [exact G|]. eapply collect_ok; eauto.
Qed.

Lemma hearts_generated_in_range_witness :
  exists hearts st1,
    gen_hearts (fun n => Z.of_nat n * 7919) heart_count 75 720 Reference.fresh
    = Ok (hearts, st1)
    /\ List.length hearts = 15%nat.
Proof.
  destruct (@hearts_generated_in_range Reference.pillow Reference.bare_host
              (fun n => Z.of_nat n * 7919) 75 720 Reference.fresh)
    as (A & B & _).
  destruct B as (hearts & st1 & G); [lia|lia|].
  exists hearts, st1. split; [exact G|]. exact (proj1 (A hearts st1 G)).
Defined.



(** C2, as stated, fails when the requested canvas is not a raster
    size: with [fps = 1] and [duration = 1] but [width = -1] the run
    raises [ValueError] and returns no frames. *)
Lemma generate_frames_rejects_negative_width :
  0 <= 1
  /\ @generate_frames Reference.pillow Reference.bare_host (fun _ => 0)
       Reference.red_square (py "Hi") (-1) 100 1 1 Reference.fresh
     = Raise ValueError.
Proof. split; [lia|reflexivity]. Qed.

(** C2, amended.  For every background image, caption and parameters
    with [fps >= 0] and [duration >= 0] for which Pillow resizes the
    background to the requested canvas and measures the caption in the
    loaded font, [generate_frames] returns a list of exactly
    [fps * duration] frames; the frame at position [i] is the one
    rendered for frame index [i]; each is an opaque RGB raster of the
    requested width and height.  With [fps = 15] and [duration = 5] there
    are 75 frames. *)
Theorem generate_frames_returns_all_frames {pil : Pillow} {host : Host}
        (entropy : nat -> Z) (base_image : Image) (message : pystr)
        (width height fps duration : Z) (st : RunState)
        (bg : Image) (font : Font) (extent : Z * Z) :
  0 <= fps -> 0 <= duration ->
  Image_resize (convert_RGBA base_image) width height = Ok bg ->
  load_font (int (float height * (6 # 100))) = Ok font ->
  ImageDraw_textsize message font = Ok extent ->
  exists frames st',
    generate_frames entropy base_image message width height fps duration st
    = Ok (frames, st')
    /\ Z.of_nat (List.length frames) = fps * duration
    /\ Forall (opaque_frame width height) frames
    /\ (exists hearts,
           Forall2
             (fun idx fr =>
                exists s s',
                  render_frame entropy bg message font hearts width height
                    (fps * duration) (fst extent)
                    (int (float height * (5 # 100))) idx s = Ok (fr, s'))
             (range (fps * duration)) frames)
    /\ (fps = 15 -> duration = 5 -> List.length frames = 75%nat).
Proof.
  intros Hf Hd R L T.
  destruct (generate_frames_run entropy base_image message width height fps
              duration st bg font extent ltac:(nia) R L T)
    as (hearts & st1 & frames & st' & _ & C & E & Len & O & _).
  exists frames, st'. split; [exact E|]. split; [exact Len|].
  split; [exact O|]. split.
  - exists hearts. eapply collect_ok; eauto.
  - intros -> ->. lia.
Qed.

Lemma generate_frames_returns_all_frames_witness :
  exists frames st',
    @generate_frames Reference.pillow Reference.bare_host
      (fun n => Z.of_nat n * 7919) Reference.red_square (py "Hi") 100 100 1 1
      Reference.fresh = Ok (frames, st')
    /\ List.length frames = 1%nat
    /\ Forall (opaque_frame 100 100) frames.
Proof.
  destruct (@generate_frames_returns_all_frames Reference.pillow
              Reference.bare_host (fun n => Z.of_nat n * 7919)
              Reference.red_square (py "Hi") 100 100 1 1 Reference.fresh
              _ _ _ ltac:(lia) ltac:(lia) eq_refl eq_refl eq_refl)
    as (frames & st' & E & Len & O & _).
  exists frames, st'. split; [exact E|]. split; [lia|exact O].
Defined.

(** ** Runs without drift *)

Lemma run_is_still {pil : Pillow} {host : Host} (entropy : nat -> Z)
      (base_image : Image) (message : pystr)
      (width height fps duration : Z) (st : RunState) hearts st1 :
  gen_hearts entropy heart_count (fps * duration) width st
  = Ok (hearts, st1) ->
  no_drift entropy (rng_cursor st1) hearts ->
  frames_of (generate_frames entropy base_image message width height fps
                             duration st)
  = match Image_resize (convert_RGBA base_image) width height,
          load_font (int (float height * (6 # 100))) with
    | Ok bg, Ok font =>
        match ImageDraw_textsize message font with
        | Ok extent =>
            still_frames bg message font hearts width height
              (fps * duration) (fst extent)
              (int (float height * (5 # 100)))
        | Raise e => Raise e
        end
    | Raise e, _ => Raise e
    | _, Raise e => Raise e
    end.
Proof.
  intros G N.
  destruct (Image_resize (convert_RGBA base_image) width height)
    as [bg|e] eqn:R.
  - pose proof (gen_hearts_inv entropy _ _ _ _ _ _ G) as (Len & F & _).
    assert (Ht : 0 <= fps * duration).
    { destruct hearts as [|h hs]; [discriminate Len|].
      inversion F as [|? ? Fh _]; subst.
      apply heart_ok_total in Fh as [Ht _]. exact Ht. }
    destruct (try_paths_total font_paths (int (float height * (6 # 100))))
      as (font & L). fold (load_font (int (float height * (6 # 100)))) in L.
    rewrite L.
    destruct (ImageDraw_textsize message font) as [extent|e] eqn:T.
    + destruct (generate_frames_run entropy base_image message width height
                  fps duration st bg font extent Ht R L T)
        as (hearts' & st1' & frames & st' & G' & _ & E & _ & _ & S).
      rewrite G in G'. inversion G'; subst hearts' st1'.
      rewrite E. simpl. symmetry. apply S, N.
    + unfold generate_frames, bind, lift. rewrite R, G.
      unfold cache_clear. rewrite L, T. reflexivity.
  - unfold generate_frames, bind, lift. rewrite R. reflexivity.
Qed.

(** C9.  With every drift equal to zero frame generation is
    deterministic: two runs on the same background, caption and
    dimensions (and the same host) whose random sources yield the same
    hearts and no drift return the same sequence of frames, pixel for
    pixel, whatever else the two random sources produce and whatever
    state each run starts in. *)
Theorem frames_deterministic_without_drift {pil : Pillow} {host : Host}
        (entropy1 entropy2 : nat -> Z) (base_image : Image)
        (message : pystr) (width height fps duration : Z)
        (st1 st2 : RunState) (hearts : list Heart) (s1 s2 : RunState) :
  gen_hearts entropy1 heart_count (fps * duration) width st1
  = Ok (hearts, s1) ->
  gen_hearts entropy2 heart_count (fps * duration) width st2
  = Ok (hearts, s2) ->
  no_drift entropy1 (rng_cursor s1) hearts ->
  no_drift entropy2 (rng_cursor s2) hearts ->
  frames_of (generate_frames entropy1 base_image message width height fps
                             duration st1)
  = frames_of (generate_frames entropy2 base_image message width height fps
                               duration st2).
Proof.
  intros G1 G2 N1 N2.
  rewrite (run_is_still entropy1 _ _ _ _ _ _ _ _ _ G1 N1).
  rewrite (run_is_still entropy2 _ _ _ _ _ _ _ _ _ G2 N2).
  reflexivity.
Qed.

Lemma frames_deterministic_without_drift_witness :
  frames_of (@generate_frames Reference.pillow Reference.bare_host
               (fun _ => 2 ^ 52) Reference.red_square (py "Hi") 720 720 15 5
               Reference.fresh)
  = frames_of (@generate_frames Reference.pillow Reference.bare_host
                 (fun n => if (n <? 45)%nat then 2 ^ 52 else 2 ^ 52 + 1)
                 Reference.red_square (py "Hi") 720 720 15 5
                 (mkState 0 ∅ 7)).
Proof.
  eapply (@frames_deterministic_without_drift Reference.pillow
            Reference.bare_host (fun _ => 2 ^ 52)
            (fun n => if (n <? 45)%nat then 2 ^ 52 else 2 ^ 52 + 1)).
  - vm_compute. reflexivity.
  - vm_compute. reflexivity.
  - intros n h _ Hin. simpl in Hin.
    repeat (destruct Hin as [<-|Hin]; [vm_compute; reflexivity|]).
    destruct Hin.
  - intros n h Hn Hin. simpl in Hn.
    replace (n <? 45)%nat with false
      by (symmetry; apply Nat.ltb_ge; exact Hn).
    simpl in Hin.
    repeat (destruct Hin as [<-|Hin]; [vm_compute; reflexivity|]).
    destruct Hin.
Defined.

(** ** Compositing the hearts of a frame *)

Lemma heart_position_at_start (total_frames height : Z) (h : Heart) y :
  0 <= h_size h < 2 ^ 53 ->
  heart_position total_frames height (h_start h) h = Ok (Some y) ->
  int y = - h_size h.
Proof.
  intros Hs. unfold heart_position, heart_y, truediv.
  rewrite Z.sub_diag. simpl.
  destruct (total_frames - h_start h =? 0); [discriminate|].
  destruct (negb _); [discriminate|].
  intros H. inversion H; subst. apply int_Qeq.
  rewrite (fall_y_proper _ _ _ 0 (fquot_zero _)).
  apply fall_y_zero. lia.
Qed.

(** A loop over two lists in a row is the loop over the first followed
    by the loop over the second. *)
Lemma for_each_app {A B} (body : B -> A -> M B) (xs ys : list A) :
  forall acc st,
    for_each body (xs ++ ys) acc st
    = (let* mid := for_each body xs acc in for_each body ys mid) st.
Proof.
  induction xs as [|x xs IH]; intros acc st; [reflexivity|].
  cbn [for_each app]. unfold bind.
  destruct (body acc x st) as [[acc1 st1]|e]; [|reflexivity].
  rewrite IH. unfold bind. reflexivity.
Qed.

Lemma drawable_fit (total_frames : Z) (hearts : list Heart) :
  Forall (drawable total_frames) hearts ->
  Forall (fun h => 0 <= h_size h /\ h_start h < total_frames) hearts.
Proof.
  intros F. eapply List.Forall_impl; [|exact F].
  intros h (S & _ & K). split; [lia|exact K].
Qed.

(** The hearts generated for a canvas Pillow accepts can be drawn. *)
Lemma heart_ok_drawable (total_frames width : Z) (h : Heart) :
  1 <= total_frames -> width < 2 ^ 31 ->
  heart_ok total_frames width h -> drawable total_frames h.
Proof.
  intros Ht Hw Hh.
  pose proof (heart_ok_fit total_frames width h Ht Hh) as (S0 & K & _).
  pose proof (heart_ok_total _ _ _ Hh) as [_ W0].
  destruct Hh as (_ & X & _ & S8).
  rewrite int_scale in S8. rewrite Z.quot_div_nonneg in S8 by lia.
  assert (width * 8 / 100 <= width).
  { apply Z.div_le_upper_bound; lia. }
  unfold drawable. lia.
Qed.

(** C1.  In the computation of a frame every heart of the list gets its
    turn, in order, on the canvas the hearts before it have left, and
    the frame is what the last turn leaves, flattened.  A heart that is
    not active leaves the canvas as it is.  A heart that is active (it
    has started and its [y] does not exceed [height]) has its sprite
    fetched and alpha-composited onto the canvas with destination
    top-left [(x - size/2 + drift, y)], both cut to whole pixels by
    [int], hence less than one pixel from those values; the column is
    computed without rounding error.  The step succeeds wherever the
    destination lies, negative coordinates included (at the start frame
    the destination row is [-size]): the canvas keeps its size, pixels
    of the canvas under the sprite are blended, the others are
    unchanged, and the part of the sprite outside the canvas is
    dropped.  The frame computation does not fail.  Hypotheses are what
    holds in a run: an RGBA background, a caption the font has measured,
    hearts of a canvas below 2^31 pixels starting before the last frame,
    a cache holding hearts. *)
Theorem active_heart_composited_clipped {pil : Pillow} {host : Host}
        (entropy : nat -> Z) (bg : Image) (message : pystr) (font : Font)
        (hearts : list Heart)
        (width height total_frames text_w msg_y f : Z) (st : RunState) :
  im_mode bg = ModeRGBA ->
  encodes font message = true ->
  Forall (drawable total_frames) hearts ->
  cache_ok st ->
  let captioned :=
    draw_caption (Image_copy bg) message font width text_w msg_y in
  let step := draw_heart entropy total_frames height f in
  exists canvas st',
    render_frame entropy bg message font hearts width height total_frames
                 text_w msg_y f st = Ok (convert_RGB canvas, st')
    /\ for_each step hearts captioned st = Ok (canvas, st')
    /\ im_width canvas = im_width bg /\ im_height canvas = im_height bg
    /\ forall before h after,
         hearts = before ++ h :: after ->
         exists under s over s',
           for_each step before captioned st = Ok (under, s)
           /\ step under h s = Ok (over, s')
           /\ for_each step after over s' = Ok (canvas, st')
           /\ im_width under = im_width bg
           /\ im_height under = im_height bg
           /\ (heart_position total_frames height f h = Ok None ->
               over = under /\ s' = s)
           /\ forall y,
                heart_position total_frames height f h = Ok (Some y) ->
                let drift :=
                  drift_of (h_size h) (fraction (entropy (rng_cursor s))) in
                let exact_x :=
                  (float (h_x h) - float (h_size h) / 2 + float drift)%Q in
                let dest_x := int exact_x in
                let dest_y := int y in
                exists sp,
                  heart_cache s' !! h_size h = Some sp
                  /\ create_heart (h_size h) heart_color
                     = Ok (sprite_img sp)
                  /\ alpha_composite under (sprite_img sp) (dest_x, dest_y)
                     = Ok over
                  /\ dest_x_of h drift = dest_x
                  /\ (Qabs (float dest_x - exact_x) < 1)%Q
                  /\ (Qabs (float dest_y - y) < 1)%Q
                  /\ (f = h_start h -> dest_y = - h_size h)
                  /\ (forall px py,
                         im_pixel over px py
                         = if in_bounds under px py
                              && in_bounds (sprite_img sp)
                                   (px - dest_x) (py - dest_y)
                           then blend_over (im_pixel under px py)
                                  (im_pixel (sprite_img sp)
                                     (px - dest_x) (py - dest_y))
                           else im_pixel under px py)
                  /\ (forall px py,
                         in_bounds under px py = false ->
                         getpixel over px py = None).
Proof.
  intros Hm _ Hd Hc captioned step.
  pose proof (drawable_fit _ _ Hd) as Hfit.
  assert (Shape : im_mode captioned = ModeRGBA
                  /\ im_width captioned = im_width bg
                  /\ im_height captioned = im_height bg).
  { destruct (draw_caption_shape (Image_copy bg) message font width
                                 text_w msg_y) as (Mc & Wc & Hcp).
    unfold captioned. rewrite Mc, Wc, Hcp. simpl. auto. }
  destruct Shape as (Mcap & Wc & Hcp).
  destruct (hearts_loop_run entropy total_frames height f hearts Hfit
              captioned st Mcap Hc)
    as (canvas & st' & L & _ & Wcv & Hcv & _).
  fold step in L.
  exists canvas, st'.
  split.
  { unfold render_frame. fold captioned. fold step.
    rewrite (bind_step _ _ _ _ _ L). reflexivity. }
  split; [exact L|]. split; [congruence|]. split; [congruence|].
  intros before h after E. subst hearts.
  apply Forall_app in Hfit as [Fb Fa].
  inversion Fa as [|? ? [Hs0 Hk] Fa']; subst.
  apply Forall_app in Hd as [_ Dh].
  inversion Dh as [|? ? (Hs & Hx & _) _]; subst.
  destruct (hearts_loop_run entropy total_frames height f before Fb
              captioned st Mcap Hc)
    as (under & s & Lb & Mu & Wu & Hu & Cu & _).
  destruct (draw_heart_run entropy total_frames height f under h s
              Mu Hs0 Hk Cu)
    as (over & s' & D & Mo & _ & _ & Co & _).
  destruct (hearts_loop_run entropy total_frames height f after Fa'
              over s' Mo Co)
    as (canvas' & st'' & La & _).
  fold step in Lb, D, La.
  assert (Whole : for_each step (before ++ h :: after) captioned st
                  = Ok (canvas', st'')).
  { rewrite for_each_app. rewrite (bind_step _ _ _ _ _ Lb).
    cbn [for_each]. rewrite (bind_step _ _ _ _ _ D). exact La. }
  rewrite L in Whole. inversion Whole; subst canvas' st''. clear Whole.
  exists under, s, over, s'.
  split; [exact Lb|]. split; [exact D|]. split; [exact La|].
  split; [congruence|]. split; [congruence|]. split.
  { intros P. unfold step in D.
    rewrite (draw_heart_skip entropy _ _ _ _ _ _ P) in D.
    inversion D. auto. }
  intros y P drift exact_x dest_x dest_y.
  destruct (draw_heart_active entropy _ _ _ _ _ _ _ Mu Hs0 Cu P)
    as (sp & s1 & out & G & C & A & D' & _).
  unfold step in D. rewrite D in D'. inversion D'; subst out s'. clear D'.
  destruct (get_heart_run (h_size h) s Hs0 Cu)
    as (sp' & s1' & G' & _ & _ & Lk & _).
  rewrite G in G'. inversion G'; subst sp' s1'. clear G'.
  destruct (fraction_unit (entropy (rng_cursor s))) as [U0 U1].
  pose proof (drift_range (h_size h) (fraction (entropy (rng_cursor s)))
                ltac:(lia) U0 U1) as Dr.
  fold drift in Dr, A.
  pose proof (dest_x_exact h drift Hs Hx ltac:(lia)) as Ex.
  fold exact_x in Ex. fold dest_x in Ex.
  rewrite Ex in A. fold dest_y in A.
  destruct (create_heart_ok (h_size h) heart_color Hs0)
    as (img & C' & Mi & _).
  rewrite C in C'. inversion C'; subst img.
  destruct (alpha_composite_rgba under (sprite_img sp) (dest_x, dest_y)
              Mu Mi) as (out & A' & _ & Wo & Ho & Px).
  rewrite A in A'. inversion A'; subst out. clear A'.
  exists sp.
  split; [exact Lk|]. split; [exact C|]. split; [exact A|].
  split; [exact Ex|].
  split.
  { pose proof (int_within_one exact_x) as [Lo Up]. fold dest_x in Lo, Up.
    apply Qabs_Qlt_condition. split; lra. }
  split.
  { pose proof (int_within_one y) as [Lo Up]. fold dest_y in Lo, Up.
    apply Qabs_Qlt_condition. split; lra. }
  split.
  { intros ->. apply (heart_position_at_start total_frames height h y);
      [lia|exact P]. }
  split; [exact Px|].
  intros px py B. unfold getpixel, in_bounds in *. rewrite Wo, Ho, B.
  reflexivity.
Qed.

Lemma active_heart_composited_clipped_witness :
  exists canvas st',
    @render_frame Reference.pillow (fun _ => 0)
      (Image_new ModeRGBA 10 10 transparent) (py "Hi") DefaultBitmap
      [mkHeart 0 5 3; mkHeart 1 2 4] 10 10 4 12 0 2 Reference.fresh
    = Ok (convert_RGB canvas, st')
    /\ im_width canvas = 10 /\ im_height canvas = 10.
Proof.
  destruct (@active_heart_composited_clipped Reference.pillow
              Reference.bare_host (fun _ => 0)
              (Image_new ModeRGBA 10 10 transparent) (py "Hi") DefaultBitmap
              [mkHeart 0 5 3; mkHeart 1 2 4] 10 10 4 12 0 2 Reference.fresh)
    as (canvas & st' & R & _ & W & H & _).
  - reflexivity.
  - reflexivity.
  - repeat constructor; simpl; lia.
  - apply (cache_ok_cleared Reference.fresh).
  - exists canvas, st'. split; [exact R|]. split; [exact W|exact H].
Defined.

(* ================================================================== *)
(** * Further properties of the generator *)

(** X1.  The horizontal drift of a heart of size [size], for a size
    whose tenth part the floats still tell apart ([size < 2^52]; the
    sizes of a run are below 2^31), is at most a tenth of its size
    either way, whatever [random.random()] returns; it is zero for sizes
    below 10, so that a run on a canvas narrower than 125 pixels never
    drifts. *)
Theorem drift_within_tenth_of_size (size d : Z) :
  0 <= size < 2 ^ 52 ->
  - size <= 10 * drift_of size (fraction d) <= size
  /\ (size < 10 -> drift_of size (fraction d) = 0)
  /\ (forall total_frames width h,
         heart_ok total_frames width h -> h_size h = size -> width < 125 ->
         drift_of size (fraction d) = 0).
Proof.
  intros Hs. destruct (fraction_unit d) as [U0 U1].
  pose proof (drift_range size (fraction d) Hs U0 U1) as B.
  split; [exact B|]. split; [lia|].
  intros total_frames width h Hh E Hw.
  pose proof (heart_ok_total _ _ _ Hh) as [_ W0].
  destruct Hh as (_ & _ & _ & S8).
  rewrite int_scale in S8. rewrite Z.quot_div_nonneg in S8 by lia.
  assert (width * 8 / 100 <= 9).
  { apply Z.lt_succ_r. apply Z.div_lt_upper_bound; lia. }
  lia.
Qed.

Lemma drift_within_tenth_of_size_witness :
  - 57 <= 10 * drift_of 57 (fraction 0) <= 57.
Proof.
  apply (proj1 (drift_within_tenth_of_size 57 0 ltac:(lia))).
Defined.

(** X2.  An active heart is composited next to where it is anchored:
    its destination column lies in [x - size .. x] and its destination
    row in [-size .. height], so the sprite is never further than its
    own size left of its anchor or above the canvas, and never starts
    right of the anchor or below the bottom edge. *)
Theorem destination_near_anchor (total_frames height f : Z) (h : Heart)
        (y : Q) (d : Z) :
  drawable total_frames h -> 0 <= height ->
  heart_position total_frames height f h = Ok (Some y) ->
  h_x h - h_size h
  <= dest_x_of h (drift_of (h_size h) (fraction d)) <= h_x h
  /\ - h_size h <= int y <= height.
Proof.
  intros (Hs & Hx & Hk) Hh P. split.
  - destruct (fraction_unit d) as [U0 U1].
    pose proof (drift_range (h_size h) (fraction d) ltac:(lia) U0 U1)
      as [D1 D2].
    set (dr := drift_of (h_size h) (fraction d)) in *.
    rewrite (dest_x_exact h dr Hs Hx ltac:(lia)). apply int_between.
    + assert (A : (- float (h_size h) <= 10 * float dr)%Q).
      { unfold float, Qle. simpl. lia. }
      assert (S0 : (0 <= float (h_size h))%Q)
        by (unfold float, Qle; simpl; lia).
      unfold float at 1. unfold Z.sub. rewrite inject_Z_plus, inject_Z_opp.
      fold (float (h_x h)) (float (h_size h)).
      unfold Qdiv. change (/ 2)%Q with (1 # 2)%Q. lra.
    + assert (A : (10 * float dr <= float (h_size h))%Q).
      { unfold float, Qle. simpl. lia. }
      assert (S0 : (0 <= float (h_size h))%Q)
        by (unfold float, Qle; simpl; lia).
      unfold Qdiv. change (/ 2)%Q with (1 # 2)%Q. lra.
  - unfold heart_position in P.
    destruct (f - h_start h <? 0) eqn:R; [discriminate|].
    apply Z.ltb_ge in R.
    rewrite heart_y_ok in P by lia.
    destruct (Qle_bool _ _) eqn:B; [|discriminate].
    simpl in P. inversion P; subst y. clear P.
    apply Qle_bool_iff in B.
    apply int_between; [|exact B].
    apply fall_y_floor; lia.
Qed.

Lemma destination_near_anchor_witness :
  5 - 21 <= dest_x_of (mkHeart 10 5 21) (drift_of 21 (fraction 0)) <= 5
  /\ exists y, heart_position 75 720 10 (mkHeart 10 5 21) = Ok (Some y)
               /\ - 21 <= int y <= 720.
Proof.
  assert (P : exists y,
             heart_position 75 720 10 (mkHeart 10 5 21) = Ok (Some y)).
  { eexists. vm_compute. reflexivity. }
  destruct P as (y & P).
  destruct (destination_near_anchor 75 720 10 (mkHeart 10 5 21) y 0)
    as (X & Y).
  - unfold drawable. simpl. lia.
  - lia.
  - exact P.
  - split; [exact X|]. exists y. split; [exact P|exact Y].
Defined.

(** X3.  A heart never climbs: from its start frame on its [y] does
    not decrease from one frame to a later one, and once it has been
    skipped for having fallen past the bottom it is skipped at every
    later frame. *)
Theorem fallen_heart_stays_skipped (total_frames height f f' : Z)
        (h : Heart) :
  0 <= h_size h -> 0 <= height -> h_start h < total_frames ->
  h_start h <= f <= f' ->
  (forall y y',
      heart_y total_frames height f h = Ok y ->
      heart_y total_frames height f' h = Ok y' -> (y <= y')%Q)
  /\ (heart_position total_frames height f h = Ok None ->
      heart_position total_frames height f' h = Ok None).
Proof.
  intros Hs Hh Hk [Hf Hf'].
  assert (M : (fall_y height h
                 (fquot (f - h_start h) (total_frames - h_start h))
               <= fall_y height h
                    (fquot (f' - h_start h) (total_frames - h_start h)))%Q).
  { apply fall_y_mono; [lia|]. apply fquot_mono; lia. }
  split.
  - intros y y'. rewrite !heart_y_ok by lia.
    intros E E'. inversion E; inversion E'; subst. exact M.
  - unfold heart_position.
    replace (f - h_start h <? 0) with false
      by (symmetry; apply Z.ltb_ge; lia).
    replace (f' - h_start h <? 0) with false
      by (symmetry; apply Z.ltb_ge; lia).
    rewrite !heart_y_ok by lia.
    destruct (Qle_bool (fall_y height h
                          (fquot (f - h_start h)
                                 (total_frames - h_start h)))
                       (float height)) eqn:B; [discriminate|].
    intros _.
    destruct (Qle_bool (fall_y height h
                          (fquot (f' - h_start h)
                                 (total_frames - h_start h)))
                       (float height)) eqn:B'; [|reflexivity].
    apply Qle_bool_iff in B'.
    assert (Qle_bool (fall_y height h
                        (fquot (f - h_start h)
                               (total_frames - h_start h)))
                     (float height) = true)
      by (apply Qle_bool_iff; lra).
    congruence.
Qed.

Lemma fallen_heart_stays_skipped_witness :
  heart_position 75 720 74 (mkHeart 10 5 57) = Ok None.
Proof.
  apply (proj2 (fallen_heart_stays_skipped 75 720 71 74 (mkHeart 10 5 57)
                  ltac:(simpl; lia) ltac:(lia) ltac:(simpl; lia)
                  ltac:(simpl; lia))).
  vm_compute. reflexivity.
Defined.



Lemma try_paths_result {host : Host} (paths : list string) (size : Z)
      (font : Font) :
  try_paths paths size = Ok font ->
  (font = DefaultBitmap
   /\ forall p, In p paths -> resolves size p = false)
  \/ (exists pre p post,
         paths = pre ++ p :: post
         /\ font = TrueType p size
         /\ resolves size p = true
         /\ forall q, In q pre -> resolves size q = false).
Proof.
  induction paths as [|p ps IH]; simpl; intros H.
  - inversion H. left. split; [reflexivity|]. intros p [].
  - unfold ImageFont_truetype in H.
    destruct (isfile p) eqn:F; [destruct (truetype_opens p size) eqn:T|].
    + inversion H. right. exists [], p, ps.
      repeat split; auto.
      * unfold resolves. rewrite F, T. reflexivity.
      * intros q [].
    + destruct (IH H) as [[-> N]|(pre & q & post & -> & -> & R & N)].
      * left. split; [reflexivity|]. intros q [<-|Hq]; [|auto].
        unfold resolves. rewrite F, T. reflexivity.
      * right. exists (p :: pre), q, post. repeat split; auto.
        intros q' [<-|Hq]; [|auto].
        unfold resolves. rewrite F, T. reflexivity.
    + destruct (IH H) as [[-> N]|(pre & q & post & -> & -> & R & N)].
      * left. split; [reflexivity|]. intros q [<-|Hq]; [|auto].
        unfold resolves. rewrite F. reflexivity.
      * right. exists (p :: pre), q, post. repeat split; auto.
        intros q' [<-|Hq]; [|auto].
        unfold resolves. rewrite F. reflexivity.
Qed.

(** X5.  Whatever [load_font] returns is accounted for: the built-in
    default font is returned only when no candidate path is a file that
    loads, and a TrueType font is always one of the three candidates, at
    the size asked for, existing and loadable, every candidate before it
    having failed. *)
Theorem load_font_result {host : Host} (size : Z) (font : Font) :
  load_font size = Ok font ->
  (font = DefaultBitmap
   /\ forall p, In p font_paths -> resolves size p = false)
  \/ (exists pre p post,
         font_paths = pre ++ p :: post
         /\ font = TrueType p size
         /\ In p font_paths
         /\ isfile p = true /\ truetype_opens p size = true
         /\ forall q, In q pre -> resolves size q = false).
Proof.
  intros H. apply try_paths_result in H
    as [H|(pre & p & post & E & -> & R & N)]; [left; exact H|].
  right. exists pre, p, post.
  unfold resolves in R. apply andb_prop in R as [F T].
  repeat split; auto.
  rewrite E. apply in_or_app. right. left. reflexivity.
Qed.

Lemma load_font_result_witness :
  In "/usr/share/fonts/truetype/dejavu/DejaVuSans-Bold.ttf"%string font_paths.
Proof.
  destruct (@load_font_result Reference.full_host 43
              (TrueType "/usr/share/fonts/truetype/dejavu/DejaVuSans-Bold.ttf"
                        43) eq_refl)
    as [[D _]|(pre & p & post & _ & E & I & _)].
  - discriminate D.
  - inversion E; subst p. exact I.
Defined.

(** ** The cache does not show *)

Section CacheTransparency.
Context {pil : Pillow} {host : Host}.
Variable entropy : nat -> Z.

Lemma draw_heart_any_cache (total_frames height f : Z) frame h st st' :
  im_mode frame = ModeRGBA -> 0 <= h_size h -> h_start h < total_frames ->
  cache_ok st -> cache_ok st' -> rng_cursor st = rng_cursor st' ->
  exists fr s1 s2,
    draw_heart entropy total_frames height f frame h st = Ok (fr, s1)
    /\ draw_heart entropy total_frames height f frame h st' = Ok (fr, s2)
    /\ im_mode fr = ModeRGBA
    /\ cache_ok s1 /\ cache_ok s2 /\ rng_cursor s1 = rng_cursor s2.
Proof.
  intros Hm Hs Hk Hc Hc' Hcur.
  destruct (heart_position_defined total_frames height f h Hk)
    as ([y|] & P).
  - destruct (draw_heart_active entropy _ _ _ _ _ _ _ Hm Hs Hc P)
      as (sp & st1 & out & _ & C & A & D & K & Hc1 & _).
    destruct (draw_heart_active entropy _ _ _ _ _ _ _ Hm Hs Hc' P)
      as (sp' & st1' & out' & _ & C' & A' & D' & K' & Hc1' & _).
    rewrite C in C'. inversion C' as [Eimg].
    rewrite <- Eimg, <- Hcur, A in A'. inversion A'; subst out'.
    destruct (create_heart_ok (h_size h) heart_color Hs)
      as (img & Ci & Mi & _).
    rewrite C in Ci. inversion Ci; subst img.
    destruct (alpha_composite_rgba frame (sprite_img sp)
                (dest_x_of h (drift_of (h_size h)
                                (fraction (entropy (rng_cursor st)))),
                 int y) Hm Mi) as (o & Ao & Mo & _).
    rewrite A in Ao. inversion Ao; subst o.
    exists out, (advance st1), (advance st1').
    repeat split; auto. simpl. congruence.
  - exists frame, st, st'.
    rewrite !(draw_heart_skip entropy _ _ _ _ _ _ P). repeat split; auto.
Qed.

Lemma hearts_loop_any_cache (total_frames height f : Z)
      (hearts : list Heart) :
  Forall (fun h => 0 <= h_size h /\ h_start h < total_frames) hearts ->
  forall frame st st',
    im_mode frame = ModeRGBA ->
    cache_ok st -> cache_ok st' -> rng_cursor st = rng_cursor st' ->
    exists fr s1 s2,
      for_each (draw_heart entropy total_frames height f) hearts frame st
      = Ok (fr, s1)
      /\ for_each (draw_heart entropy total_frames height f) hearts frame st'
         = Ok (fr, s2)
      /\ cache_ok s1 /\ cache_ok s2 /\ rng_cursor s1 = rng_cursor s2.
Proof.
  induction 1 as [|h hs [Hs Hk] _ IH]; intros frame st st' Hm Hc Hc' Hcur.
  - exists frame, st, st'. simpl. repeat split; auto.
  - destruct (draw_heart_any_cache total_frames height f frame h st st'
                Hm Hs Hk Hc Hc' Hcur)
      as (fr & s1 & s2 & D & D' & M & C1 & C2 & K).
    destruct (IH fr s1 s2 M C1 C2 K) as (fr' & t1 & t2 & E & E' & R).
    exists fr', t1, t2. cbn [for_each].
    rewrite (bind_step _ _ _ _ _ D), (bind_step _ _ _ _ _ D').
    auto.
Qed.

(** X6.  What is in the sprite cache never shows in the output: from
    two states that agree on the position in the random stream, whatever
    sprites each has cached and however many rasterizer calls each has
    counted, the frame loop returns the same frames, pixel for pixel, and
    leaves the random stream at the same position. *)
Theorem cache_never_changes_frames (bg : Image) (message : pystr)
        (font : Font) (hearts : list Heart)
        (width height total_frames text_w msg_y : Z) (idxs : list Z)
        (st st' : RunState) :
  im_mode bg = ModeRGBA ->
  Forall (fun h => 0 <= h_size h /\ h_start h < total_frames) hearts ->
  cache_ok st -> cache_ok st' -> rng_cursor st = rng_cursor st' ->
  exists frames s1 s2,
    collect (render_frame entropy bg message font hearts width height
                          total_frames text_w msg_y) idxs st
    = Ok (frames, s1)
    /\ collect (render_frame entropy bg message font hearts width height
                             total_frames text_w msg_y) idxs st'
       = Ok (frames, s2)
    /\ rng_cursor s1 = rng_cursor s2.
Proof.
  intros Hm Hh. revert st st'.
  assert (Step : forall f st st',
             cache_ok st -> cache_ok st' -> rng_cursor st = rng_cursor st' ->
             exists fr s1 s2,
               render_frame entropy bg message font hearts width height
                            total_frames text_w msg_y f st = Ok (fr, s1)
               /\ render_frame entropy bg message font hearts width height
                               total_frames text_w msg_y f st' = Ok (fr, s2)
               /\ cache_ok s1 /\ cache_ok s2 /\ rng_cursor s1 = rng_cursor s2).
  { intros f st st' Hc Hc' Hcur.
    pose proof (draw_caption_shape (Image_copy bg) message font width
                                   text_w msg_y) as (Mc & _).
    destruct (hearts_loop_any_cache total_frames height f hearts Hh
                (draw_caption (Image_copy bg) message font width text_w msg_y)
                st st' ltac:(rewrite Mc; exact Hm) Hc Hc' Hcur)
      as (fr & s1 & s2 & E & E' & R).
    exists (convert_RGB fr), s1, s2. unfold render_frame.
    rewrite (bind_step _ _ _ _ _ E), (bind_step _ _ _ _ _ E'). auto. }
  induction idxs as [|i idxs IH]; intros st st' Hc Hc' Hcur.
  - exists [], st, st'. simpl. auto.
  - destruct (Step i st st' Hc Hc' Hcur)
      as (fr & s1 & s2 & E & E' & C1 & C2 & K).
    destruct (IH s1 s2 C1 C2 K) as (frs & t1 & t2 & F & F' & R).
    exists (fr :: frs), t1, t2. cbn [collect].
    rewrite (bind_step _ _ _ _ _ E), (bind_step _ _ _ _ _ E'),
            (bind_step _ _ _ _ _ F), (bind_step _ _ _ _ _ F').
    auto.
Qed.

End CacheTransparency.

Lemma cache_never_changes_frames_witness :
  let sprite :=
    match @create_heart Reference.pillow 3 heart_color with
    | Ok img => img
    | Raise _ => Image_new ModeRGBA 0 0 transparent
    end in
  let warm := mkState 0 {[ 3 := mkSprite 7 sprite ]} 9 in
  let bg := Image_new ModeRGBA 10 10 transparent in
  exists frames s1 s2,
    collect (@render_frame Reference.pillow (fun _ => 0) bg (py "Hi")
               DefaultBitmap [mkHeart 0 5 3] 10 10 2 12 0) [0; 1]
            Reference.fresh
    = Ok (frames, s1)
    /\ collect (@render_frame Reference.pillow (fun _ => 0) bg (py "Hi")
                  DefaultBitmap [mkHeart 0 5 3] 10 10 2 12 0) [0; 1] warm
       = Ok (frames, s2).
Proof.
  intros sprite warm bg.
  destruct (@cache_never_changes_frames Reference.pillow
              (fun _ => 0) bg (py "Hi") DefaultBitmap [mkHeart 0 5 3]
              10 10 2 12 0 [0; 1] Reference.fresh warm)
    as (frames & s1 & s2 & E & E' & _).
  - reflexivity.
  - constructor; [simpl; lia|constructor].
  - apply (cache_ok_cleared Reference.fresh).
  - intros k sp H. unfold warm in H. simpl in H.
    apply lookup_singleton_Some in H as [<- <-]. reflexivity.
  - reflexivity.
  - exists frames, s1, s2. auto.
Defined.

(** ** Rasterizer calls of a run *)

Section RasterizerCount.
Context {pil : Pillow} {host : Host}.
Variable entropy : nat -> Z.

Lemma get_heart_tracks (calls : nat) (sizes : list Z) size st sp st1 :
  get_heart size st = Ok (sp, st1) -> In size sizes ->
  cache_tracks calls sizes st -> cache_tracks calls sizes st1.
Proof.
  intros G Hin [T K].
  apply get_heart_inv in G as [[_ ->]|(E & _ & _ & ->)]; [split; auto|].
  split; simpl.
  - rewrite map_size_insert_None by exact E. lia.
  - intros k. rewrite lookup_insert.
    destruct (decide (size = k)) as [<-|N]; [auto|apply K].
Qed.

Lemma draw_heart_tracks (calls : nat) (sizes : list Z)
      (total_frames height f : Z) frame h st frame' st' :
  draw_heart entropy total_frames height f frame h st = Ok (frame', st') ->
  In (h_size h) sizes ->
  cache_tracks calls sizes st -> cache_tracks calls sizes st'.
Proof.
  unfold draw_heart. intros D Hin T.
  apply bind_ok in D as (pos & s0 & P & D).
  unfold lift in P.
  destruct (heart_position _ _ _ _) as [p|]; [|discriminate].
  inversion P; subst; clear P.
  destruct pos as [y|].
  - apply bind_ok in D as (sp & s1 & G & D).
    apply bind_ok in D as (u & s2 & U & D).
    pose proof (get_heart_tracks calls sizes _ _ _ _ G Hin T) as T1.
    unfold random, bind, next_draw, ret in U. inversion U; subst; clear U.
    unfold lift in D. destruct (alpha_composite _ _ _); [|discriminate].
    inversion D; subst. exact T1.
  - inversion D; subst. exact T.
Qed.

Lemma hearts_loop_tracks (calls : nat) (sizes : list Z)
      (total_frames height f : Z) (hearts : list Heart) :
  (forall h, In h hearts -> In (h_size h) sizes) ->
  forall frame st frame' st',
    for_each (draw_heart entropy total_frames height f) hearts frame st
    = Ok (frame', st') ->
    cache_tracks calls sizes st -> cache_tracks calls sizes st'.
Proof.
  induction hearts as [|h hs IH]; simpl; intros Hin frame st frame' st' H T.
  - inversion H; subst. exact T.
  - apply bind_ok in H as (fr1 & s1 & D & H).
    eapply IH; [auto|exact H|].
    eapply draw_heart_tracks; eauto.
Qed.

Lemma frames_loop_tracks (calls : nat) (sizes : list Z) bg message font
      hearts (width height total_frames text_w msg_y : Z) (idxs : list Z) :
  (forall h, In h hearts -> In (h_size h) sizes) ->
  forall st frames st',
    collect (render_frame entropy bg message font hearts width height
                          total_frames text_w msg_y) idxs st
    = Ok (frames, st') ->
    cache_tracks calls sizes st -> cache_tracks calls sizes st'.
Proof.
  intros Hin.
  induction idxs as [|i idxs IH]; simpl; intros st frames st' H T.
  - inversion H; subst. exact T.
  - apply bind_ok in H as (fr & s1 & D & H).
    apply bind_ok in H as (frs & s2 & C & H).
    inversion H; subst. eapply IH; [exact C|].
    unfold render_frame in D.
    apply bind_ok in D as (fr1 & s3 & L & D). inversion D; subst.
    eapply hearts_loop_tracks; eauto.
Qed.

Lemma list_to_set_size (l : list Z) :
  (size (list_to_set l : gset Z) <= List.length l)%nat.
Proof.
  induction l as [|a l IH].
  - rewrite list_to_set_nil, size_empty. simpl. lia.
  - rewrite list_to_set_cons, size_union_alt, size_singleton. simpl.
    assert (S : list_to_set l ∖ {[a]} ⊆ (list_to_set l : gset Z)).
    { intros x Hx. apply elem_of_difference in Hx as [Hx _]. exact Hx. }
    apply subseteq_size in S. lia.
Qed.

Lemma cache_size_bound (m : gmap Z Sprite) (l : list Z) :
  (forall k, is_Some (m !! k) -> In k l) ->
  (size m <= List.length l)%nat.
Proof.
  intros K. rewrite <- (size_dom (D := gset Z)).
  etransitivity; [|apply list_to_set_size].
  apply subseteq_size. intros k Hk.
  apply elem_of_dom in Hk. apply elem_of_list_to_set, list_elem_of_In. auto.
Qed.

(** X7.  In every run that returns, the rasterizer is called once for
    each size the cache ends up holding and never otherwise; the cache
    holds only sizes of hearts generated for this run (what an earlier
    run cached is gone), so there are at most 15 rasterizer calls however
    many frames are rendered. *)
Theorem rasterizer_calls_bounded (base_image : Image) (message : pystr)
        (width height fps duration : Z) (st : RunState) frames st' :
  generate_frames entropy base_image message width height fps duration st
  = Ok (frames, st') ->
  exists hearts s1,
    gen_hearts entropy heart_count (fps * duration) width st
    = Ok (hearts, s1)
    /\ raster_calls st' = (raster_calls st + size (heart_cache st'))%nat
    /\ (forall k, is_Some (heart_cache st' !! k) ->
                  exists h, In h hearts /\ h_size h = k)
    /\ (size (heart_cache st') <= 15)%nat
    /\ (raster_calls st' <= raster_calls st + 15)%nat.
Proof.
  intros H.
  pose proof (generate_frames_ok_inv entropy _ _ _ _ _ _ _ _ _ H)
    as (bg & font & extent & Rs & L & Ts & Ht & _).
  destruct (generate_frames_run entropy base_image message width height fps
              duration st bg font extent Ht Rs L Ts)
    as (hearts & s1 & frames' & st'' & G & C & E & _).
  rewrite E in H. inversion H; subst frames' st''. clear H.
  pose proof (gen_hearts_inv entropy _ _ _ _ _ _ G) as (Len & _ & _ & R & _).
  assert (T : cache_tracks (raster_calls st) (List.map h_size hearts) st').
  { eapply frames_loop_tracks; [|exact C|].
    - intros h Hin. apply in_map. exact Hin.
    - split; simpl; [rewrite map_size_empty; lia|].
      intros k [sp Hk]. rewrite lookup_empty in Hk. discriminate. }
  destruct T as [T K].
  pose proof (cache_size_bound _ _ K) as B.
  rewrite List.length_map, Len in B. unfold heart_count in B.
  exists hearts, s1. repeat split; auto; try lia.
  intros k Hk. apply K in Hk. apply in_map_iff in Hk as (h & Eh & Hin).
  eauto.
Qed.

End RasterizerCount.

Lemma rasterizer_calls_bounded_witness :
  exists frames st',
    @generate_frames Reference.pillow Reference.bare_host
      (fun n => Z.of_nat n * 7919) Reference.red_square (py "Hi") 720 720
      15 5 Reference.fresh = Ok (frames, st')
    /\ (raster_calls st' <= 15)%nat.
Proof.
  destruct (@generate_frames_run Reference.pillow Reference.bare_host
              (fun n => Z.of_nat n * 7919) Reference.red_square (py "Hi")
              720 720 15 5 Reference.fresh _ _ _
              ltac:(lia) eq_refl eq_refl eq_refl)
    as (? & ? & frames & st' & _ & _ & E & _).
  exists frames, st'. split; [exact E|].
  destruct (@rasterizer_calls_bounded Reference.pillow Reference.bare_host
              _ _ _ _ _ _ _ _ _ _ E) as (? & ? & _ & _ & _ & _ & B).
  exact B.
Defined.

(** ** Sprites outside the canvas *)

Lemma same_pixels_refl (a : Image) : same_pixels a a.
Proof. repeat split. Qed.

Lemma same_pixels_trans (a b c : Image) :
  same_pixels a b -> same_pixels b c -> same_pixels a c.
Proof.
  intros (M1 & W1 & H1 & P1) (M2 & W2 & H2 & P2).
  split; [congruence|]. split; [congruence|]. split; [congruence|].
  intros x y. rewrite P1. apply P2.
Qed.

Lemma same_pixels_convert_RGB (a b : Image) :
  same_pixels a b -> same_pixels (convert_RGB a) (convert_RGB b).
Proof.
  intros (M & W & H & P). repeat split; simpl; auto.
  intros x y. specialize (P x y). unfold getpixel, in_bounds in *. simpl.
  rewrite W, H in *.
  destruct ((0 <=? x) && (x <? im_width b) && (0 <=? y) && (y <? im_height b));
    [|reflexivity].
  inversion P. reflexivity.
Qed.

(** A sprite placed wholly above, below, left or right of the canvas
    changes no pixel. *)
Lemma composite_off_canvas {pil : Pillow} (self im : Image) (dx dy : Z) out :
  dy + im_height im <= 0 \/ im_height self <= dy
  \/ dx + im_width im <= 0 \/ im_width self <= dx ->
  alpha_composite self im (dx, dy) = Ok out ->
  same_pixels self out.
Proof.
  intros Off A. unfold alpha_composite in A.
  destruct (im_mode self) eqn:Ms; [|discriminate].
  destruct (im_mode im); [|discriminate].
  inversion A; subst out; clear A.
  repeat split; simpl; auto.
  intros x y. unfold getpixel, in_bounds. simpl.
  destruct ((0 <=? x) && (x <? im_width self) && (0 <=? y)
            && (y <? im_height self)) eqn:B; [|reflexivity].
  destruct ((0 <=? x - dx) && (x - dx <? im_width im) && (0 <=? y - dy)
            && (y - dy <? im_height im)) eqn:T; [exfalso|reflexivity].
  rewrite !andb_true_iff, !Z.leb_le, !Z.ltb_lt in B, T. lia.
Qed.

Section OffCanvas.
Context {pil : Pillow} {host : Host}.
Variable entropy : nat -> Z.

Lemma draw_heart_at_start (total_frames height : Z) frame h st frame' st' :
  im_mode frame = ModeRGBA -> 0 <= h_size h < 2 ^ 53 -> cache_ok st ->
  draw_heart entropy total_frames height (h_start h) frame h st
  = Ok (frame', st') ->
  same_pixels frame frame'.
Proof.
  intros Hm Hs Hc D.
  destruct (heart_position total_frames height (h_start h) h)
    as [[y|]|e] eqn:P.
  - destruct (draw_heart_active entropy _ _ _ _ _ _ _ Hm (proj1 Hs) Hc P)
      as (sp & st1 & out & _ & C & A & D' & _).
    rewrite D' in D. inversion D; subst frame' st'.
    destruct (create_heart_ok (h_size h) heart_color (proj1 Hs))
      as (img & Ci & _ & _ & Hi).
    rewrite C in Ci. inversion Ci; subst img.
    eapply composite_off_canvas; [|exact A].
    left. rewrite Hi, (heart_position_at_start _ _ _ _ Hs P). lia.
  - rewrite (draw_heart_skip entropy _ _ _ _ _ _ P) in D.
    inversion D; subst. apply same_pixels_refl.
  - unfold draw_heart, bind, lift in D. rewrite P in D. discriminate.
Qed.

Lemma hearts_loop_first_frame (total_frames height : Z)
      (hearts : list Heart) :
  Forall (fun h => 0 <= h_size h < 2 ^ 53 /\ h_start h < total_frames
                   /\ 0 <= h_start h) hearts ->
  forall frame st frame' st',
    im_mode frame = ModeRGBA -> cache_ok st ->
    for_each (draw_heart entropy total_frames height 0) hearts frame st
    = Ok (frame', st') ->
    same_pixels frame frame'.
Proof.
  induction 1 as [|h hs (Hs & Hk & H0) _ IH];
    intros frame st frame' st' Hm Hc L.
  - inversion L; subst. apply same_pixels_refl.
  - cbn [for_each] in L. apply bind_ok in L as (fr1 & s1 & D & L).
    destruct (draw_heart_run entropy total_frames height 0 frame h st
                Hm (proj1 Hs) Hk Hc) as (fr & s & D' & M1 & _ & _ & C1 & _).
    rewrite D in D'. inversion D'; subst fr s.
    apply same_pixels_trans with (b := fr1); [|eapply IH; eauto].
    destruct (Z.eq_dec (h_start h) 0) as [E|N].
    + rewrite <- E in D.
      exact (draw_heart_at_start _ _ _ _ _ _ _ Hm Hs Hc D).
    + rewrite (draw_heart_skip entropy _ _ _ _ _ _
                 (heart_position_before total_frames height 0 h
                    ltac:(lia))) in D.
      inversion D; subst. apply same_pixels_refl.
Qed.

(** X8.  At its start frame a heart is composited entirely above the
    canvas: the step draws a random number and fetches (or rasterizes
    and caches) the sprite, yet no pixel of the frame changes.  A heart
    therefore first shows one frame after its start frame at the
    earliest.  (The size is one a float holds exactly, below 2^53; the
    sizes of a run are below 2^31.) *)
Theorem heart_unseen_at_start (total_frames height : Z) (frame : Image)
        (h : Heart) (st : RunState) :
  im_mode frame = ModeRGBA -> 0 <= h_size h < 2 ^ 53 -> 0 <= height ->
  h_start h < total_frames -> cache_ok st ->
  exists frame' st',
    draw_heart entropy total_frames height (h_start h) frame h st
    = Ok (frame', st')
    /\ same_pixels frame frame'
    /\ rng_cursor st' = S (rng_cursor st)
    /\ is_Some (heart_cache st' !! h_size h).
Proof.
  intros Hm Hs Hh Hk Hc.
  assert (P : exists y, heart_position total_frames height (h_start h) h
                        = Ok (Some y)).
  { unfold heart_position. rewrite Z.sub_diag. simpl.
    rewrite heart_y_ok by lia. rewrite Z.sub_diag.
    destruct (Qle_bool _ _) eqn:B; [simpl; eauto|].
    exfalso. apply not_true_iff_false in B. apply B. apply Qle_bool_iff.
    assert (E : (fall_y height h (fquot 0 (total_frames - h_start h))
                 == float (- h_size h))%Q).
    { rewrite (fall_y_proper _ _ _ 0 (fquot_zero _)).
      apply fall_y_zero. lia. }
    rewrite E. unfold float, Qle. simpl. lia. }
  destruct P as (y & P).
  destruct (draw_heart_active entropy _ _ _ _ _ _ _ Hm (proj1 Hs) Hc P)
    as (sp & st1 & out & G & C & A & D & K & _).
  exists out, (advance st1). split; [exact D|].
  split; [eapply draw_heart_at_start; eauto|].
  split; [simpl; congruence|].
  simpl. destruct (get_heart_run (h_size h) st (proj1 Hs) Hc)
    as (sp' & st1' & G' & _ & _ & L & _).
  rewrite G in G'. inversion G'; subst. eauto.
Qed.

(** X9.  The first frame of every run shows no heart: whatever the
    random source, its pixels are those of the background with the
    caption drawn on it, flattened to RGB.  (At frame 0 only hearts that
    start at 0 are active, and those are still above the canvas.) *)
Theorem first_frame_shows_no_heart (base_image : Image) (message : pystr)
        (width height fps duration : Z) (st : RunState) frames st' :
  generate_frames entropy base_image message width height fps duration st
  = Ok (frames, st') ->
  1 <= fps * duration ->
  exists bg font first rest,
    Image_resize (convert_RGBA base_image) width height = Ok bg
    /\ load_font (int (float height * (6 # 100))) = Ok font
    /\ frames = first :: rest
    /\ same_pixels first
         (convert_RGB
            (draw_caption (Image_copy bg) message font width
               (fst (text_extent message font))
               (int (float height * (5 # 100))))).
Proof.
  intros H Ht.
  pose proof (generate_frames_ok_inv entropy _ _ _ _ _ _ _ _ _ H)
    as (bg & font & extent & R & L & T & _ & Hw & Hh).
  destruct (generate_frames_run entropy base_image message width height fps
              duration st bg font extent ltac:(lia) R L T)
    as (hearts & s1 & frames' & st'' & G & C & E & _).
  rewrite E in H. inversion H; subst frames' st''. clear H.
  apply textsize_ok in T as [_ ->].
  pose proof (gen_hearts_inv entropy _ _ _ _ _ _ G) as (_ & F & _).
  assert (Rg : exists rest, range (fps * duration) = 0 :: rest).
  { unfold range. destruct (Z.to_nat (fps * duration)) eqn:N; [lia|].
    simpl. eauto. }
  destruct Rg as (idxs & Rg). rewrite Rg in C. cbn [collect] in C.
  apply bind_ok in C as (first & s2 & D & C).
  apply bind_ok in C as (rest & s3 & _ & C). inversion C; subst.
  exists bg, font, first, rest.
  split; [exact R|]. split; [exact L|]. split; [reflexivity|].
  unfold render_frame in D. apply bind_ok in D as (fr & s4 & Lp & D).
  inversion D; subst. apply same_pixels_convert_RGB.
  apply same_pixels_trans with
    (b := draw_caption (Image_copy bg) message font width
            (fst (text_extent message font))
            (int (float height * (5 # 100))));
    [|apply same_pixels_refl].
  assert (Mbg : im_mode bg = ModeRGBA).
  { apply Image_resize_inv in R as (_ & _ & ->). apply convert_RGBA_mode. }
  assert (S : same_pixels
                (draw_caption (Image_copy bg) message font width
                   (fst (text_extent message font))
                   (int (float height * (5 # 100)))) fr).
  { eapply hearts_loop_first_frame; [| |apply cache_ok_cleared|exact Lp].
    - eapply List.Forall_impl; [|exact F]. intros h Hh'.
      pose proof (heart_ok_drawable (fps * duration) width h Ht
                    ltac:(lia) Hh') as (A & _ & B).
      destruct Hh' as ((Z0 & _) & _). split; [lia|]. split; [exact B|exact Z0].
    - pose proof (draw_caption_shape (Image_copy bg) message font width
                    (fst (text_extent message font))
                    (int (float height * (5 # 100)))) as (Mc & _).
      rewrite Mc. exact Mbg. }
  destruct S as (M & W & Hg & Px).
  split; [congruence|]. split; [congruence|]. split; [congruence|].
  intros x y. symmetry. apply Px.
Qed.

End OffCanvas.

Lemma heart_unseen_at_start_witness :
  exists frame' st',
    @draw_heart Reference.pillow (fun _ => 0) 75 720 10
      (Image_new ModeRGBA 720 720 transparent) (mkHeart 10 5 21)
      Reference.fresh = Ok (frame', st')
    /\ getpixel frame' 5 0 = Some transparent.
Proof.
  destruct (@heart_unseen_at_start Reference.pillow
              (fun _ => 0) 75 720 (Image_new ModeRGBA 720 720 transparent)
              (mkHeart 10 5 21) Reference.fresh)
    as (frame' & st' & D & (_ & _ & _ & Px) & _).
  - reflexivity.
  - simpl. lia.
  - lia.
  - simpl. lia.
  - apply (cache_ok_cleared Reference.fresh).
  - exists frame', st'. split; [exact D|]. rewrite <- Px. reflexivity.
Defined.

Lemma first_frame_shows_no_heart_witness :
  exists frames st' first rest,
    @generate_frames Reference.pillow Reference.bare_host
      (fun n => Z.of_nat n * 7919) Reference.red_square (py "Hi") 100 100
      3 2 Reference.fresh = Ok (frames, st')
    /\ frames = first :: rest
    /\ getpixel first 50 50 = Some (mkRGBA 255 0 0 255).
Proof.
  destruct (@generate_frames_run Reference.pillow Reference.bare_host
              (fun n => Z.of_nat n * 7919) Reference.red_square (py "Hi")
              100 100 3 2 Reference.fresh _ _ _
              ltac:(lia) eq_refl eq_refl eq_refl)
    as (? & ? & frames & st' & _ & _ & E & _).
  destruct (@first_frame_shows_no_heart Reference.pillow Reference.bare_host
              _ _ _ _ _ _ _ _ _ _ E ltac:(lia))
    as (bg & font & first & rest & R & L & F & (_ & _ & _ & Px)).
  exists frames, st', first, rest.
  split; [exact E|]. split; [exact F|].
  rewrite Px. inversion R; subst bg. inversion L; subst font.
  vm_compute. reflexivity.
Defined.

(** ** Random numbers drawn by a run *)

Section Draws.
Context {pil : Pillow} {host : Host}.
Variable entropy : nat -> Z.

Lemma draw_heart_cursor (total_frames height f : Z) frame h st frame' st' :
  draw_heart entropy total_frames height f frame h st = Ok (frame', st') ->
  rng_cursor st'
  = (rng_cursor st
     + if is_active total_frames height f h then 1 else 0)%nat.
Proof.
  unfold draw_heart, is_active. intros D.
  apply bind_ok in D as (pos & s0 & P & D).
  unfold lift in P.
  destruct (heart_position _ _ _ _) as [p|]; [|discriminate].
  inversion P; subst; clear P.
  destruct pos as [y|].
  - apply bind_ok in D as (sp & s1 & G & D).
    apply bind_ok in D as (u & s2 & U & D).
    assert (K : rng_cursor s1 = rng_cursor s0).
    { apply get_heart_inv in G as [[_ ->]|(_ & _ & _ & ->)]; reflexivity. }
    unfold random, bind, next_draw, ret in U. inversion U; subst; clear U.
    unfold lift in D. destruct (alpha_composite _ _ _); [|discriminate].
    inversion D; subst. simpl. lia.
  - inversion D; subst. lia.
Qed.

Lemma hearts_loop_cursor (total_frames height f : Z) (hearts : list Heart) :
  forall frame st frame' st',
    for_each (draw_heart entropy total_frames height f) hearts frame st
    = Ok (frame', st') ->
    rng_cursor st'
    = (rng_cursor st
       + List.length (List.filter (is_active total_frames height f) hearts))%nat.
Proof.
  induction hearts as [|h hs IH]; simpl; intros frame st frame' st' H.
  - inversion H; subst. lia.
  - apply bind_ok in H as (fr1 & s1 & D & H).
    apply IH in H. apply draw_heart_cursor in D.
    destruct (is_active total_frames height f h); simpl; lia.
Qed.

Lemma frames_loop_cursor bg message font hearts
      (width height total_frames text_w msg_y : Z) (idxs : list Z) :
  forall st frames st',
    collect (render_frame entropy bg message font hearts width height
                          total_frames text_w msg_y) idxs st
    = Ok (frames, st') ->
    rng_cursor st'
    = (rng_cursor st + composites total_frames height hearts idxs)%nat.
Proof.
  unfold composites.
  induction idxs as [|i idxs IH]; simpl; intros st frames st' H.
  - inversion H; subst. lia.
  - apply bind_ok in H as (fr & s1 & D & H).
    apply bind_ok in H as (frs & s2 & C & H).
    inversion H; subst. apply IH in C.
    unfold render_frame in D.
    apply bind_ok in D as (fr1 & s3 & L & D). inversion D; subst.
    apply hearts_loop_cursor in L. lia.
Qed.

Lemma composites_bound (total_frames height : Z) (hearts : list Heart)
      (idxs : list Z) :
  (composites total_frames height hearts idxs
   <= List.length hearts * List.length idxs)%nat.
Proof.
  unfold composites. induction idxs as [|i idxs IH]; simpl; [lia|].
  pose proof (List.filter_length_le (is_active total_frames height i) hearts).
  lia.
Qed.

(** X10.  A run that returns has drawn from [random] exactly three
    numbers for each of the 15 hearts and then one for every sprite it
    composited, none for a heart that is skipped: the generator is left
    [45 + composites] draws further, at most [45 + 15 * frames]. *)
Theorem random_draws_of_a_run (base_image : Image) (message : pystr)
        (width height fps duration : Z) (st : RunState) frames st' :
  generate_frames entropy base_image message width height fps duration st
  = Ok (frames, st') ->
  exists hearts s1,
    gen_hearts entropy heart_count (fps * duration) width st
    = Ok (hearts, s1)
    /\ rng_cursor s1 = (rng_cursor st + 45)%nat
    /\ rng_cursor st'
       = (rng_cursor st + 45
          + composites (fps * duration) height hearts
                       (range (fps * duration)))%nat
    /\ (rng_cursor st' <= rng_cursor st + 45 + 15 * List.length frames)%nat.
Proof.
  intros H.
  pose proof (generate_frames_ok_inv entropy _ _ _ _ _ _ _ _ _ H)
    as (bg & font & extent & Rs & L & Ts & Ht & _).
  destruct (generate_frames_run entropy base_image message width height fps
              duration st bg font extent Ht Rs L Ts)
    as (hearts & s1 & frames' & st'' & G & C & E & Len & _).
  rewrite E in H. inversion H; subst frames' st''. clear H.
  pose proof (gen_hearts_inv entropy _ _ _ _ _ _ G) as (Lh & _ & _ & _ & K).
  apply frames_loop_cursor in C. simpl in C.
  pose proof (composites_bound (fps * duration) height hearts
                               (range (fps * duration))) as B.
  pose proof (range_length (fps * duration) Ht) as Lr.
  unfold heart_count in *.
  exists hearts, s1. split; [exact G|]. split; [lia|]. split; [lia|].
  rewrite Lh in B. nia.
Qed.

End Draws.

Lemma random_draws_of_a_run_witness :
  exists frames st',
    @generate_frames Reference.pillow Reference.bare_host
      (fun n => Z.of_nat n * 7919) Reference.red_square (py "Hi") 100 100
      1 1 Reference.fresh = Ok (frames, st')
    /\ (rng_cursor st' <= 60)%nat.
Proof.
  destruct (@generate_frames_run Reference.pillow Reference.bare_host
              (fun n => Z.of_nat n * 7919) Reference.red_square (py "Hi")
              100 100 1 1 Reference.fresh _ _ _
              ltac:(lia) eq_refl eq_refl eq_refl)
    as (? & ? & frames & st' & _ & _ & E & Len & _).
  exists frames, st'. split; [exact E|].
  destruct (@random_draws_of_a_run Reference.pillow Reference.bare_host
              _ _ _ _ _ _ _ _ _ _ E) as (? & ? & _ & _ & _ & B).
  simpl in B. lia.
Defined.

(** ** The heart sprite *)




(** ** Truncated products

    The sizes of the hearts, the font size and the caption position are
    truncations of float products and of a float quotient; on a canvas
    side below 2^31 rounding never moves one of them across an
    integer. *)

(** An integer is the truncation of every value from it up to the next. *)
Lemma int_unique (n : Z) (q : Q) :
  0 <= n -> (float n <= q)%Q -> (q < float n + 1)%Q -> int q = n.
Proof.
  intros Hn L U.
  assert (Q0 : (0 <= q)%Q).
  { assert ((0 <= float n)%Q) by (unfold float, Qle; simpl; lia). lra. }
  destruct (int_floor q Q0) as [I0 I1].
  destruct (int_within_one q) as [_ W].
  assert (A : (float (int q) < float n + 1)%Q) by lra.
  assert (B : (float n < float (int q) + 1)%Q) by lra.
  unfold float, Qlt in A, B. simpl in A, B. lia.
Qed.

(** The nearest integer of a value less than a half from [m] is [m]. *)
Lemma rne_near (m : Z) (x : Q) :
  (inject_Z m - (1 # 2) < x)%Q -> (x < inject_Z m + (1 # 2))%Q -> rne x = m.
Proof.
  intros L U. destruct (rne_spec x) as [R1 R2].
  assert (A : (inject_Z (rne x) < inject_Z m + 1)%Q) by lra.
  assert (B : (inject_Z m < inject_Z (rne x) + 1)%Q) by lra.
  unfold Qlt in A, B. simpl in A, B. lia.
Qed.

(** A value just below a positive integer rounds up to it. *)
Lemma round64_up_to_int (n : Z) (q : Q) :
  1 <= n < 2 ^ 53 ->
  (inject_Z n * (1 - pow2 (-54)) < q)%Q -> (q <= inject_Z n)%Q ->
  (round64 q == inject_Z n)%Q.
Proof.
  intros Hn Lo Up.
  destruct (Qle_lt_or_eq _ _ Up) as [Lt|Eq];
    [|rewrite Eq; apply round64_int; lia].
  assert (N0 : (0 < inject_Z n)%Q).
  { change 0%Q with (inject_Z 0). rewrite <- Zlt_Qlt. lia. }
  change (pow2 (-54)) with (1 # 18014398509481984)%Q in Lo.
  assert (Q0 : (0 < q)%Q) by lra.
  rewrite (round64_pos q Q0). unfold round_pos.
  destruct (ilog2_spec (inject_Z n) N0) as [S1 S2].
  set (L := ilog2 (inject_Z n)) in *.
  assert (L0 : 0 <= L).
  { destruct (Z_le_gt_dec 0 L) as [G|G]; [exact G|exfalso].
    assert (P : (pow2 (L + 1) <= pow2 0)%Q) by (apply pow2_le; lia).
    change (pow2 0) with 1%Q in P.
    assert (K : (inject_Z 1 <= inject_Z n)%Q) by (rewrite <- Zle_Qle; lia).
    change (inject_Z 1) with 1%Q in K. lra. }
  assert (L53 : L < 53).
  { apply pow2_lt_inv. apply Qle_lt_trans with (inject_Z n); [exact S1|].
    change (pow2 53) with (inject_Z (2 ^ 53)). rewrite <- Zlt_Qlt. lia. }
  rewrite (pow2_inject L L0) in S1. rewrite <- Zle_Qle in S1.
  rewrite (pow2_inject (L + 1) ltac:(lia)) in S2. rewrite <- Zlt_Qlt in S2.
  assert (PL : 0 < 2 ^ L) by (apply Z.pow_pos_nonneg; lia).
  assert (PS : 2 ^ (L + 1) = 2 * 2 ^ L) by (rewrite Z.pow_add_r; lia).
  (* n * 2^-54 is below a quarter of 2^(L - 52) *)
  destruct (Z.eq_dec n (2 ^ L)) as [Pow|NotPow].
  - (* a power of two: [q] is in the binade below *)
    assert (IL : ilog2 q = L - 1).
    { apply ilog2_unique.
      - replace L with ((L - 1) + 1) in Pow by lia.
        assert (E : (inject_Z n == 2 * pow2 (L - 1))%Q).
        { rewrite Pow. rewrite <- (pow2_inject (L - 1 + 1)) by lia.
          rewrite pow2_add. change (pow2 1) with 2%Q. ring. }
        rewrite E in Lo. pose proof (pow2_pos (L - 1)). lra.
      - replace (L - 1 + 1) with L by lia. rewrite pow2_inject by lia.
        rewrite <- Pow. exact Lt. }
    rewrite IL.
    replace (L - 1 - 52) with (L - 53) by lia.
    assert (X : rne (q * pow2 (- (L - 53))) = 2 ^ 53).
    { apply rne_near.
      - assert (E : (inject_Z (2 ^ 53) == inject_Z n * pow2 (- (L - 53)))%Q).
        { rewrite Pow. rewrite <- (pow2_inject L) by lia. rewrite <- pow2_add.
          replace (L + - (L - 53)) with 53 by lia. reflexivity. }
        pose proof (pow2_pos (- (L - 53))) as PP.
        assert (G : (inject_Z n * (1 - (1 # 18014398509481984))
                     * pow2 (- (L - 53)) < q * pow2 (- (L - 53)))%Q).
        { apply Qmult_lt_compat_r; assumption. }
        change (inject_Z (2 ^ 53)) with 9007199254740992%Q in E |- *.
        lra.
      - assert (E : (inject_Z (2 ^ 53) == inject_Z n * pow2 (- (L - 53)))%Q).
        { rewrite Pow. rewrite <- (pow2_inject L) by lia. rewrite <- pow2_add.
          replace (L + - (L - 53)) with 53 by lia. reflexivity. }
        pose proof (pow2_pos (- (L - 53))) as PP.
        assert (G : (q * pow2 (- (L - 53))
                     < inject_Z n * pow2 (- (L - 53)))%Q).
        { apply Qmult_lt_compat_r; assumption. }
        change (inject_Z (2 ^ 53)) with 9007199254740992%Q in E |- *.
        lra. }
    rewrite X. change (inject_Z (2 ^ 53)) with (pow2 53).
    rewrite <- pow2_add. replace (53 + (L - 53)) with L by lia.
    rewrite pow2_inject by lia. rewrite Pow. reflexivity.
  - (* not a power of two: [q] is in the binade of [n] *)
    assert (N1 : 2 ^ L + 1 <= n) by lia.
    assert (QL : (pow2 L <= q)%Q).
    { rewrite pow2_inject by lia.
      assert (K : (inject_Z (2 ^ L) + 1 <= inject_Z n)%Q).
      { change 1%Q with (inject_Z 1). rewrite <- inject_Z_plus.
        rewrite <- Zle_Qle. exact N1. }
      assert (B : (inject_Z n <= 9007199254740992)%Q).
      { change 9007199254740992%Q with (inject_Z (2 ^ 53)).
        rewrite <- Zle_Qle. lia. }
      lra. }
    assert (IL : ilog2 q = L).
    { apply ilog2_unique; [exact QL|].
      rewrite pow2_inject by lia. apply Qlt_trans with (inject_Z n);
        [exact Lt|]. rewrite <- Zlt_Qlt. exact S2. }
    rewrite IL.
    set (M := n * 2 ^ (52 - L)).
    assert (EM : (inject_Z M == inject_Z n * pow2 (- (L - 52)))%Q).
    { unfold M. rewrite inject_Z_mult. rewrite <- (pow2_inject (52 - L)) by lia.
      replace (- (L - 52)) with (52 - L) by lia. reflexivity. }
    assert (X : rne (q * pow2 (- (L - 52))) = M).
    { pose proof (pow2_pos (- (L - 52))) as PP.
      assert (G1 : (inject_Z n * (1 - (1 # 18014398509481984))
                    * pow2 (- (L - 52)) < q * pow2 (- (L - 52)))%Q).
      { apply Qmult_lt_compat_r; assumption. }
      assert (G2 : (q * pow2 (- (L - 52))
                    < inject_Z n * pow2 (- (L - 52)))%Q).
      { apply Qmult_lt_compat_r; assumption. }
      assert (B : (inject_Z M <= 9007199254740992)%Q).
      { change 9007199254740992%Q with (inject_Z (2 ^ 53)).
        rewrite <- Zle_Qle. unfold M.
        assert (2 ^ 53 = 2 ^ (L + 1) * 2 ^ (52 - L)).
        { rewrite <- Z.pow_add_r by lia. f_equal. lia. }
        assert (0 < 2 ^ (52 - L)) by (apply Z.pow_pos_nonneg; lia).
        nia. }
      apply rne_near; lra. }
    rewrite X, EM. rewrite <- Qmult_assoc, <- pow2_add.
    replace (- (L - 52) + (L - 52)) with 0 by lia.
    change (pow2 0) with 1%Q. ring.
Qed.

Lemma round64_between (n a : Z) (q : Q) :
  0 <= n < 2 ^ 40 -> 0 <= a <= 128 ->
  (float n + inject_Z a * (1 # 128) <= q)%Q ->
  (float n + inject_Z a * (1 # 128) <= round64 q)%Q.
Proof.
  intros Hn Ha L.
  pose proof (round64_exact (128 * n + a) (-7) ltac:(lia)) as X.
  assert (E : (inject_Z (128 * n + a) * pow2 (-7)
               == float n + inject_Z a * (1 # 128))%Q).
  { unfold float. rewrite inject_Z_plus, inject_Z_mult.
    change (pow2 (-7)) with (1 # 128)%Q. change (inject_Z 128) with 128%Q.
    field. }
  rewrite E in X. rewrite <- X. apply round64_mono. exact L.
Qed.

Lemma round64_between_up (n a : Z) (q : Q) :
  0 <= n < 2 ^ 40 -> 0 <= a <= 128 ->
  (q <= float n + inject_Z a * (1 # 128))%Q ->
  (round64 q <= float n + inject_Z a * (1 # 128))%Q.
Proof.
  intros Hn Ha L.
  pose proof (round64_exact (128 * n + a) (-7) ltac:(lia)) as X.
  assert (E : (inject_Z (128 * n + a) * pow2 (-7)
               == float n + inject_Z a * (1 # 128))%Q).
  { unfold float. rewrite inject_Z_plus, inject_Z_mult.
    change (pow2 (-7)) with (1 # 128)%Q. change (inject_Z 128) with 128%Q.
    field. }
  rewrite E in X. rewrite <- X. apply round64_mono. exact L.
Qed.

Lemma scaled_side_exact (side num : Z) :
  0 <= side < 2 ^ 31 -> 1 <= num <= 8 ->
  ((num # 100) * (1 - pow2 (-54)) < round64 (num # 100))%Q ->
  scaled_side side (num # 100) = int (float side * (num # 100)).
Proof.
  intros Hs Hnum Hk.
  rewrite int_scale. rewrite Z.quot_div_nonneg by lia.
  set (n := side * num / 100).
  pose proof (Z.div_mod (side * num) 100 ltac:(lia)) as DM. fold n in DM.
  pose proof (Z.mod_pos_bound (side * num) 100 ltac:(lia)) as RB.
  set (rem := (side * num) mod 100) in *.
  assert (Hn : 0 <= n < 2 ^ 28).
  { split; [apply Z.div_pos; nia|]. apply Z.div_lt_upper_bound; nia. }
  unfold scaled_side, fmul.
  assert (Eo : (round64 (of_int side * round64 (num # 100))
                == round64 (float side * round64 (num # 100)))%Q).
  { rewrite (of_int_exact side) by lia. reflexivity. }
  rewrite (int_proper _ _ Eo). clear Eo.
  set (c := (num # 100)%Q) in *. set (k := round64 c) in *.
  assert (C0 : (0 <= c)%Q) by (unfold c, Qle; simpl; lia).
  pose proof (round64_error c) as Ek. fold k in Ek.
  rewrite (Qabs_pos c C0) in Ek.
  apply Qabs_Qle_condition in Ek as [_ Ek].
  change (pow2 (-53)) with (1 # 9007199254740992)%Q in Ek.
  change (pow2 (-54)) with (1 # 18014398509481984)%Q in Hk.
  assert (S0 : (0 <= float side)%Q) by (unfold float, Qle; simpl; lia).
  assert (V : (float side * c == float n + float rem * (1 # 100))%Q).
  { unfold float, c. unfold Qeq. simpl. lia. }
  assert (N28 : (float n <= 268435456)%Q).
  { change 268435456%Q with (float (2 ^ 28)). unfold float.
    rewrite <- Zle_Qle. lia. }
  assert (N0 : (0 <= float n)%Q) by (unfold float, Qle; simpl; lia).
  assert (Rq : (0 <= float rem)%Q /\ (float rem <= 99)%Q).
  { unfold float, Qle. simpl. lia. }
  set (x := (float side * k)%Q).
  assert (Xu : (x <= float side * c
                     + (1 # 9007199254740992) * (float side * c))%Q)
    by (unfold x; nra).
  assert (Xl : (float side * c - (1 # 18014398509481984) * (float side * c)
                <= x)%Q) by (unfold x; nra).
  destruct (Z.eq_dec rem 0) as [R0|R1].
  - (* the exact product is the integer [n] *)
    assert (V' : (float side * c == float n)%Q).
    { rewrite V, R0. unfold float. change (inject_Z 0) with 0%Q. ring. }
    destruct (Z.eq_dec n 0) as [Z0|NZ].
    + assert (side = 0) by nia. subst side.
      rewrite (round64_zero x); [rewrite Z0; reflexivity|].
      unfold x, float. change (inject_Z 0) with 0%Q. ring.
    + destruct (Qlt_le_dec (float n) x) as [Above|Below].
      * apply int_unique; [lia| |].
        -- pose proof (round64_between n 0 x ltac:(lia) ltac:(lia)) as B.
           change (inject_Z 0) with 0%Q in B. apply Qle_trans with (float n + 0 * (1 # 128))%Q; [lra|].
           apply B. lra.
        -- pose proof (round64_between_up n 1 x ltac:(lia) ltac:(lia)) as B.
           change (inject_Z 1) with 1%Q in B.
           assert (G : (round64 x <= float n + 1 * (1 # 128))%Q)
             by (apply B; lra).
           lra.
      * assert (Sp : (0 < float side)%Q).
        { unfold float. change 0%Q with (inject_Z 0). rewrite <- Zlt_Qlt.
          nia. }
        assert (Xs : (float n * (1 - (1 # 18014398509481984)) < x)%Q).
        { rewrite <- V'. unfold x. 
          assert (float side * (c * (1 - (1 # 18014398509481984)))
                  < float side * k)%Q by (apply Qmult_lt_l; assumption).
          lra. }
        pose proof (round64_up_to_int n x ltac:(lia)) as U.
        change (pow2 (-54)) with (1 # 18014398509481984)%Q in U.
        rewrite (int_proper _ _ (U Xs Below)). apply int_float.
  - (* the exact product is at least a hundredth from an integer *)
    assert (Rq' : (1 <= float rem)%Q).
    { change 1%Q with (float 1). unfold float. rewrite <- Zle_Qle. lia. }
    apply int_unique; [lia| |].
    + pose proof (round64_between n 1 x ltac:(lia) ltac:(lia)) as B.
      change (inject_Z 1) with 1%Q in B.
      assert (G : (float n + 1 * (1 # 128) <= round64 x)%Q)
        by (apply B; lra).
      lra.
    + pose proof (round64_between_up n 127 x ltac:(lia) ltac:(lia)) as B.
      change (inject_Z 127) with 127%Q in B.
      assert (G : (round64 x <= float n + 127 * (1 # 128))%Q)
        by (apply B; lra).
      lra.
Qed.

(** X18.  Rounding never shows in the integers the program derives
    from the canvas: for every side from 0 to [2^31 - 1] the float
    products [side * 0.03], [side * 0.08] (bounds of the heart sizes),
    [side * 0.06] (font size) and [side * 0.05] (caption row) truncate
    to the same integer as the exact products, and the float quotient
    [(width - text_w) / 2] (caption column) truncates as the exact
    half. *)
Theorem truncated_products_exact (side width text_w : Z) :
  (0 <= side < 2 ^ 31 ->
   scaled_side side (3 # 100) = int (float side * (3 # 100))
   /\ scaled_side side (8 # 100) = int (float side * (8 # 100))
   /\ scaled_side side (6 # 100) = int (float side * (6 # 100))
   /\ scaled_side side (5 # 100) = int (float side * (5 # 100)))
  /\ (Z.abs (width - text_w) < 2 ^ 53 ->
      centred width text_w = msg_x_of width text_w).
Proof.
  split.
  - intros Hs.
    split; [|split; [|split]]; apply scaled_side_exact; try lia;
      vm_compute; reflexivity.
  - intros H. unfold centred, msg_x_of. apply int_proper.
    apply fquot_half. exact H.
Qed.

Lemma truncated_products_exact_witness :
  scaled_side 720 (3 # 100) = 21 /\ scaled_side 720 (8 # 100) = 57
  /\ centred 720 12 = 354.
Proof.
  destruct (truncated_products_exact 720 720 12) as (P & C).
  destruct (P ltac:(lia)) as (A & B & _).
  rewrite A, B, (C ltac:(simpl; lia)). repeat split.
Defined.

(* ================================================================== *)
(** * Properties of the endpoint *)

(** ** Strings *)

Lemma length_append (a b : string) :
  String.length (a ++ b) = (String.length a + String.length b)%nat.
Proof. induction a as [|c a IH]; simpl; [reflexivity|rewrite IH; reflexivity]. Qed.

Lemma append_inv_tail (t : string) :
  forall a b : string, (a ++ t = b ++ t)%string -> a = b.
Proof.
  induction a as [|c a IH]; intros [|d b] H.
  - reflexivity.
  - apply (f_equal String.length) in H.
    rewrite !length_append in H. simpl in H. lia.
  - apply (f_equal String.length) in H.
    rewrite !length_append in H. simpl in H. lia.
  - change (String c (a ++ t) = String d (b ++ t))%string in H.
    inversion H. f_equal. auto.
Qed.

Lemma length_zeros (n : nat) : String.length (zeros n) = n.
Proof. induction n; simpl; auto. Qed.

Lemma read_zeros (n : nat) (s : string) :
  read_04d (zeros n ++ s) = read_04d s.
Proof.
  unfold read_04d. induction n as [|n IH]; simpl; [reflexivity|].
  rewrite <- IH.
  destruct (NilEmpty.uint_of_string (zeros n ++ s)); reflexivity.
Qed.

Lemma read_str (n : nat) : read_04d (str n) = Some n.
Proof.
  unfold read_04d, str. rewrite NilEmpty.usu. simpl.
  rewrite DecimalNat.Unsigned.of_to. reflexivity.
Qed.

Lemma read_format (n : nat) : read_04d (format_04d n) = Some n.
Proof. unfold format_04d. rewrite read_zeros. apply read_str. Qed.

Lemma frame_name_inj (i j : nat) : frame_name i = frame_name j -> i = j.
Proof.
  unfold frame_name. intros H.
  apply (String.app_inj "frame_") in H.
  apply append_inv_tail in H.
  pose proof (read_format i) as Ri. rewrite H, read_format in Ri.
  inversion Ri. reflexivity.
Qed.

Lemma short_names_checked :
  forallb (fun i => (String.length (frame_name i) =? 14)%nat) (seq 0 (100 * 100))
  = true.
Proof. vm_compute. reflexivity. Qed.

(** X11.  Frame files are named so that the encoder finds them in
    order: the four-digit field of [frame_{idx:04d}.png] reads back as
    [idx], so different indices give different names; the field never
    has fewer than four characters, and below 10000 exactly four, every
    name then being 14 characters long. *)
Theorem frame_name_round_trip (i : nat) :
  read_04d (format_04d i) = Some i
  /\ (forall j, frame_name i = frame_name j -> i = j)
  /\ (4 <= String.length (format_04d i))%nat
  /\ ((i < 100 * 100)%nat ->
      String.length (format_04d i) = 4%nat
      /\ String.length (frame_name i) = 14%nat).
Proof.
  split; [apply read_format|]. split; [apply frame_name_inj|]. split.
  - unfold format_04d. rewrite length_append, length_zeros. lia.
  - intros Hi.
    pose proof short_names_checked as C.
    rewrite forallb_forall in C.
    specialize (C i ltac:(apply in_seq; lia)).
    apply Nat.eqb_eq in C. split; [|exact C].
    unfold frame_name in C. rewrite !length_append in C. simpl in C. lia.
Qed.

Lemma frame_name_round_trip_witness :
  String.length (frame_name 74) = 14%nat /\ frame_name 7 = "frame_0007.png"%string.
Proof.
  split.
  - apply (proj2 (proj2 (proj2 (proj2 (frame_name_round_trip 74)))
                    ltac:(lia))).
  - reflexivity.
Defined.

(** ** Frames on disk *)

Lemma frame_path_inj (tmpdir : string) (i j : nat) :
  os_path_join tmpdir (frame_name i) = os_path_join tmpdir (frame_name j) ->
  i = j.
Proof.
  unfold os_path_join.
  replace (String.prefix "/" (frame_name i)) with false by reflexivity.
  replace (String.prefix "/" (frame_name j)) with false by reflexivity.
  destruct ((tmpdir =? "")%string || ends_with_sep tmpdir); intros H.
  - apply String.app_inj in H. apply frame_name_inj, H.
  - apply String.app_inj in H. apply (String.app_inj "/") in H.
    apply frame_name_inj, H.
Qed.

Lemma save_frames_lookup (tmpdir : string) (frames : list Image) :
  forall (k : nat) (disk : gmap string Image) (j : nat),
    save_frames tmpdir k frames disk !! os_path_join tmpdir (frame_name j)
    = if decide (k <= j < k + List.length frames)%nat
      then frames !! (j - k)%nat
      else disk !! os_path_join tmpdir (frame_name j).
Proof.
  induction frames as [|f rest IH]; intros k disk j; simpl.
  - case_decide; [lia|reflexivity].
  - rewrite IH. rewrite lookup_insert.
    destruct (decide (k = j)) as [<-|N].
    + rewrite decide_False by lia. rewrite decide_True by reflexivity.
      rewrite decide_True by lia. rewrite Nat.sub_diag. reflexivity.
    + destruct (decide (S k <= j < S k + List.length rest)%nat) as [I|O].
      * rewrite decide_True by lia.
        replace (j - k)%nat with (S (j - S k)) by lia. reflexivity.
      * rewrite decide_False
          by (intros E; apply frame_path_inj in E; contradiction).
        rewrite decide_False by lia. reflexivity.
Qed.

Lemma save_frames_size (tmpdir : string) (frames : list Image) :
  forall (k : nat) (disk : gmap string Image),
    (forall j, (k <= j)%nat ->
               disk !! os_path_join tmpdir (frame_name j) = None) ->
    size (save_frames tmpdir k frames disk)
    = (size disk + List.length frames)%nat.
Proof.
  induction frames as [|f rest IH]; intros k disk Free; simpl; [lia|].
  rewrite IH.
  - rewrite map_size_insert_None by (apply Free; lia). lia.
  - intros j Hj. rewrite lookup_insert.
    rewrite decide_False
      by (intros E; apply frame_path_inj in E; lia).
    apply Free. lia.
Qed.

(** X12.  Saving the frames loses none and overwrites none: in the
    temporary directory the file named for index [i] holds frame [i] of
    the list, indices past the end name no file, and there are exactly as
    many files as frames. *)
Theorem saved_frames_are_the_frames (tmpdir : string) (frames : list Image)
        (i : nat) :
  save_frames tmpdir 0 frames ∅ !! os_path_join tmpdir (frame_name i)
  = frames !! i
  /\ size (save_frames tmpdir 0 frames ∅) = List.length frames.
Proof.
  split.
  - rewrite save_frames_lookup. rewrite Nat.sub_0_r.
    case_decide as D; [reflexivity|].
    rewrite lookup_empty. symmetry. apply lookup_ge_None. simpl in D. lia.
  - rewrite save_frames_size; [rewrite map_size_empty; reflexivity|].
    intros j _. apply lookup_empty.
Qed.

(** ** The caption cap *)

Lemma cap_message_length_le (message : pystr) :
  (List.length (cap_message message) <= 200)%nat.
Proof.
  unfold cap_message. destruct (200 <? List.length message)%nat eqn:B.
  - rewrite List.length_firstn. lia.
  - apply Nat.ltb_ge in B. exact B.
Qed.

(** X13.  The caption handed to the generator is the posted message
    cut to its first 200 characters (code points, whatever their
    encoded length): it is a prefix of the message, its length is the
    smaller of 200 and the message's, a message of at most 200
    characters passes unchanged, and capping twice changes nothing
    more. *)
Theorem cap_message_caps (message : pystr) :
  List.length (cap_message message) = Nat.min 200 (List.length message)
  /\ cap_message message = firstn 200 message
  /\ (exists rest, message = cap_message message ++ rest)
  /\ ((List.length message <= 200)%nat -> cap_message message = message)
  /\ cap_message (cap_message message) = cap_message message.
Proof.
  assert (Small : forall m, (List.length m <= 200)%nat -> cap_message m = m).
  { intros m Hm. unfold cap_message.
    replace (200 <? List.length m)%nat with false
      by (symmetry; apply Nat.ltb_ge; exact Hm).
    reflexivity. }
  assert (Cut : cap_message message = firstn 200 message).
  { unfold cap_message. destruct (200 <? List.length message)%nat eqn:B.
    - reflexivity.
    - apply Nat.ltb_ge in B. symmetry. apply List.firstn_all2. exact B. }
  split; [rewrite Cut; apply List.length_firstn|].
  split; [exact Cut|].
  split; [exists (skipn 200 message); rewrite Cut;
          symmetry; apply List.firstn_skipn|].
  split; [apply Small|].
  apply Small, cap_message_length_le.
Qed.

Lemma cap_message_caps_witness :
  cap_message (repeat 20013%N 150) = repeat 20013%N 150
  /\ List.length (cap_message (repeat 20013%N 450)) = 200%nat.
Proof.
  split.
  - apply (proj1 (proj2 (proj2 (proj2
             (cap_message_caps (repeat 20013%N 150)))))).
    rewrite repeat_length. lia.
  - rewrite (proj1 (cap_message_caps (repeat 20013%N 450))).
    rewrite repeat_length. reflexivity.
Defined.

(** ** The handler *)

Section EndpointFacts.
Context {pil : Pillow} {host : Host} {srv : Server}.
Variable entropy : nat -> Z.

(** The default run of the generator as the handler starts it: it
    returns 75 frames when the caption can be measured in the loaded
    font, and raises what measuring it raises. *)
Lemma default_run (base_image : Image) (message : pystr) (run : RunState)
      (font : Font) :
  load_font (int (float 720 * (6 # 100))) = Ok font ->
  match ImageDraw_textsize message font with
  | Ok _ =>
      exists frames run',
        generate_frames entropy base_image message 720 720 15 5 run
        = Ok (frames, run')
        /\ List.length frames = 75%nat
  | Raise e =>
      generate_frames entropy base_image message 720 720 15 5 run = Raise e
  end.
Proof.
  intros L.
  pose proof (Image_resize_ok (convert_RGBA base_image) 720 720
                ltac:(lia) ltac:(lia)) as R.
  destruct (ImageDraw_textsize message font) as [extent|e] eqn:T.
  - destruct (generate_frames_run entropy base_image message 720 720 15 5
                run _ font extent ltac:(lia) R L T)
      as (? & ? & frames & run' & _ & _ & E & Len & _).
    exists frames, run'. split; [exact E|lia].
  - destruct (gen_hearts_succeeds entropy heart_count (15 * 5) 720
                ltac:(lia) ltac:(lia) run) as (hearts & st1 & G).
    unfold generate_frames, bind, lift. rewrite R, G.
    unfold cache_clear. rewrite L, T. reflexivity.
Qed.

(** X14.  A request without a usable image is answered with status 400
    and nothing else happens: no [image] part gives "Missing image
    file", an empty file name "Empty filename", an upload that does not
    decode "Invalid image file".  These are the only answers with status
    400, and exactly the requests for which the server state (random
    numbers drawn, temporary directories made, commands run) is left as
    it was. *)
Theorem export_video_rejects_bad_upload (req : Request) (st : ServerState) :
  match req_files req !! "image"%string with
  | None =>
      export_video entropy req st
      = Ok (json_error "Missing image file" 400, st)
  | Some file =>
      (up_filename file = ""%string ->
       export_video entropy req st = Ok (json_error "Empty filename" 400, st))
      /\ (up_filename file <> ""%string ->
          forall e, Image_open (up_stream file) = Raise e ->
                    export_video entropy req st
                    = Ok (json_error "Invalid image file" 400, st))
  end
  /\ (forall response st',
         export_video entropy req st = Ok (response, st') ->
         (rsp_status response = 400 <-> st' = st)
         /\ (rsp_status response = 400 ->
             srv_commands st' = srv_commands st
             /\ exists error, rsp_body response = JsonError error)).
Proof.
  split.
  - unfold export_video.
    destruct (req_files req !! "image"%string) as [file|]; [|reflexivity].
    split.
    + intros ->. reflexivity.
    + intros N e O.
      replace (up_filename file =? "")%string with false
        by (symmetry; apply String.eqb_neq; exact N).
      rewrite O. reflexivity.
  - intros response st' E. unfold export_video in E.
    assert (Bad : forall error,
               Ok (json_error error 400, st) = Ok (response, st') ->
               (rsp_status response = 400 <-> st' = st)
               /\ (rsp_status response = 400 ->
                   srv_commands st' = srv_commands st
                   /\ exists error, rsp_body response = JsonError error)).
    { intros error H. inversion H; subst. simpl. split; [tauto|eauto]. }
    destruct (req_files req !! "image"%string) as [file|]; [|eauto].
    destruct (up_filename file =? "")%string; [eauto|].
    destruct (Image_open (up_stream file)) as [opened|e]; [|eauto].
    destruct (generate_frames _ _ _ _ _ _ _ _) as [[frames run']|e];
      [|discriminate].
    assert (Moved : forall r,
               Ok (r, mkServer run' (S (srv_tmpdirs st))
                        (ffmpeg_command (mkdtemp (srv_tmpdirs st))
                           (os_path_join (mkdtemp (srv_tmpdirs st))
                                         "output.mp4")
                         :: srv_commands st)) = Ok (response, st') ->
               rsp_status r <> 400 ->
               (rsp_status response = 400 <-> st' = st)
               /\ (rsp_status response = 400 ->
                   srv_commands st' = srv_commands st
                   /\ exists error, rsp_body response = JsonError error)).
    { intros r H N. inversion H; subst. split; [|contradiction].
      split; [contradiction|]. intros Est.
      apply (f_equal srv_tmpdirs) in Est. simpl in Est. lia. }
    destruct (subprocess_run _ _); eapply Moved; eauto; simpl; lia.
Qed.

(** X15.  An upload that decodes is handed to the generator with the
    capped caption (at most 200 characters) and the default 720 by 720,
    15 fps, 5 s.  When the caption can be measured in the loaded font
    the generator returns 75 frames; they are saved, one file per frame,
    in a new temporary directory; ffmpeg is run once, on that directory;
    and the answer follows what the encoder did: a missing executable
    gives status 500 "ffmpeg is not installed on the server", a failed
    run status 500 "Failed to encode video", a finished run status 200
    with the video as attachment [kitten_video.mp4].  When measuring the
    caption raises (a caption that is not Latin-1 on a host without
    fonts), the view raises the same exception: it catches nothing
    there. *)
Theorem export_video_encodes_valid_upload (req : Request) (st : ServerState)
        (file : Upload) (opened : Image) (font : Font) :
  req_files req !! "image"%string = Some file ->
  up_filename file <> ""%string ->
  Image_open (up_stream file) = Ok opened ->
  load_font (int (float 720 * (6 # 100))) = Ok font ->
  let caption := cap_message (default [] (req_form req !! "message"%string)) in
  let tmpdir := mkdtemp (srv_tmpdirs st) in
  let output_path := os_path_join tmpdir "output.mp4" in
  let cmd := ffmpeg_command tmpdir output_path in
  (List.length caption <= 200)%nat
  /\ (forall e,
         ImageDraw_textsize caption font = Raise e ->
         export_video entropy req st = Raise e)
  /\ (forall extent,
         ImageDraw_textsize caption font = Ok extent ->
         exists frames run' response,
           generate_frames entropy (convert_RGBA opened) caption 720 720 15 5
                           (srv_run st) = Ok (frames, run')
           /\ List.length frames = 75%nat
           /\ export_video entropy req st
              = Ok (response,
                    mkServer run' (S (srv_tmpdirs st))
                             (cmd :: srv_commands st))
           /\ (forall i,
                  save_frames tmpdir 0 frames ∅
                  !! os_path_join tmpdir (frame_name i)
                  = frames !! i)
           /\ size (save_frames tmpdir 0 frames ∅) = 75%nat
           /\ response
              = match subprocess_run cmd (save_frames tmpdir 0 frames ∅) with
                | NotFound =>
                    json_error "ffmpeg is not installed on the server" 500
                | NonZeroExit => json_error "Failed to encode video" 500
                | Completed video =>
                    mkResponse 200
                      (Attachment output_path "video/mp4" "kitten_video.mp4"
                                  video) ∅
                end
           /\ (rsp_status response = 200 \/ rsp_status response = 500)).
Proof.
  intros F N O L caption tmpdir output_path cmd.
  assert (Head : forall r,
             generate_frames entropy (convert_RGBA opened) caption 720 720
                             15 5 (srv_run st) = r ->
             export_video entropy req st
             = match r with
               | Raise e => Raise e
               | Ok (frames, run') =>
                   let disk := save_frames tmpdir 0 frames ∅ in
                   let st' := mkServer run' (S (srv_tmpdirs st))
                                       (cmd :: srv_commands st) in
                   match subprocess_run cmd disk with
                   | NotFound =>
                       Ok (json_error "ffmpeg is not installed on the server"
                                      500, st')
                   | NonZeroExit =>
                       Ok (json_error "Failed to encode video" 500, st')
                   | Completed video =>
                       Ok (mkResponse 200
                             (Attachment output_path "video/mp4"
                                         "kitten_video.mp4" video) ∅, st')
                   end
               end).
  { intros r <-. unfold export_video. rewrite F.
    replace (up_filename file =? "")%string with false
      by (symmetry; apply String.eqb_neq; exact N).
    rewrite O. reflexivity. }
  pose proof (default_run (convert_RGBA opened) caption (srv_run st) font L)
    as Run.
  split.
  { unfold caption. apply cap_message_length_le. }
  split.
  - intros e T. rewrite T in Run. rewrite (Head _ Run). reflexivity.
  - intros extent T. rewrite T in Run. destruct Run as (frames & run' & G & Len).
    exists frames, run',
      (match subprocess_run cmd (save_frames tmpdir 0 frames ∅) with
       | NotFound => json_error "ffmpeg is not installed on the server" 500
       | NonZeroExit => json_error "Failed to encode video" 500
       | Completed video =>
           mkResponse 200
             (Attachment output_path "video/mp4" "kitten_video.mp4" video) ∅
       end).
    split; [exact G|]. split; [exact Len|]. split.
    { rewrite (Head _ G). cbv zeta.
      destruct (subprocess_run cmd (save_frames tmpdir 0 frames ∅));
        reflexivity. }
    split.
    { intros i. rewrite save_frames_lookup, Nat.sub_0_r.
      case_decide as D; [reflexivity|].
      rewrite lookup_empty. symmetry. apply lookup_ge_None. simpl in D. lia. }
    split.
    { rewrite save_frames_size; [rewrite map_size_empty; lia|].
      intros j _. apply lookup_empty. }
    split; [reflexivity|].
    destruct (subprocess_run cmd (save_frames tmpdir 0 frames ∅)); simpl; auto.
Qed.

(** Every answer the view returns has one of three statuses. *)
Lemma export_video_answers (req : Request) (st : ServerState) answer st' :
  export_video entropy req st = Ok (answer, st') ->
  rsp_status answer = 200 \/ rsp_status answer = 400
  \/ rsp_status answer = 500.
Proof.
  unfold export_video.
  destruct (req_files req !! "image"%string) as [file|];
    [|intros H; inversion H; subst; simpl; auto].
  destruct (up_filename file =? "")%string;
    [intros H; inversion H; subst; simpl; auto|].
  destruct (Image_open (up_stream file)) as [opened|e];
    [|intros H; inversion H; subst; simpl; auto].
  destruct (generate_frames _ _ _ _ _ _ _ _) as [[frames run']|e];
    [|discriminate].
  destruct (subprocess_run _ _); intros H; inversion H; subst; simpl; auto.
Qed.

End EndpointFacts.

Lemma export_video_rejects_bad_upload_witness :
  @export_video Reference.pillow Reference.bare_host reference_server
    (fun _ => 0) (mkRequest ∅ ∅) idle_server
  = Ok (json_error "Missing image file" 400, idle_server)
  /\ @export_video Reference.pillow Reference.bare_host reference_server
       (fun _ => 0)
       (mkRequest {[ "image"%string := mkUpload "cat.png" "" ]} ∅)
       idle_server
     = Ok (json_error "Invalid image file" 400, idle_server).
Proof.
  split.
  - exact (proj1 (@export_video_rejects_bad_upload Reference.pillow
                    Reference.bare_host reference_server (fun _ => 0)
                    (mkRequest ∅ ∅) idle_server)).
  - pose proof (proj1 (@export_video_rejects_bad_upload Reference.pillow
                         Reference.bare_host reference_server (fun _ => 0)
                         (mkRequest
                            {[ "image"%string := mkUpload "cat.png" "" ]} ∅)
                         idle_server)) as H.
    simpl in H. rewrite lookup_singleton_eq in H.
    apply (proj2 H ltac:(discriminate) OSError). reflexivity.
Defined.

Lemma export_video_encodes_valid_upload_witness :
  exists frames run',
    @export_video Reference.pillow Reference.bare_host reference_server
      (fun _ => 0) kitten_request idle_server
    = Ok (mkResponse 200
            (Attachment "/tmp/tmp0/output.mp4" "video/mp4" "kitten_video.mp4"
                        "mp4") ∅,
          mkServer run' 1
            [ffmpeg_command "/tmp/tmp0" "/tmp/tmp0/output.mp4"])
    /\ save_frames "/tmp/tmp0" 0 frames ∅ !! "/tmp/tmp0/frame_0074.png"%string
       = frames !! 74%nat
    /\ List.length frames = 75%nat.
Proof.
  destruct (@export_video_encodes_valid_upload Reference.pillow
              Reference.bare_host reference_server (fun _ => 0)
              kitten_request idle_server (mkUpload "cat.png" "PNG")
              Reference.red_square DefaultBitmap)
    as (_ & _ & Served).
  - apply lookup_singleton_eq.
  - discriminate.
  - reflexivity.
  - reflexivity.
  - destruct (Served (12, 11) eq_refl)
      as (frames & run' & response & _ & Len & E & D & _ & R & _).
    exists frames, run'. rewrite E, R. split; [reflexivity|].
    split; [exact (D 74%nat)|exact Len].
Defined.

(** ** The [after_request] hook *)

Lemma cors_headers_lookup (headers : gmap string string) (k : string) :
  (<["Access-Control-Allow-Headers"%string := "Content-Type"%string]>
     (<["Access-Control-Allow-Methods"%string := "GET,POST,OPTIONS"%string]>
        (<["Access-Control-Allow-Origin"%string := "*"%string]> headers)))
  !! k
  = if decide (k = "Access-Control-Allow-Headers"%string)
    then Some "Content-Type"%string
    else if decide (k = "Access-Control-Allow-Methods"%string)
         then Some "GET,POST,OPTIONS"%string
         else if decide (k = "Access-Control-Allow-Origin"%string)
              then Some "*"%string
              else headers !! k.
Proof.
  rewrite !lookup_insert.
  repeat (case_decide; subst; try congruence).
Qed.

(** X16.  Every answer leaves with the three CORS headers set to
    [*], [GET,POST,OPTIONS] and [Content-Type], whatever it carried
    under those names before; its status, its body and every other
    header are untouched, and running the hook a second time changes
    nothing.  Whatever the view returns has status 200, 400 or 500, and
    keeps it through the hook. *)
Theorem served_response_has_cors {pil : Pillow} {host : Host} {srv : Server}
        (entropy : nat -> Z) (req : Request) (st : ServerState)
        (response : Response) :
  (let served := add_cors_headers response in
   rsp_status served = rsp_status response
   /\ rsp_body served = rsp_body response
   /\ rsp_headers served !! "Access-Control-Allow-Origin"%string
      = Some "*"%string
   /\ rsp_headers served !! "Access-Control-Allow-Methods"%string
      = Some "GET,POST,OPTIONS"%string
   /\ rsp_headers served !! "Access-Control-Allow-Headers"%string
      = Some "Content-Type"%string
   /\ (forall k,
          k <> "Access-Control-Allow-Origin"%string ->
          k <> "Access-Control-Allow-Methods"%string ->
          k <> "Access-Control-Allow-Headers"%string ->
          rsp_headers served !! k = rsp_headers response !! k)
   /\ add_cors_headers served = served)
  /\ (forall answer st',
         export_video entropy req st = Ok (answer, st') ->
         (rsp_status (add_cors_headers answer) = 200
          \/ rsp_status (add_cors_headers answer) = 400
          \/ rsp_status (add_cors_headers answer) = 500)
         /\ rsp_body (add_cors_headers answer) = rsp_body answer
         /\ rsp_headers (add_cors_headers answer)
            !! "Access-Control-Allow-Origin"%string = Some "*"%string).
Proof.
  split.
  - cbv zeta. unfold add_cors_headers at 1 2 3 4 5 6. simpl.
    split; [reflexivity|]. split; [reflexivity|].
    rewrite !cors_headers_lookup. simpl.
    split; [reflexivity|]. split; [reflexivity|]. split; [reflexivity|].
    split.
    + intros k N1 N2 N3. rewrite cors_headers_lookup.
      rewrite !decide_False by assumption. reflexivity.
    + unfold add_cors_headers. simpl. f_equal.
      apply map_eq. intros k. rewrite !cors_headers_lookup.
      repeat case_decide; reflexivity.
  - intros answer st' E.
    pose proof (export_video_answers entropy req st answer st' E) as S.
    split; [exact S|]. split; [reflexivity|].
    unfold add_cors_headers. simpl. rewrite cors_headers_lookup. reflexivity.
Qed.

Lemma served_response_has_cors_witness :
  rsp_status (add_cors_headers (json_error "Empty filename" 400)) = 400
  /\ rsp_headers (add_cors_headers (json_error "Empty filename" 400))
     !! "Access-Control-Allow-Origin"%string = Some "*"%string.
Proof.
  destruct (@served_response_has_cors Reference.pillow Reference.bare_host
              reference_server (fun _ => 0) kitten_request idle_server
              (json_error "Empty filename" 400))
    as ((S & _ & O & _) & _).
  split; [exact S|exact O].
Defined.
